(** * Anamnesis: handle-authenticated object pool and Michael-Scott queue

    A shallow embedding of [src/anamnesis.c], [include/anamnesis.h] and
    [anamnesis_queue.c], followed by the properties of the specification
    that are settled against it.

    Conventions of the embedding.
    - Every C integer is a [Z]; the wrap-around of [uint16_t], [uint64_t]
      and [size_t] arithmetic is written out with [wrap16] and [wrap64].
    - Pointers are addresses in [Z]; [0] is [NULL].
    - The heap is a byte-addressed finite map.  Multi-byte objects are laid
      out little-endian, [sizeof(SlotHeader) = 16] with [next] at offset 0
      and [generation] at offset 8, [sizeof(QueueNode) = 8] (LP64).
    - Execution is sequential: a compare-exchange is a comparison with the
      current content followed by a store, and a retry loop whose
      compare-exchange re-reads the value it just loaded runs its body once.
      The unbounded [while (1)] loops of the queue take fuel.
    - The [!pool] and [!q] guards are represented by the types: the
      operations below take a pool or a queue, never a null pointer.
    - [ANAM_STRICT_VALIDATION] is not defined (the default build); the
      boundary test of the strict build is kept as [on_slot_boundary]. *)

From stdpp Require Import gmap list.
From Stdlib Require Import ZArith Lia.
Local Open Scope Z_scope.

(* ================================================================== *)
(** * Machine integers *)

Definition wrap64 (x : Z) : Z := x mod 2 ^ 64.
Definition wrap16 (x : Z) : Z := x mod 2 ^ 16.
Definition wrap8 (x : Z) : Z := x mod 2 ^ 8.

(** [atomic_compare_exchange] on a location holding [cur]: the flag and
    the content of the location afterwards. *)
Definition cas (cur expected desired : Z) : bool * Z :=
  if cur =? expected then (true, desired) else (false, cur).

(* ================================================================== *)
(** * Handles *)

Definition ANAM_NULL : Z := 0.

Definition ANAM_STATE_FREE : Z := 0.
Definition ANAM_STATE_LIVE : Z := 1.
Definition ANAM_STATE_QUARANTINE : Z := 2.
Definition ANAM_STATE_LOCKED : Z := 4.

Definition ANAM_ADDR_MASK : Z := 0x0000FFFFFFFFFFF8.
Definition ANAM_GEN_MASK : Z := 0xFFFF000000000000.
Definition ANAM_STATE_MASK : Z := 0x7.

Definition encode_handle (gen addr state : Z) : Z :=
  Z.lor (Z.lor (wrap64 (Z.shiftl (wrap16 gen) 48))
               (Z.land (wrap64 addr) ANAM_ADDR_MASK))
        (Z.land (wrap8 state) ANAM_STATE_MASK).

Definition decode_addr (handle : Z) : Z := Z.land handle ANAM_ADDR_MASK.

Definition decode_gen (handle : Z) : Z := wrap16 (Z.shiftr handle 48).

Definition anam_generation (handle : Z) : Z := wrap16 (Z.shiftr handle 48).

Definition anam_state (handle : Z) : Z := wrap8 (Z.land handle 0x7).

Definition anam_is_null (handle : Z) : bool := handle =? ANAM_NULL.

(* ================================================================== *)
(** * Byte-addressed memory *)

Definition load8 (m : gmap Z Z) (a : Z) : Z := default 0 (m !! a) mod 256.

Definition store8 (m : gmap Z Z) (a v : Z) : gmap Z Z := <[a := v mod 256]> m.

(** Little-endian load and store of an [n]-byte unsigned integer. *)
Fixpoint load_le (m : gmap Z Z) (a : Z) (n : nat) : Z :=
  match n with
  | O => 0
  | S k => load8 m a + 256 * load_le m (a + 1) k
  end.

Fixpoint store_le (m : gmap Z Z) (a : Z) (n : nat) (v : Z) : gmap Z Z :=
  match n with
  | O => m
  | S k => store_le (store8 m a v) (a + 1) k (v / 256)
  end.

Definition load16 (m : gmap Z Z) (a : Z) : Z := load_le m a 2.
Definition load64 (m : gmap Z Z) (a : Z) : Z := load_le m a 8.
Definition store16 (m : gmap Z Z) (a v : Z) : gmap Z Z := store_le m a 2 v.
Definition store64 (m : gmap Z Z) (a v : Z) : gmap Z Z := store_le m a 8 v.

Fixpoint store_bytes (m : gmap Z Z) (a : Z) (l : list Z) : gmap Z Z :=
  match l with
  | [] => m
  | b :: l' => store_bytes (store8 m a b) (a + 1) l'
  end.

Fixpoint load_bytes (m : gmap Z Z) (a : Z) (n : nat) : list Z :=
  match n with
  | O => []
  | S k => load8 m a :: load_bytes m (a + 1) k
  end.

Definition memset (m : gmap Z Z) (dst c n : Z) : gmap Z Z :=
  store_bytes m dst (replicate (Z.to_nat n) c).

(** [memcpy(dst, src, n)] where the source buffer holds the bytes [src]. *)
Definition memcpy (m : gmap Z Z) (dst : Z) (src : list Z) (n : Z) : gmap Z Z :=
  store_bytes m dst (take (Z.to_nat n) src).

(* ================================================================== *)
(** * Slot header *)

Definition sizeof_SlotHeader : Z := 16.
Definition offsetof_next : Z := 0.
Definition offsetof_generation : Z := 8.

Definition get_header (user_ptr : Z) : Z := wrap64 (user_ptr - sizeof_SlotHeader).

Definition get_user_ptr (header : Z) : Z := wrap64 (header + sizeof_SlotHeader).

(** [&header->next] and [&header->generation]. *)
Definition next_of (header : Z) : Z := wrap64 (header + offsetof_next).
Definition generation_of (header : Z) : Z := wrap64 (header + offsetof_generation).

(* ================================================================== *)
(** * Pool *)

Record AnamPoolConfig := {
  cfg_slot_size : Z;
  cfg_slot_count : Z;
  cfg_alignment : Z;
  cfg_zero_on_alloc : bool;
  cfg_zero_on_release : bool
}.

Definition ANAM_POOL_DEFAULT : AnamPoolConfig :=
  {| cfg_slot_size := 64; cfg_slot_count := 1024; cfg_alignment := 8;
     cfg_zero_on_alloc := false; cfg_zero_on_release := false |}.

Record AnamPool := {
  slot_size : Z;
  slot_stride : Z;
  slot_stride_mask : Z;
  slot_count : Z;
  alignment : Z;
  zero_on_alloc : bool;
  zero_on_release : bool;
  memory : Z;
  slots_base : Z;
  free_head : Z;
  slots_free : Z;
  alloc_count : Z;
  release_count : Z;
  anamnesis_count : Z;
  generation_max : Z;
  (** the bytes of the process memory, in particular of the backing buffer *)
  heap : gmap Z Z
}.

Record AnamPoolStats := {
  st_slot_count : Z;
  st_slots_free : Z;
  st_slots_live : Z;
  st_alloc_count : Z;
  st_release_count : Z;
  st_anamnesis_count : Z;
  st_generation_max : Z
}.

Definition set_free_head (p : AnamPool) (v : Z) : AnamPool :=
  {| slot_size := slot_size p; slot_stride := slot_stride p;
     slot_stride_mask := slot_stride_mask p; slot_count := slot_count p;
     alignment := alignment p; zero_on_alloc := zero_on_alloc p;
     zero_on_release := zero_on_release p; memory := memory p;
     slots_base := slots_base p; free_head := v;
     slots_free := slots_free p; alloc_count := alloc_count p;
     release_count := release_count p; anamnesis_count := anamnesis_count p;
     generation_max := generation_max p; heap := heap p |}.

Definition set_slots_free (p : AnamPool) (v : Z) : AnamPool :=
  {| slot_size := slot_size p; slot_stride := slot_stride p;
     slot_stride_mask := slot_stride_mask p; slot_count := slot_count p;
     alignment := alignment p; zero_on_alloc := zero_on_alloc p;
     zero_on_release := zero_on_release p; memory := memory p;
     slots_base := slots_base p; free_head := free_head p;
     slots_free := v; alloc_count := alloc_count p;
     release_count := release_count p; anamnesis_count := anamnesis_count p;
     generation_max := generation_max p; heap := heap p |}.

Definition set_alloc_count (p : AnamPool) (v : Z) : AnamPool :=
  {| slot_size := slot_size p; slot_stride := slot_stride p;
     slot_stride_mask := slot_stride_mask p; slot_count := slot_count p;
     alignment := alignment p; zero_on_alloc := zero_on_alloc p;
     zero_on_release := zero_on_release p; memory := memory p;
     slots_base := slots_base p; free_head := free_head p;
     slots_free := slots_free p; alloc_count := v;
     release_count := release_count p; anamnesis_count := anamnesis_count p;
     generation_max := generation_max p; heap := heap p |}.

Definition set_release_count (p : AnamPool) (v : Z) : AnamPool :=
  {| slot_size := slot_size p; slot_stride := slot_stride p;
     slot_stride_mask := slot_stride_mask p; slot_count := slot_count p;
     alignment := alignment p; zero_on_alloc := zero_on_alloc p;
     zero_on_release := zero_on_release p; memory := memory p;
     slots_base := slots_base p; free_head := free_head p;
     slots_free := slots_free p; alloc_count := alloc_count p;
     release_count := v; anamnesis_count := anamnesis_count p;
     generation_max := generation_max p; heap := heap p |}.

Definition set_anamnesis_count (p : AnamPool) (v : Z) : AnamPool :=
  {| slot_size := slot_size p; slot_stride := slot_stride p;
     slot_stride_mask := slot_stride_mask p; slot_count := slot_count p;
     alignment := alignment p; zero_on_alloc := zero_on_alloc p;
     zero_on_release := zero_on_release p; memory := memory p;
     slots_base := slots_base p; free_head := free_head p;
     slots_free := slots_free p; alloc_count := alloc_count p;
     release_count := release_count p; anamnesis_count := v;
     generation_max := generation_max p; heap := heap p |}.

Definition set_generation_max (p : AnamPool) (v : Z) : AnamPool :=
  {| slot_size := slot_size p; slot_stride := slot_stride p;
     slot_stride_mask := slot_stride_mask p; slot_count := slot_count p;
     alignment := alignment p; zero_on_alloc := zero_on_alloc p;
     zero_on_release := zero_on_release p; memory := memory p;
     slots_base := slots_base p; free_head := free_head p;
     slots_free := slots_free p; alloc_count := alloc_count p;
     release_count := release_count p; anamnesis_count := anamnesis_count p;
     generation_max := v; heap := heap p |}.

Definition set_heap (p : AnamPool) (m : gmap Z Z) : AnamPool :=
  {| slot_size := slot_size p; slot_stride := slot_stride p;
     slot_stride_mask := slot_stride_mask p; slot_count := slot_count p;
     alignment := alignment p; zero_on_alloc := zero_on_alloc p;
     zero_on_release := zero_on_release p; memory := memory p;
     slots_base := slots_base p; free_head := free_head p;
     slots_free := slots_free p; alloc_count := alloc_count p;
     release_count := release_count p; anamnesis_count := anamnesis_count p;
     generation_max := generation_max p; heap := m |}.

(** [atomic_fetch_add(&pool->anamnesis_count, 1)]. *)
Definition bump_anamnesis (p : AnamPool) : AnamPool :=
  set_anamnesis_count p (wrap64 (anamnesis_count p + 1)).

(** ** Helpers *)

Definition slot_from_index (pool : AnamPool) (index : Z) : Z :=
  wrap64 (slots_base pool + wrap64 (index * slot_stride pool)).

Definition pool_end (pool : AnamPool) : Z :=
  wrap64 (slots_base pool + wrap64 (slot_count pool * slot_stride pool)).

Definition in_pool (pool : AnamPool) (ptr : Z) : bool :=
  if (ptr <? slots_base pool) || (pool_end pool <=? ptr) then false else true.

(** The additional test of [in_pool] under [ANAM_STRICT_VALIDATION]. *)
Definition on_slot_boundary (pool : AnamPool) (ptr : Z) : bool :=
  let off := wrap64 (ptr - slots_base pool) in
  if negb (slot_stride_mask pool =? 0)
  then Z.land off (slot_stride_mask pool) =? 0
  else off mod slot_stride pool =? 0.

Definition in_pool_strict (pool : AnamPool) (ptr : Z) : bool :=
  if (ptr <? slots_base pool) || (pool_end pool <=? ptr) then false
  else on_slot_boundary pool ptr.

Definition align_up (value alignment : Z) : Z :=
  Z.land (wrap64 (value + alignment - 1)) (wrap64 (Z.lnot (wrap64 (alignment - 1)))).

(** ** Lifecycle *)

(** One iteration of the loop that pushes slot [index] onto the free list. *)
Definition init_slot (pool : AnamPool) (index : Z) : AnamPool :=
  let user_ptr := slot_from_index pool index in
  let header := get_header user_ptr in
  let m1 := store16 (heap pool) (generation_of header) 0 in
  let old_head := free_head pool in
  let new_handle := encode_handle 0 user_ptr ANAM_STATE_FREE in
  let m2 := store64 m1 (next_of header) old_head in
  set_free_head (set_heap pool m2) new_handle.

(** [for (i = n; i > 0; i--) init_slot(i - 1)]. *)
Fixpoint init_slots (n : nat) (pool : AnamPool) : AnamPool :=
  match n with
  | O => pool
  | S k => init_slots k (init_slot pool (Z.of_nat k))
  end.

(** The environment of a creation: whether [calloc] succeeds, the result of
    the aligned allocator for a given alignment and size ([0] for [NULL]),
    and the memory content at that time. *)
Record AllocEnv := {
  calloc_ok : bool;
  aligned_alloc : Z -> Z -> Z;
  heap0 : gmap Z Z
}.

(** The layout that [anam_pool_create] computes from a configuration:
    the alignment after the default is filled in, the stride of a slot,
    the size of the backing buffer and the address of slot zero. *)
Definition create_alignment (cfg : AnamPoolConfig) : Z :=
  if cfg_alignment cfg =? 0 then 8 else cfg_alignment cfg.

Definition create_stride (cfg : AnamPoolConfig) : Z :=
  let al := create_alignment cfg in
  let header_size := align_up sizeof_SlotHeader al in
  let user_size := align_up (cfg_slot_size cfg) al in
  align_up (wrap64 (header_size + user_size)) 8.

Definition create_total (cfg : AnamPoolConfig) : Z :=
  let al := create_alignment cfg in
  let total := wrap64 (wrap64 (create_stride cfg * cfg_slot_count cfg) + al) in
  align_up total al.

Definition create_base (cfg : AnamPoolConfig) (mem : Z) : Z :=
  align_up (wrap64 (mem + sizeof_SlotHeader)) (create_alignment cfg).

(** The pool structure after [calloc] and the assignments that precede
    the initialisation loop, [mem] being the backing buffer. *)
Definition create_struct (env : AllocEnv) (cfg : AnamPoolConfig) (mem : Z) : AnamPool :=
  let stride := create_stride cfg in
  {| slot_size := cfg_slot_size cfg;
     slot_stride := stride;
     slot_stride_mask :=
       if Z.land stride (wrap64 (stride - 1)) =? 0 then wrap64 (stride - 1) else 0;
     slot_count := cfg_slot_count cfg;
     alignment := create_alignment cfg;
     zero_on_alloc := cfg_zero_on_alloc cfg;
     zero_on_release := cfg_zero_on_release cfg;
     memory := mem;
     slots_base := create_base cfg mem;
     free_head := ANAM_NULL;
     slots_free := cfg_slot_count cfg;
     alloc_count := 0;
     release_count := 0;
     anamnesis_count := 0;
     generation_max := 0;
     heap := heap0 env |}.

Definition anam_pool_create (env : AllocEnv) (config : option AnamPoolConfig)
  : option AnamPool :=
  let cfg := match config with Some c => c | None => ANAM_POOL_DEFAULT end in
  if (cfg_slot_size cfg =? 0) || (cfg_slot_count cfg =? 0) then None else
  let al := create_alignment cfg in
  if negb (Z.land al (wrap64 (al - 1)) =? 0) then None else
  if al <? 8 then None else
  if negb (calloc_ok env) then None else
  let mem := aligned_alloc env al (create_total cfg) in
  if mem =? 0 then None else
  Some (init_slots (Z.to_nat (cfg_slot_count cfg)) (create_struct env cfg mem)).

(** ** Allocation *)

Definition anam_alloc (pool : AnamPool) : Z * AnamPool :=
  let old_head := free_head pool in
  if anam_is_null old_head then (ANAM_NULL, pool) else
  let user_ptr := decode_addr old_head in
  let header := get_header user_ptr in
  let new_head := load64 (heap pool) (next_of header) in
  let pool := set_free_head pool (snd (cas (free_head pool) old_head new_head)) in
  let gen := load16 (heap pool) (generation_of header) in
  let max_gen := generation_max pool in
  let pool := if max_gen <? gen then set_generation_max pool gen else pool in
  let pool := set_heap pool (store64 (heap pool) (next_of header) ANAM_NULL) in
  let pool := set_slots_free pool (wrap64 (slots_free pool - 1)) in
  let pool := set_alloc_count pool (wrap64 (alloc_count pool + 1)) in
  let pool :=
    if zero_on_alloc pool
    then set_heap pool (memset (heap pool) user_ptr 0 (slot_size pool))
    else pool in
  (encode_handle gen user_ptr ANAM_STATE_LIVE, pool).

Definition anam_release (pool : AnamPool) (handle : Z) : bool * AnamPool :=
  if anam_is_null handle then (false, pool) else
  if negb (anam_state handle =? ANAM_STATE_LIVE) then (false, bump_anamnesis pool) else
  let user_ptr := decode_addr handle in
  if negb (in_pool pool user_ptr) then (false, bump_anamnesis pool) else
  let header := get_header user_ptr in
  let claimed_gen := decode_gen handle in
  let true_gen := load16 (heap pool) (generation_of header) in
  if negb (claimed_gen =? true_gen) then (false, bump_anamnesis pool) else
  let new_gen := wrap16 (true_gen + 1) in
  let pool := set_heap pool (store16 (heap pool) (generation_of header) new_gen) in
  let pool :=
    if zero_on_release pool
    then set_heap pool (memset (heap pool) user_ptr 0 (slot_size pool))
    else pool in
  let old_head := free_head pool in
  let pool := set_heap pool (store64 (heap pool) (next_of header) old_head) in
  let new_handle := encode_handle new_gen user_ptr ANAM_STATE_FREE in
  let pool := set_free_head pool (snd (cas (free_head pool) old_head new_handle)) in
  let pool := set_slots_free pool (wrap64 (slots_free pool + 1)) in
  let pool := set_release_count pool (wrap64 (release_count pool + 1)) in
  (true, pool).

(** ** Access *)

Definition anam_get (pool : AnamPool) (handle : Z) : Z * AnamPool :=
  if anam_is_null handle then (0, pool) else
  if negb (anam_state handle =? ANAM_STATE_LIVE) then (0, bump_anamnesis pool) else
  let user_ptr := decode_addr handle in
  if negb (in_pool pool user_ptr) then (0, bump_anamnesis pool) else
  let header := get_header user_ptr in
  let claimed_gen := decode_gen handle in
  let true_gen := load16 (heap pool) (generation_of header) in
  if negb (claimed_gen =? true_gen) then (0, bump_anamnesis pool) else
  (user_ptr, pool).

Definition anam_validate (pool : AnamPool) (handle : Z) : bool * AnamPool :=
  let r := anam_get pool handle in (negb (fst r =? 0), snd r).

(** ** Diagnostics *)

Definition anam_pool_stats (pool : AnamPool) : AnamPoolStats :=
  {| st_slot_count := slot_count pool;
     st_slots_free := slots_free pool;
     st_slots_live := wrap64 (slot_count pool - slots_free pool);
     st_alloc_count := alloc_count pool;
     st_release_count := release_count pool;
     st_anamnesis_count := anamnesis_count pool;
     st_generation_max := generation_max pool |}.

(** The first loop of [anam_foreach]: the snapshot [is_free] of the free
    list, one flag per slot.  Every iteration that does not leave the loop
    sets a flag that was clear, so [slot_count + 1] iterations are enough;
    [None] is the loop still running when the fuel is spent. *)
Fixpoint free_walk (fuel : nat) (pool : AnamPool) (h : Z) (is_free : list bool)
  : option (list bool) :=
  match fuel with
  | O => None
  | S k =>
    if anam_is_null h then Some is_free else
    let user_ptr := decode_addr h in
    if negb (in_pool pool user_ptr) then Some is_free else
    let idx := wrap64 (user_ptr - slots_base pool) / slot_stride pool in
    if slot_count pool <=? idx then Some is_free else
    match is_free !! Z.to_nat idx with
    | Some true => Some is_free
    | _ =>
      let header := get_header user_ptr in
      free_walk k pool (load64 (heap pool) (next_of header))
                (<[Z.to_nat idx := true]> is_free)
    end
  end.

Definition free_snapshot (pool : AnamPool) : option (list bool) :=
  free_walk (S (Z.to_nat (slot_count pool))) pool (free_head pool)
            (replicate (Z.to_nat (slot_count pool)) false).

(** The number of slots on the free list, as [anam_foreach] sees it: the
    number of flags set in the snapshot. *)
Fixpoint count_true (l : list bool) : Z :=
  match l with
  | [] => 0
  | b :: rest => (if b then 1 else 0) + count_true rest
  end.

Definition free_reachable (pool : AnamPool) : option Z :=
  match free_snapshot pool with
  | Some is_free => Some (count_true is_free)
  | None => None
  end.

(** The second loop of [anam_foreach]: the slots not marked free, each
    with the handle rebuilt from its header, up to the first one at which
    the visitor answers [false]. *)
Fixpoint foreach_visit (pool : AnamPool) (fn : Z -> Z -> bool)
    (is_free : list bool) (i : Z) : list (Z * Z) :=
  match is_free with
  | [] => []
  | b :: rest =>
    if b then foreach_visit pool fn rest (i + 1) else
    let user_ptr := slot_from_index pool i in
    let header := get_header user_ptr in
    let gen := load16 (heap pool) (generation_of header) in
    let handle := encode_handle gen user_ptr ANAM_STATE_LIVE in
    if fn handle user_ptr
    then (handle, user_ptr) :: foreach_visit pool fn rest (i + 1)
    else [(handle, user_ptr)]
  end.

(** [anam_foreach]: the visits made, in order.  [is_free_ok] says whether
    the [calloc] of the snapshot succeeds; when it fails nothing is
    visited. *)
Definition anam_foreach (is_free_ok : bool) (pool : AnamPool) (fn : Z -> Z -> bool)
  : option (list (Z * Z)) :=
  if negb is_free_ok then Some [] else
  match free_snapshot pool with
  | Some is_free => Some (foreach_visit pool fn is_free 0)
  | None => None
  end.

(* ================================================================== *)
(** * Queue *)

Record AnamQueueConfig := {
  cfg_item_size : Z;
  cfg_capacity : Z
}.

Definition ANAM_QUEUE_DEFAULT : AnamQueueConfig :=
  {| cfg_item_size := 64; cfg_capacity := 1024 |}.

Record AnamQueue := {
  item_size : Z;
  capacity : Z;
  node_size : Z;
  pool : AnamPool;
  head : Z;
  tail : Z;
  length : Z;
  push_count : Z;
  pop_count : Z;
  push_fails : Z;
  pop_fails : Z;
  aba_prevented : Z
}.

Record AnamQueueStats := {
  qs_capacity : Z;
  qs_push_count : Z;
  qs_pop_count : Z;
  qs_push_fails : Z;
  qs_pop_fails : Z;
  qs_aba_prevented : Z
}.

Definition set_pool (q : AnamQueue) (p : AnamPool) : AnamQueue :=
  {| item_size := item_size q; capacity := capacity q; node_size := node_size q;
     pool := p; head := head q; tail := tail q; length := length q;
     push_count := push_count q; pop_count := pop_count q;
     push_fails := push_fails q; pop_fails := pop_fails q;
     aba_prevented := aba_prevented q |}.

Definition set_head (q : AnamQueue) (v : Z) : AnamQueue :=
  {| item_size := item_size q; capacity := capacity q; node_size := node_size q;
     pool := pool q; head := v; tail := tail q; length := length q;
     push_count := push_count q; pop_count := pop_count q;
     push_fails := push_fails q; pop_fails := pop_fails q;
     aba_prevented := aba_prevented q |}.

Definition set_tail (q : AnamQueue) (v : Z) : AnamQueue :=
  {| item_size := item_size q; capacity := capacity q; node_size := node_size q;
     pool := pool q; head := head q; tail := v; length := length q;
     push_count := push_count q; pop_count := pop_count q;
     push_fails := push_fails q; pop_fails := pop_fails q;
     aba_prevented := aba_prevented q |}.

Definition set_length (q : AnamQueue) (v : Z) : AnamQueue :=
  {| item_size := item_size q; capacity := capacity q; node_size := node_size q;
     pool := pool q; head := head q; tail := tail q; length := v;
     push_count := push_count q; pop_count := pop_count q;
     push_fails := push_fails q; pop_fails := pop_fails q;
     aba_prevented := aba_prevented q |}.

Definition set_push_count (q : AnamQueue) (v : Z) : AnamQueue :=
  {| item_size := item_size q; capacity := capacity q; node_size := node_size q;
     pool := pool q; head := head q; tail := tail q; length := length q;
     push_count := v; pop_count := pop_count q;
     push_fails := push_fails q; pop_fails := pop_fails q;
     aba_prevented := aba_prevented q |}.

Definition set_pop_count (q : AnamQueue) (v : Z) : AnamQueue :=
  {| item_size := item_size q; capacity := capacity q; node_size := node_size q;
     pool := pool q; head := head q; tail := tail q; length := length q;
     push_count := push_count q; pop_count := v;
     push_fails := push_fails q; pop_fails := pop_fails q;
     aba_prevented := aba_prevented q |}.

Definition set_push_fails (q : AnamQueue) (v : Z) : AnamQueue :=
  {| item_size := item_size q; capacity := capacity q; node_size := node_size q;
     pool := pool q; head := head q; tail := tail q; length := length q;
     push_count := push_count q; pop_count := pop_count q;
     push_fails := v; pop_fails := pop_fails q;
     aba_prevented := aba_prevented q |}.

Definition set_pop_fails (q : AnamQueue) (v : Z) : AnamQueue :=
  {| item_size := item_size q; capacity := capacity q; node_size := node_size q;
     pool := pool q; head := head q; tail := tail q; length := length q;
     push_count := push_count q; pop_count := pop_count q;
     push_fails := push_fails q; pop_fails := v;
     aba_prevented := aba_prevented q |}.

Definition set_aba_prevented (q : AnamQueue) (v : Z) : AnamQueue :=
  {| item_size := item_size q; capacity := capacity q; node_size := node_size q;
     pool := pool q; head := head q; tail := tail q; length := length q;
     push_count := push_count q; pop_count := pop_count q;
     push_fails := push_fails q; pop_fails := pop_fails q;
     aba_prevented := v |}.

(** [atomic_fetch_add(&q->aba_prevented, 1)]. *)
Definition bump_aba (q : AnamQueue) : AnamQueue :=
  set_aba_prevented q (wrap64 (aba_prevented q + 1)).

Definition sizeof_QueueNode : Z := 8.

Definition node_data (node : Z) : Z := wrap64 (node + sizeof_QueueNode).

(** [data] is the content of the caller's buffer, [None] for a null
    pointer. *)
Definition alloc_node (q : AnamQueue) (data : option (list Z)) : Z * AnamQueue :=
  let '(h, p) := anam_alloc (pool q) in
  if anam_is_null h then (ANAM_NULL, set_pool q p) else
  let '(node, p) := anam_get p h in
  let p := set_heap p (store64 (heap p) node ANAM_NULL) in
  let p :=
    match data with
    | Some bytes => set_heap p (memcpy (heap p) (node_data node) bytes (item_size q))
    | None => p
    end in
  (h, set_pool q p).

(** [(sizeof(QueueNode) + item_size + 7) & ~7]. *)
Definition queue_node_size (cfg : AnamQueueConfig) : Z :=
  Z.land (wrap64 (sizeof_QueueNode + cfg_item_size cfg + 7)) (wrap64 (Z.lnot 7)).

(** The configuration of the private pool; the fields that the designated
    initialiser leaves out are zero. *)
Definition queue_pool_config (cfg : AnamQueueConfig) : AnamPoolConfig :=
  {| cfg_slot_size := queue_node_size cfg;
     cfg_slot_count := wrap64 (cfg_capacity cfg + 1);
     cfg_alignment := 0;
     cfg_zero_on_alloc := false;
     cfg_zero_on_release := false |}.

(** The queue structure after [calloc] and the assignments that precede
    the allocation of the dummy node. *)
Definition queue_struct (cfg : AnamQueueConfig) (p : AnamPool) : AnamQueue :=
  {| item_size := cfg_item_size cfg; capacity := cfg_capacity cfg;
     node_size := queue_node_size cfg; pool := p; head := 0; tail := 0;
     length := 0; push_count := 0; pop_count := 0; push_fails := 0;
     pop_fails := 0; aba_prevented := 0 |}.

(** The environment of a queue creation: the [calloc] of the queue
    structure, then the environment handed to [anam_pool_create]. *)
Definition anam_queue_create (queue_calloc_ok : bool) (env : AllocEnv)
    (config : option AnamQueueConfig) : option AnamQueue :=
  let cfg := match config with Some c => c | None => ANAM_QUEUE_DEFAULT end in
  if (cfg_item_size cfg =? 0) || (cfg_capacity cfg =? 0) then None else
  if negb queue_calloc_ok then None else
  match anam_pool_create env (Some (queue_pool_config cfg)) with
  | None => None
  | Some p =>
    let '(dummy, q) := alloc_node (queue_struct cfg p) None in
    if anam_is_null dummy then None else
    Some (set_tail (set_head q dummy) dummy)
  end.

(** The [while (1)] loop of [anam_queue_push]. *)
Fixpoint push_loop (fuel : nat) (q : AnamQueue) (new_h : Z) : option AnamQueue :=
  match fuel with
  | O => None
  | S k =>
    let tail_h := tail q in
    let '(tailp, p) := anam_get (pool q) tail_h in
    let q := set_pool q p in
    if tailp =? 0 then push_loop k (bump_aba q) new_h else
    let next_h := load64 (heap (pool q)) tailp in
    if negb (tail_h =? tail q) then push_loop k (bump_aba q) new_h else
    if anam_is_null next_h then
      if fst (cas (load64 (heap (pool q)) tailp) next_h new_h)
      then Some (set_pool q (set_heap (pool q) (store64 (heap (pool q)) tailp new_h)))
      else push_loop k q new_h
    else
      let gen := decode_gen next_h in
      let addr := decode_addr next_h in
      let q := set_tail q (snd (cas (tail q) tail_h
                                    (encode_handle gen addr ANAM_STATE_LIVE))) in
      push_loop k q new_h
  end.

Definition anam_queue_push (fuel : nat) (q : AnamQueue) (data : option (list Z))
  : option (Z * AnamQueue) :=
  match data with
  | None => Some (ANAM_NULL, q)
  | Some _ =>
    let '(new_h, q) := alloc_node q data in
    if anam_is_null new_h
    then Some (ANAM_NULL, set_push_fails q (wrap64 (push_fails q + 1)))
    else
      match push_loop fuel q new_h with
      | None => None
      | Some q =>
        let tail_h := tail q in
        let gen := decode_gen new_h in
        let addr := decode_addr new_h in
        let q := set_tail q (snd (cas (tail q) tail_h
                                      (encode_handle gen addr ANAM_STATE_LIVE))) in
        let q := set_length q (wrap64 (length q + 1)) in
        let q := set_push_count q (wrap64 (push_count q + 1)) in
        Some (new_h, q)
      end
  end.

(** [anam_queue_pop].  [data_out] says whether the caller passed a buffer;
    [out] is the content of that buffer, [None] while nothing was copied
    into it. *)
Fixpoint anam_queue_pop_from (fuel : nat) (q : AnamQueue) (data_out : bool)
    (out : option (list Z)) : option (bool * option (list Z) * AnamQueue) :=
  match fuel with
  | O => None
  | S k =>
    let head_h := head q in
    let tail_h := tail q in
    let '(headp, p) := anam_get (pool q) head_h in
    let q := set_pool q p in
    if headp =? 0 then anam_queue_pop_from k (bump_aba q) data_out out else
    let next_h := load64 (heap (pool q)) headp in
    if negb (head_h =? head q) then anam_queue_pop_from k (bump_aba q) data_out out else
    if head_h =? tail_h then
      if anam_is_null next_h
      then Some (false, out, set_pop_fails q (wrap64 (pop_fails q + 1)))
      else
        let gen := decode_gen next_h in
        let addr := decode_addr next_h in
        let q := set_tail q (snd (cas (tail q) tail_h
                                      (encode_handle gen addr ANAM_STATE_LIVE))) in
        anam_queue_pop_from k q data_out out
    else
      let '(nextp, p) := anam_get (pool q) next_h in
      let q := set_pool q p in
      if nextp =? 0 then anam_queue_pop_from k (bump_aba q) data_out out else
      let out :=
        if data_out
        then Some (load_bytes (heap (pool q)) (node_data nextp) (Z.to_nat (item_size q)))
        else out in
      let gen := decode_gen next_h in
      let addr := decode_addr next_h in
      let '(ok, v) := cas (head q) head_h (encode_handle gen addr ANAM_STATE_LIVE) in
      let q := set_head q v in
      if ok then
        let q := set_pool q (snd (anam_release (pool q) head_h)) in
        let q := set_length q (wrap64 (length q - 1)) in
        let q := set_pop_count q (wrap64 (pop_count q + 1)) in
        Some (true, out, q)
      else anam_queue_pop_from k q data_out out
  end.

Definition anam_queue_pop (fuel : nat) (q : AnamQueue) (data_out : bool)
  : option (bool * option (list Z) * AnamQueue) :=
  anam_queue_pop_from fuel q data_out None.

(** [anam_queue_peek].  [data_out] says whether the caller passed a
    buffer; the result is the flag, the content of the buffer and the
    queue, whose pool counts a failed [anam_get]. *)
Definition anam_queue_peek (q : AnamQueue) (data_out : bool)
  : bool * option (list Z) * AnamQueue :=
  if negb data_out then (false, None, q) else
  let head_h := head q in
  let '(headp, p) := anam_get (pool q) head_h in
  let q := set_pool q p in
  if headp =? 0 then (false, None, q) else
  let next_h := load64 (heap (pool q)) headp in
  if anam_is_null next_h then (false, None, q) else
  let '(nextp, p) := anam_get (pool q) next_h in
  let q := set_pool q p in
  if nextp =? 0 then (false, None, q) else
  (true, Some (load_bytes (heap (pool q)) (node_data nextp) (Z.to_nat (item_size q))), q).

(** [anam_queue_empty]; a failed [anam_get] also counts in the pool. *)
Definition anam_queue_empty (q : AnamQueue) : bool * AnamQueue :=
  let head_h := head q in
  let '(headp, p) := anam_get (pool q) head_h in
  let q := set_pool q p in
  if headp =? 0 then (true, q) else
  (anam_is_null (load64 (heap (pool q)) headp), q).

Definition anam_queue_length (q : AnamQueue) : Z := length q.

Definition anam_queue_stats (q : AnamQueue) : AnamQueueStats :=
  {| qs_capacity := capacity q;
     qs_push_count := push_count q;
     qs_pop_count := pop_count q;
     qs_push_fails := push_fails q;
     qs_pop_fails := pop_fails q;
     qs_aba_prevented := aba_prevented q |}.

(** The drain loop [while (anam_queue_pop(q, NULL)) {}] of
    [anam_queue_destroy]; [fuel] bounds each pop, [rounds] the loop. *)
Fixpoint drain (rounds fuel : nat) (q : AnamQueue) : option AnamQueue :=
  match rounds with
  | O => None
  | S r =>
    match anam_queue_pop fuel q false with
    | None => None
    | Some (true, _, q') => drain r fuel q'
    | Some (false, _, q') => Some q'
    end
  end.

(** [anam_queue_destroy] up to the point where the pool and the queue
    structure are handed back to the allocator: the pool it leaves. *)
Definition anam_queue_destroy (rounds fuel : nat) (q : AnamQueue) : option AnamPool :=
  match drain rounds fuel q with
  | None => None
  | Some q =>
    let h := head q in
    Some (if anam_is_null h then pool q else snd (anam_release (pool q) h))
  end.

(* ================================================================== *)
(** * Vocabulary of the specification *)

Definition is_pow2 (a : Z) : Prop := exists k, 0 <= k /\ a = 2 ^ k.

(** An allocator that always succeeds and hands out the buffer at address
    4096 of an otherwise empty memory; used for concrete runs. *)
Definition demo_env : AllocEnv :=
  {| calloc_ok := true; aligned_alloc := fun _ _ => 4096; heap0 := ∅ |}.

Definition mk_config (size count align : Z) : AnamPoolConfig :=
  {| cfg_slot_size := size; cfg_slot_count := count; cfg_alignment := align;
     cfg_zero_on_alloc := false; cfg_zero_on_release := false |}.

(** What the header in front of [user_ptr] holds. *)
Definition header_generation (pool : AnamPool) (user_ptr : Z) : Z :=
  load16 (heap pool) (generation_of (get_header user_ptr)).

Definition header_next (pool : AnamPool) (user_ptr : Z) : Z :=
  load64 (heap pool) (next_of (get_header user_ptr)).

(** A handle authenticates against a pool: it is not null, its state tag
    is LIVE, its address lies inside the slot region and the generation in
    the header in front of that address is the one the handle claims. *)
Definition authenticates (pool : AnamPool) (h : Z) : Prop :=
  h <> ANAM_NULL
  /\ anam_state h = ANAM_STATE_LIVE
  /\ in_pool pool (decode_addr h) = true
  /\ header_generation pool (decode_addr h) = anam_generation h.

(** The pool structure as [calloc] returns it. *)
Definition zeroed_pool : AnamPool :=
  {| slot_size := 0; slot_stride := 0; slot_stride_mask := 0; slot_count := 0;
     alignment := 0; zero_on_alloc := false; zero_on_release := false;
     memory := 0; slots_base := 0; free_head := 0; slots_free := 0;
     alloc_count := 0; release_count := 0; anamnesis_count := 0;
     generation_max := 0; heap := ∅ |}.

(** The pool of ten 64-byte slots that the unit tests create. *)
Definition demo_pool : AnamPool :=
  default zeroed_pool (anam_pool_create demo_env (Some (mk_config 64 10 0))).


(** The pool an accepted release leaves, spelled out. *)
Definition released (pool : AnamPool) (a : Z) : AnamPool :=
  let g := wrap16 (header_generation pool a + 1) in
  let m1 := store16 (heap pool) (generation_of (get_header a)) g in
  let m2 := if zero_on_release pool then memset m1 a 0 (slot_size pool) else m1 in
  let m3 := store64 m2 (next_of (get_header a)) (free_head pool) in
  set_release_count
    (set_slots_free
       (set_free_head (set_heap pool m3) (encode_handle g a ANAM_STATE_FREE))
       (wrap64 (slots_free pool + 1)))
    (wrap64 (release_count pool + 1)).

(** The pool a successful allocation leaves, [a] being the address held
    by the free-list head. *)
Definition allocated (pool : AnamPool) (a : Z) : AnamPool :=
  let g := header_generation pool a in
  let m1 := store64 (heap pool) (next_of (get_header a)) ANAM_NULL in
  let m2 := if zero_on_alloc pool then memset m1 a 0 (slot_size pool) else m1 in
  set_heap
    (set_alloc_count
       (set_slots_free
          (set_generation_max
             (set_free_head pool (header_next pool a))
             (if generation_max pool <? g then g else generation_max pool))
          (wrap64 (slots_free pool - 1)))
       (wrap64 (alloc_count pool + 1)))
    m2.

(** The one-slot pool of the generation-cycling test. *)
Definition single_pool : AnamPool :=
  default zeroed_pool (anam_pool_create demo_env (Some (mk_config 64 1 0))).

(** ** Geometry of a pool *)

Definition slot_addr (pool : AnamPool) (i : Z) : Z :=
  slots_base pool + i * slot_stride pool.

Definition is_slot (pool : AnamPool) (a : Z) : Prop :=
  exists i, 0 <= i < slot_count pool /\ a = slot_addr pool i.

(** The slots lie in the address range a handle can carry, are 8-aligned,
    and each stride has room for a header and the payload. *)
Definition layout (pool : AnamPool) : Prop :=
  0 < slot_count pool
  /\ 16 <= slots_base pool
  /\ slots_base pool mod 8 = 0
  /\ 0 < slot_size pool
  /\ slot_size pool + 16 <= slot_stride pool
  /\ slot_stride pool mod 8 = 0
  /\ slots_base pool + slot_count pool * slot_stride pool <= 2 ^ 48.

(** A link (the free-list head or the [next] field of a header) is null
    or carries the address of a slot. *)
Definition link_ok (pool : AnamPool) (h : Z) : Prop :=
  h = ANAM_NULL \/ is_slot pool (decode_addr h).

Definition pool_sane (pool : AnamPool) : Prop :=
  layout pool
  /\ 0 <= free_head pool < 2 ^ 64
  /\ link_ok pool (free_head pool)
  /\ (forall a, is_slot pool a -> link_ok pool (header_next pool a)).

(** The free list from the link [h] is the list of slot addresses [F]:
    every link is the FREE handle of the next slot, carrying the
    generation of that slot's header. *)
Fixpoint free_chain (pool : AnamPool) (h : Z) (F : list Z) : Prop :=
  match F with
  | [] => h = ANAM_NULL
  | a :: F' =>
    h = encode_handle (header_generation pool a) a ANAM_STATE_FREE
    /\ free_chain pool (header_next pool a) F'
  end.

Definition pool_inv (pool : AnamPool) (F : list Z) : Prop :=
  pool_sane pool
  /\ NoDup F
  /\ Forall (is_slot pool) F
  /\ free_chain pool (free_head pool) F
  /\ slots_free pool = Z.of_nat (List.length F).

(** Two memories agree outside the address range [lo, hi). *)
Definition same_outside (m m' : gmap Z Z) (lo hi : Z) : Prop :=
  forall x, x < lo \/ hi <= x -> load8 m' x = load8 m x.

(** Two pools with the same geometry and flags. *)
Definition same_geometry (p p' : AnamPool) : Prop :=
  slot_size p' = slot_size p
  /\ slot_stride p' = slot_stride p
  /\ slot_count p' = slot_count p
  /\ slots_base p' = slots_base p
  /\ zero_on_alloc p' = zero_on_alloc p
  /\ zero_on_release p' = zero_on_release p.

(** The platform assumption under which a creation is studied: the
    allocator returned a buffer, and the buffer with all its slots lies
    below 2^48, the range of the address field of a handle.  The bound is
    on the unrounded sizes, each rounding adding less than its
    alignment. *)
Definition create_fits (env : AllocEnv) (cfg : AnamPoolConfig) : Prop :=
  let al := create_alignment cfg in
  let mem := aligned_alloc env al (create_total cfg) in
  0 < cfg_slot_size cfg
  /\ 0 < cfg_slot_count cfg
  /\ 0 <= cfg_alignment cfg
  /\ 0 < mem
  /\ mem + 16 + al + (16 + cfg_slot_size cfg + 2 * al + 8) * cfg_slot_count cfg <= 2 ^ 48.

(** The slots with index [n] and above, in index order. *)
Definition slots_from (pool : AnamPool) (n : nat) : list Z :=
  map (fun i => slot_addr pool (Z.of_nat i)) (seq n (Z.to_nat (slot_count pool) - n)).

(** The state of the initialisation loop with the slots of index [n] and
    above pushed. *)
Definition init_pre (pool : AnamPool) (n : nat) : Prop :=
  layout pool
  /\ 0 <= free_head pool < 2 ^ 64
  /\ link_ok pool (free_head pool)
  /\ free_chain pool (free_head pool) (slots_from pool n)
  /\ (forall i, (n <= i)%nat -> Z.of_nat i < slot_count pool ->
       link_ok pool (header_next pool (slot_addr pool (Z.of_nat i)))
       /\ header_generation pool (slot_addr pool (Z.of_nat i)) = 0).

(** The addresses of all the slots of a pool, in index order. *)
Definition all_slots (pool : AnamPool) : list Z :=
  map (fun i => slot_addr pool (Z.of_nat i)) (seq 0 (Z.to_nat (slot_count pool))).

(** ** Runs of pool operations *)

Inductive op : Type :=
  | OpAlloc
  | OpRelease (h : Z)
  | OpGet (h : Z).

Definition step (pool : AnamPool) (o : op) : AnamPool :=
  match o with
  | OpAlloc => snd (anam_alloc pool)
  | OpRelease h => snd (anam_release pool h)
  | OpGet h => snd (anam_get pool h)
  end.

Definition run (pool : AnamPool) (ops : list op) : AnamPool :=
  fold_left step ops pool.

Definition mem_handle (h : Z) (l : list Z) : bool := existsb (Z.eqb h) l.




Definition remove_handle (h : Z) (l : list Z) : list Z :=
  List.filter (fun x => negb (x =? h)) l.

(** A run is disciplined when every release that the pool accepts is of a
    handle the caller holds: returned by an [anam_alloc] of the run and
    not released since ([held] collects them).  Releases that the pool
    refuses are allowed. *)
Fixpoint disciplined (pool : AnamPool) (held : list Z) (ops : list op) : bool :=
  match ops with
  | [] => true
  | OpAlloc :: rest =>
    let h := fst (anam_alloc pool) in
    disciplined (snd (anam_alloc pool))
      (if anam_is_null h then held else h :: held) rest
  | OpRelease h :: rest =>
    if mem_handle h held
    then disciplined (snd (anam_release pool h)) (remove_handle h held) rest
    else negb (fst (anam_release pool h))
         && disciplined (snd (anam_release pool h)) held rest
  | OpGet h :: rest => disciplined (snd (anam_get pool h)) held rest
  end.

(** The handles held at the end of a run. *)
Fixpoint held_after (pool : AnamPool) (held : list Z) (ops : list op) : list Z :=
  match ops with
  | [] => held
  | OpAlloc :: rest =>
    let h := fst (anam_alloc pool) in
    held_after (snd (anam_alloc pool))
      (if anam_is_null h then held else h :: held) rest
  | OpRelease h :: rest =>
    held_after (snd (anam_release pool h))
      (if mem_handle h held then remove_handle h held else held) rest
  | OpGet h :: rest => held_after (snd (anam_get pool h)) held rest
  end.

(** The counters of a pool balance: in [size_t] arithmetic,
    [alloc_count - release_count + slots_free = slot_count]. *)
Definition counters_inv (pool : AnamPool) : Prop :=
  0 <= alloc_count pool < 2 ^ 64
  /\ 0 <= release_count pool < 2 ^ 64
  /\ (alloc_count pool - release_count pool + slots_free pool - slot_count pool)
     mod 2 ^ 64 = 0.

(** The handles the caller holds are the live handles of distinct slots
    that are not on the free list. *)
Definition tracked (pool : AnamPool) (F : list Z) (held : list Z) : Prop :=
  pool_inv pool F
  /\ counters_inv pool
  /\ NoDup (map decode_addr held)
  /\ Forall (fun h => is_slot pool (decode_addr h)
                       /\ (decode_addr h ∉ F)
                       /\ authenticates pool h) held.



(** [n] rounds of allocate and release on a one-slot pool whose slot is at
    address [a], each release with the handle its allocation returns:
    generation [i] in round [i], starting from generation [g]. *)
Definition cycle_ops (a : Z) (g n : nat) : list op :=
  flat_map
    (fun i => [OpAlloc; OpRelease (encode_handle (Z.of_nat i) a ANAM_STATE_LIVE)])
    (seq g n).

(** The run that wraps the generation of the single slot: 65536 rounds,
    then one more release of the handle of round 0. *)
Definition wrap_trace : list op :=
  cycle_ops 4112 0 (Z.to_nat 65536)
  ++ [OpRelease (encode_handle 0 4112 ANAM_STATE_LIVE)].

(** ** Queue invariant *)

(** The handle [anam_alloc] gave for the slot at [a], as long as the slot
    has not been released. *)
Definition live_handle (pool : AnamPool) (a : Z) : Z :=
  encode_handle (header_generation pool a) a ANAM_STATE_LIVE.

(** [node->next] of the node at [a]. *)
Definition node_next (pool : AnamPool) (a : Z) : Z := load64 (heap pool) a.

(** The item stored in the node at [a]. *)
Definition node_item (q : AnamQueue) (a : Z) : list Z :=
  load_bytes (heap (pool q)) (node_data a) (Z.to_nat (item_size q)).

(** The nodes after [a] are [rest], linked by live handles, the last link
    being null. *)
Fixpoint node_chain (pool : AnamPool) (a : Z) (rest : list Z) : Prop :=
  match rest with
  | [] => node_next pool a = ANAM_NULL
  | b :: rest' => node_next pool a = live_handle pool b /\ node_chain pool b rest'
  end.

(** The quiescent states of a queue: [F] is the free list of the private
    pool, [d] the dummy node, [rest] the nodes behind it, oldest first, and
    [items] what they hold. *)
Definition queue_inv (q : AnamQueue) (F : list Z) (d : Z) (rest : list Z)
    (items : list (list Z)) : Prop :=
  pool_inv (pool q) F
  /\ Forall (is_slot (pool q)) (d :: rest)
  /\ NoDup (d :: rest ++ F)
  /\ Z.of_nat (List.length (d :: rest ++ F)) = slot_count (pool q)
  /\ slot_count (pool q) = capacity q + 1
  /\ 0 < item_size q
  /\ item_size q + 8 <= slot_size (pool q)
  /\ head q = live_handle (pool q) d
  /\ tail q = live_handle (pool q) (List.last rest d)
  /\ node_chain (pool q) d rest
  /\ Forall2 (fun a it => node_item q a = it) rest items
  /\ length q = Z.of_nat (List.length rest).

(** A byte string as a caller hands it to [anam_queue_push]. *)
Definition is_item (q : AnamQueue) (data : list Z) : Prop :=
  Z.of_nat (List.length data) = item_size q
  /\ Forall (fun b => 0 <= b < 256) data.

(** The platform assumption for a queue creation. *)
Definition queue_fits (env : AllocEnv) (cfg : AnamQueueConfig) : Prop :=
  0 < cfg_item_size cfg < 2 ^ 48
  /\ 0 < cfg_capacity cfg < 2 ^ 48
  /\ create_fits env (queue_pool_config cfg).

(** The pool after [alloc_node] took the slot at [c] off the free list. *)
Definition node_pool (p : AnamPool) (c : Z) (data : option (list Z)) (isz : Z)
  : AnamPool :=
  let pa := allocated p c in
  let m1 := store64 (heap pa) c ANAM_NULL in
  set_heap pa
    (match data with
     | Some bytes => memcpy m1 (node_data c) bytes isz
     | None => m1
     end).

(** The pool after the node at [a] was linked to the handle [h]. *)
Definition linked_pool (p : AnamPool) (a h : Z) : AnamPool :=
  set_heap p (store64 (heap p) a h).

(** The queue after a successful push that took the slot at [c] and linked
    it behind the node at [a]. *)
Definition pushed (q : AnamQueue) (c : Z) (data : list Z) (a : Z) : AnamQueue :=
  let h := live_handle (pool q) c in
  let p := linked_pool (node_pool (pool q) c (Some data) (item_size q)) a h in
  set_push_count
    (set_length (set_tail (set_pool q p) h) (wrap64 (length q + 1)))
    (wrap64 (push_count q + 1)).

(** The queue after a successful pop, [d] being the old dummy and [b] the
    node that becomes the dummy. *)
Definition popped (q : AnamQueue) (d b : Z) : AnamQueue :=
  set_pop_count
    (set_length
       (set_pool (set_head q (live_handle (pool q) b)) (released (pool q) d))
       (wrap64 (length q - 1)))
    (wrap64 (pop_count q + 1)).

(** ** Runs of queue operations *)

(** Pushing the items of a list one after the other: the handles returned
    and the queue afterwards; [None] when a push runs out of fuel. *)
Fixpoint push_all (fuel : nat) (q : AnamQueue) (ds : list (list Z))
  : option (list Z * AnamQueue) :=
  match ds with
  | [] => Some ([], q)
  | data :: rest =>
    match anam_queue_push fuel q (Some data) with
    | None => None
    | Some (h, q1) =>
      match push_all fuel q1 rest with
      | None => None
      | Some (hs, q2) => Some (h :: hs, q2)
      end
    end
  end.

(** [n] pops into a buffer: the results and the buffer contents. *)
Fixpoint pop_n (fuel n : nat) (q : AnamQueue)
  : option (list (bool * option (list Z)) * AnamQueue) :=
  match n with
  | O => Some ([], q)
  | S k =>
    match anam_queue_pop fuel q true with
    | None => None
    | Some (b, out, q1) =>
      match pop_n fuel k q1 with
      | None => None
      | Some (rs, q2) => Some ((b, out) :: rs, q2)
      end
    end
  end.

Inductive qop : Type :=
  | QPush (data : list Z)
  | QPop (data_out : bool).

Definition qstep (fuel : nat) (q : AnamQueue) (o : qop) : option AnamQueue :=
  match o with
  | QPush data =>
    match anam_queue_push fuel q (Some data) with
    | Some (_, q') => Some q'
    | None => None
    end
  | QPop data_out =>
    match anam_queue_pop fuel q data_out with
    | Some (_, _, q') => Some q'
    | None => None
    end
  end.

Fixpoint qrun (fuel : nat) (q : AnamQueue) (ops : list qop) : option AnamQueue :=
  match ops with
  | [] => Some q
  | o :: rest =>
    match qstep fuel q o with
    | Some q' => qrun fuel q' rest
    | None => None
    end
  end.

(** The pushes of a run hand over items of the queue's item size. *)
Definition qop_ok (isz : Z) (o : qop) : Prop :=
  match o with
  | QPush data =>
    Z.of_nat (List.length data) = isz /\ Forall (fun b => 0 <= b < 256) data
  | QPop _ => True
  end.

(** The items a queue holds, oldest first: the payloads of the nodes
    linked behind the node at [a], followed for at most [fuel] links. *)
Fixpoint chain_items (fuel : nat) (q : AnamQueue) (a : Z) : list (list Z) :=
  match fuel with
  | O => []
  | S k =>
    let next_h := load64 (heap (pool q)) a in
    if anam_is_null next_h then []
    else node_item q (decode_addr next_h) :: chain_items k q (decode_addr next_h)
  end.

Definition queue_contents (q : AnamQueue) : list (list Z) :=
  chain_items (Z.to_nat (slot_count (pool q))) q (decode_addr (head q)).

(** The bytes of an [n]-byte little-endian integer, and back. *)
Fixpoint le_bytes (n : nat) (v : Z) : list Z :=
  match n with
  | O => []
  | S k => v mod 256 :: le_bytes k (v / 256)
  end.

Fixpoint le_value (l : list Z) : Z :=
  match l with
  | [] => 0
  | b :: rest => b + 256 * le_value rest
  end.

(** An [int] as the queue test stores it. *)
Definition int_bytes (v : Z) : list Z := le_bytes 4 v.

(** The queue of the FIFO test: a hundred [int]s. *)
Definition fifo_config : AnamQueueConfig :=
  {| cfg_item_size := 4; cfg_capacity := 100 |}.

Definition fifo_queue : AnamQueue :=
  default (queue_struct fifo_config zeroed_pool)
          (anam_queue_create true demo_env (Some fifo_config)).

(** A queue of two [int]s. *)
Definition pair_config : AnamQueueConfig :=
  {| cfg_item_size := 4; cfg_capacity := 2 |}.

Definition pair_queue : AnamQueue :=
  default (queue_struct pair_config zeroed_pool)
          (anam_queue_create true demo_env (Some pair_config)).

(** The integers [0 .. n-1]. *)
Definition ints (n : nat) : list Z := map Z.of_nat (seq 0 n).

(** ** More runs of pool operations *)

(** [n] calls of [anam_alloc] in a row: the handles in the order
    returned, and the pool afterwards. *)
Fixpoint alloc_n (n : nat) (pool : AnamPool) : list Z * AnamPool :=
  match n with
  | O => ([], pool)
  | S k =>
    let '(h, p1) := anam_alloc pool in
    let '(hs, p') := alloc_n k p1 in
    (h :: hs, p')
  end.

(** The handles that the calls of [anam_alloc] in a run return, in
    order, null handles included. *)
Fixpoint issued_by (pool : AnamPool) (ops : list op) : list Z :=
  match ops with
  | [] => []
  | OpAlloc :: rest => fst (anam_alloc pool) :: issued_by (snd (anam_alloc pool)) rest
  | o :: rest => issued_by (step pool o) rest
  end.

(** A run is clean when every handle passed to [anam_release] or
    [anam_get] is held: returned by an [anam_alloc] of the run and not
    released since. *)
Fixpoint clean (pool : AnamPool) (held : list Z) (ops : list op) : bool :=
  match ops with
  | [] => true
  | OpAlloc :: rest =>
    let h := fst (anam_alloc pool) in
    clean (snd (anam_alloc pool)) (if anam_is_null h then held else h :: held) rest
  | OpRelease h :: rest =>
    mem_handle h held && clean (snd (anam_release pool h)) (remove_handle h held) rest
  | OpGet h :: rest =>
    mem_handle h held && clean (snd (anam_get pool h)) held rest
  end.

(** Whether every [anam_release] of a run returns true and every
    [anam_get] a pointer. *)
Fixpoint all_accepted (pool : AnamPool) (ops : list op) : bool :=
  match ops with
  | [] => true
  | OpAlloc :: rest => all_accepted (snd (anam_alloc pool)) rest
  | OpRelease h :: rest =>
    fst (anam_release pool h) && all_accepted (snd (anam_release pool h)) rest
  | OpGet h :: rest =>
    negb (fst (anam_get pool h) =? 0) && all_accepted (snd (anam_get pool h)) rest
  end.

(** The payload of the slot at [a]: its [slot_size] bytes. *)
Definition payload (pool : AnamPool) (a : Z) : list Z :=
  load_bytes (heap pool) a (Z.to_nat (slot_size pool)).

(** A configuration with both zeroing flags set, and the pool of four
    32-byte slots created from it. *)
Definition scrub_config : AnamPoolConfig :=
  {| cfg_slot_size := 32; cfg_slot_count := 4; cfg_alignment := 16;
     cfg_zero_on_alloc := true; cfg_zero_on_release := true |}.

Definition scrub_pool : AnamPool :=
  default zeroed_pool (anam_pool_create demo_env (Some scrub_config)).

(** ** What [anam_foreach] visits *)

(** The visits that [anam_foreach] makes when the slots to visit are [l],
    in order: up to and including the first one the visitor rejects. *)
Fixpoint visit_until (fn : Z -> Z -> bool) (l : list (Z * Z)) : list (Z * Z) :=
  match l with
  | [] => []
  | (h, u) :: rest => if fn h u then (h, u) :: visit_until fn rest else [(h, u)]
  end.

(** The slots, in index order, that a held handle refers to. *)
Definition held_slots (pool : AnamPool) (held : list Z) : list Z :=
  List.filter (fun a => mem_handle a (map decode_addr held)) (all_slots pool).

(** Every slot is on the free list [F] or referred to by a held handle,
    and the held handles are the live handles of their slots. *)
Definition accounted (pool : AnamPool) (F : list Z) (held : list Z) : Prop :=
  tracked pool F held
  /\ (forall a, is_slot pool a -> a ∈ F \/ In a (map decode_addr held))
  /\ Forall (fun h => live_handle pool (decode_addr h) = h) held.

(** ** Observations on runs of queue operations *)

(** What a run of queue operations returns, call by call: for a push
    whether the handle returned is non-null, for a pop the flag returned
    and the content of the caller's buffer. *)
Fixpoint qtrace (fuel : nat) (q : AnamQueue) (ops : list qop)
  : option (list (bool * option (list Z)) * AnamQueue) :=
  match ops with
  | [] => Some ([], q)
  | QPush data :: rest =>
    match anam_queue_push fuel q (Some data) with
    | None => None
    | Some (h, q1) =>
      match qtrace fuel q1 rest with
      | None => None
      | Some (rs, q2) => Some ((negb (anam_is_null h), None) :: rs, q2)
      end
    end
  | QPop data_out :: rest =>
    match anam_queue_pop fuel q data_out with
    | None => None
    | Some (b, out, q1) =>
      match qtrace fuel q1 rest with
      | None => None
      | Some (rs, q2) => Some ((b, out) :: rs, q2)
      end
    end
  end.

(** The bounded first-in first-out list that the queue stands for: what
    the same calls return on a list of at most [cap] items, and the list
    they leave. *)
Fixpoint fifo_model (cap : nat) (items : list (list Z)) (ops : list qop)
  : list (bool * option (list Z)) :=
  match ops with
  | [] => []
  | QPush data :: rest =>
    if (List.length items <? cap)%nat
    then (true, None) :: fifo_model cap (items ++ [data]) rest
    else (false, None) :: fifo_model cap items rest
  | QPop data_out :: rest =>
    match items with
    | [] => (false, None) :: fifo_model cap [] rest
    | it :: items' =>
      (true, if data_out then Some it else None) :: fifo_model cap items' rest
    end
  end.

Fixpoint fifo_state (cap : nat) (items : list (list Z)) (ops : list qop)
  : list (list Z) :=
  match ops with
  | [] => items
  | QPush data :: rest =>
    if (List.length items <? cap)%nat
    then fifo_state cap (items ++ [data]) rest
    else fifo_state cap items rest
  | QPop _ :: rest =>
    match items with
    | [] => fifo_state cap [] rest
    | _ :: items' => fifo_state cap items' rest
    end
  end.

Definition is_push (o : qop) : bool :=
  match o with QPush _ => true | QPop _ => false end.

(** The number of pushes and of pops among the calls of a run. *)
Definition pushes (ops : list qop) : Z :=
  Z.of_nat (List.length (List.filter is_push ops)).

Definition pops (ops : list qop) : Z :=
  Z.of_nat (List.length (List.filter (fun o => negb (is_push o)) ops)).

(** ** The slot region *)

(** The slot region of a pool, as an address range: from the payload
    address of slot zero up to, and not including, [slot_count] strides
    further. *)
Definition in_slot_region (pool : AnamPool) (a : Z) : Prop :=
  slots_base pool <= a < slots_base pool + slot_count pool * slot_stride pool.

(** The slot region does not start at the null address and its end is
    representable: the pointer arithmetic of [in_pool] does not wrap. *)
Definition region_fits (pool : AnamPool) : Prop :=
  0 < slots_base pool
  /\ 0 <= slot_count pool * slot_stride pool
  /\ slots_base pool + slot_count pool * slot_stride pool < 2 ^ 64.

(** A handle is genuine for a pool: it is not null, its state tag is
    LIVE, its address lies in the slot region, and the generation it
    claims is the one in the header in front of that address. *)
Definition genuine (pool : AnamPool) (h : Z) : Prop :=
  h <> ANAM_NULL
  /\ anam_state h = ANAM_STATE_LIVE
  /\ in_slot_region pool (decode_addr h)
  /\ header_generation pool (decode_addr h) = anam_generation h.

(** ** Scenarios *)

(** The loop of the generation-cycling test: [n] times allocate, keep the
    handle, release it. *)
Fixpoint cycle_loop (n : nat) (pool : AnamPool) : list Z * AnamPool :=
  match n with
  | O => ([], pool)
  | S k =>
    let '(h, p1) := anam_alloc pool in
    let p2 := snd (anam_release p1 h) in
    let '(hs, p') := cycle_loop k p2 in
    (h :: hs, p')
  end.

(** [anam_validate] on each handle of a list, one call after the other. *)
Fixpoint validate_all (pool : AnamPool) (hs : list Z) : list bool * AnamPool :=
  match hs with
  | [] => ([], pool)
  | h :: rest =>
    let '(b, p1) := anam_validate pool h in
    let '(bs, p') := validate_all p1 rest in
    (b :: bs, p')
  end.

(** ** Proof automation *)

(** Arithmetic and memory primitives are reasoned about through their
    lemmas; they are not unfolded by simplification. *)
Arguments wrap64 : simpl never.
Arguments wrap16 : simpl never.
Arguments wrap8 : simpl never.
Arguments encode_handle : simpl never.
Arguments decode_addr : simpl never.
Arguments decode_gen : simpl never.
Arguments anam_generation : simpl never.
Arguments anam_state : simpl never.
Arguments anam_is_null : simpl never.
Arguments load8 : simpl never.
Arguments store8 : simpl never.
Arguments load16 : simpl never.
Arguments load64 : simpl never.
Arguments store16 : simpl never.
Arguments store64 : simpl never.
Arguments memset : simpl never.
Arguments memcpy : simpl never.
Arguments get_header : simpl never.
Arguments next_of : simpl never.
Arguments generation_of : simpl never.
Arguments node_data : simpl never.
Arguments slot_from_index : simpl never.
Arguments pool_end : simpl never.
Arguments in_pool : simpl never.
Arguments align_up : simpl never.
Arguments demo_pool : simpl never.
Arguments single_pool : simpl never.
Arguments scrub_pool : simpl never.


Ltac queue_simpl :=
  cbn [item_size capacity node_size pool head tail length push_count pop_count
       push_fails pop_fails aba_prevented set_pool set_head set_tail set_length
       set_push_count set_pop_count set_push_fails set_pop_fails
       set_aba_prevented bump_aba queue_struct fst snd negb] in *.

Ltac split_conj := repeat match goal with |- _ /\ _ => split end.

Ltac pool_simpl :=
  cbn [slot_size slot_stride slot_stride_mask slot_count alignment
       zero_on_alloc zero_on_release memory slots_base free_head slots_free
       alloc_count release_count anamnesis_count generation_max heap
       set_free_head set_slots_free set_alloc_count set_release_count
       set_anamnesis_count set_generation_max set_heap bump_anamnesis
       fst snd negb andb orb] in *.

(* ================================================================== *)
(* ================================================================== *)
(** * Properties *)


(* ================================================================== *)
(** ** Machine integers and bits *)

Lemma wrap64_small x : 0 <= x < 2 ^ 64 -> wrap64 x = x.
Proof. intros H. unfold wrap64. apply Z.mod_small. exact H. Qed.

Lemma wrap16_small x : 0 <= x < 2 ^ 16 -> wrap16 x = x.
Proof. intros H. unfold wrap16. apply Z.mod_small. exact H. Qed.

Lemma wrap8_small x : 0 <= x < 2 ^ 8 -> wrap8 x = x.
Proof. intros H. unfold wrap8. apply Z.mod_small. exact H. Qed.

Lemma wrap64_range x : 0 <= wrap64 x < 2 ^ 64.
Proof. unfold wrap64. apply Z.mod_pos_bound. lia. Qed.

Lemma wrap16_range x : 0 <= wrap16 x < 2 ^ 16.
Proof. unfold wrap16. apply Z.mod_pos_bound. lia. Qed.

Lemma testbit_above x n i :
  0 <= x < 2 ^ n -> 0 <= n <= i -> Z.testbit x i = false.
Proof.
  intros Hx Hn.
  rewrite <- (Z.mod_small x (2 ^ n)) by exact Hx.
  apply Z.mod_pow2_bits_high. exact Hn.
Qed.

Lemma testbit_below_mod8 a i :
  a mod 8 = 0 -> i < 3 -> Z.testbit a i = false.
Proof.
  intros Ha Hi.
  rewrite <- (Z.mod_pow2_bits_low a 3 i) by exact Hi.
  change (2 ^ 3) with 8. rewrite Ha. apply Z.bits_0.
Qed.

Lemma testbit_ADDR_MASK i :
  Z.testbit ANAM_ADDR_MASK i = (3 <=? i) && (i <? 48).
Proof.
  change ANAM_ADDR_MASK with (Z.shiftl (Z.ones 45) 3).
  destruct (Z.ltb_spec i 0) as [Hneg|Hpos].
  - rewrite Z.testbit_neg_r by exact Hneg.
    destruct (Z.leb_spec 3 i); [lia | reflexivity].
  - rewrite Z.shiftl_spec by exact Hpos.
    rewrite Z.testbit_ones by lia.
    destruct (Z.leb_spec 3 i), (Z.leb_spec 0 (i - 3)), (Z.ltb_spec (i - 3) 45),
      (Z.ltb_spec i 48); simpl; try reflexivity; lia.
Qed.

Lemma testbit_STATE_MASK i :
  Z.testbit ANAM_STATE_MASK i = (0 <=? i) && (i <? 3).
Proof.
  change ANAM_STATE_MASK with (Z.ones 3). apply Z.testbit_ones. lia.
Qed.

(** The three fields of a handle are disjoint bit ranges. *)
Lemma testbit_decode_addr h i :
  Z.testbit (decode_addr h) i = Z.testbit h i && ((3 <=? i) && (i <? 48)).
Proof. unfold decode_addr. rewrite Z.land_spec, testbit_ADDR_MASK. reflexivity. Qed.

Lemma decode_addr_range h : 0 <= h -> 0 <= decode_addr h < 2 ^ 48.
Proof.
  intros Hh. unfold decode_addr. split.
  - apply Z.land_nonneg. left. exact Hh.
  - fold (decode_addr h).
    destruct (Z.lt_ge_cases (decode_addr h) (2 ^ 48)) as [Hlt|Hge]; [exact Hlt|].
    exfalso.
    assert (Hpos : 0 < decode_addr h) by lia.
    pose proof (Z.bit_log2 _ Hpos) as Hb.
    rewrite testbit_decode_addr in Hb.
    assert (48 <= Z.log2 (decode_addr h)) by (apply Z.log2_le_pow2; lia).
    destruct (Z.ltb_spec (Z.log2 (decode_addr h)) 48); [lia|].
    rewrite !andb_false_r in Hb. discriminate.
Qed.

Lemma decode_addr_mod8 h : decode_addr h mod 8 = 0.
Proof.
  change 8 with (2 ^ 3). rewrite <- Z.land_ones by lia.
  apply Z.bits_inj'. intros i Hi.
  rewrite Z.land_spec, testbit_decode_addr, Z.bits_0, Z.testbit_ones by lia.
  destruct (Z.leb_spec 3 i), (Z.ltb_spec i 3), (Z.leb_spec 0 i);
    rewrite ?andb_false_r; simpl; try reflexivity; lia.
Qed.

Lemma decode_addr_fixed a :
  0 <= a < 2 ^ 48 -> a mod 8 = 0 -> decode_addr a = a.
Proof.
  intros Ha Hm. apply Z.bits_inj'. intros i Hi.
  rewrite testbit_decode_addr.
  destruct (Z.leb_spec 3 i) as [H3|H3], (Z.ltb_spec i 48) as [H48|H48]; simpl;
    rewrite ?andb_true_r, ?andb_false_r; try reflexivity.
  - symmetry. apply (testbit_above a 48); lia.
  - symmetry. apply testbit_below_mod8; [exact Hm | lia].
  - symmetry. apply testbit_below_mod8; [exact Hm | lia].
Qed.

Lemma encode_handle_plain g a s :
  0 <= g < 2 ^ 16 -> 0 <= a < 2 ^ 48 -> a mod 8 = 0 -> 0 <= s < 8 ->
  encode_handle g a s = Z.lor (Z.lor (Z.shiftl g 48) a) s.
Proof.
  intros Hg Ha Hm Hs. unfold encode_handle.
  rewrite (wrap16_small g) by exact Hg.
  rewrite (wrap64_small a) by lia.
  rewrite (wrap8_small s) by lia.
  rewrite wrap64_small by (rewrite Z.shiftl_mul_pow2; lia).
  fold (decode_addr a). rewrite decode_addr_fixed by assumption.
  change ANAM_STATE_MASK with (Z.ones 3). rewrite Z.land_ones by lia.
  change (2 ^ 3) with 8. rewrite Z.mod_small by exact Hs. reflexivity.
Qed.

Lemma testbit_encode g a s i :
  0 <= g < 2 ^ 16 -> 0 <= a < 2 ^ 48 -> a mod 8 = 0 -> 0 <= s < 8 -> 0 <= i ->
  Z.testbit (encode_handle g a s) i =
  if i <? 3 then Z.testbit s i
  else if i <? 48 then Z.testbit a i
  else Z.testbit g (i - 48).
Proof.
  intros Hg Ha Hm Hs Hi.
  rewrite encode_handle_plain by assumption.
  rewrite !Z.lor_spec, Z.shiftl_spec by exact Hi.
  destruct (Z.ltb_spec i 3) as [H3|H3].
  - rewrite Z.testbit_neg_r by lia.
    rewrite (testbit_below_mod8 a i) by assumption. reflexivity.
  - rewrite (testbit_above s 3 i) by lia.
    destruct (Z.ltb_spec i 48) as [H48|H48].
    + rewrite Z.testbit_neg_r by lia. rewrite orb_false_r. reflexivity.
    + rewrite (testbit_above a 48 i) by lia. rewrite !orb_false_r. reflexivity.
Qed.

Lemma encode_handle_range g a s :
  0 <= g < 2 ^ 16 -> 0 <= a < 2 ^ 48 -> a mod 8 = 0 -> 0 <= s < 8 ->
  0 <= encode_handle g a s < 2 ^ 64.
Proof.
  intros Hg Ha Hm Hs.
  rewrite encode_handle_plain by assumption.
  assert (H0 : 0 <= Z.lor (Z.lor (Z.shiftl g 48) a) s).
  { rewrite !Z.lor_nonneg. rewrite Z.shiftl_nonneg. lia. }
  split; [exact H0|].
  destruct (Z.eq_dec (Z.lor (Z.lor (Z.shiftl g 48) a) s) 0) as [->|Hne]; [lia|].
  apply Z.log2_lt_pow2; [lia|].
  rewrite !Z.log2_lor by (rewrite ?Z.lor_nonneg, ?Z.shiftl_nonneg; lia).
  assert (Z.log2 (Z.shiftl g 48) < 64).
  { destruct (Z.eq_dec g 0) as [->|Hg0]; [rewrite Z.shiftl_0_l; simpl; lia|].
    rewrite Z.log2_shiftl by lia.
    assert (Z.log2 g < 16) by (apply Z.log2_lt_pow2; lia). lia. }
  assert (Z.log2 a < 64).
  { destruct (Z.eq_dec a 0) as [->|Ha0]; [simpl; lia|].
    assert (Z.log2 a < 48) by (apply Z.log2_lt_pow2; lia). lia. }
  assert (Z.log2 s < 64).
  { destruct (Z.eq_dec s 0) as [->|Hs0]; [simpl; lia|].
    assert (Z.log2 s < 3) by (apply Z.log2_lt_pow2; lia). lia. }
  lia.
Qed.

Lemma decode_addr_encode g a s :
  0 <= g < 2 ^ 16 -> 0 <= a < 2 ^ 48 -> a mod 8 = 0 -> 0 <= s < 8 ->
  decode_addr (encode_handle g a s) = a.
Proof.
  intros Hg Ha Hm Hs. apply Z.bits_inj'. intros i Hi.
  rewrite testbit_decode_addr, testbit_encode by assumption.
  destruct (Z.ltb_spec i 3), (Z.leb_spec 3 i), (Z.ltb_spec i 48); simpl;
    rewrite ?andb_true_r, ?andb_false_r; try reflexivity; try lia.
  - symmetry. apply testbit_below_mod8; assumption.
  - symmetry. apply (testbit_above a 48); lia.
Qed.

Lemma decode_gen_encode g a s :
  0 <= g < 2 ^ 16 -> 0 <= a < 2 ^ 48 -> a mod 8 = 0 -> 0 <= s < 8 ->
  decode_gen (encode_handle g a s) = g.
Proof.
  intros Hg Ha Hm Hs. unfold decode_gen.
  assert (E : Z.shiftr (encode_handle g a s) 48 = g).
  { apply Z.bits_inj'. intros i Hi.
    rewrite Z.shiftr_spec, testbit_encode by (assumption || lia).
    destruct (Z.ltb_spec (i + 48) 3), (Z.ltb_spec (i + 48) 48); try lia.
    f_equal. lia. }
  rewrite E. apply wrap16_small. exact Hg.
Qed.

Lemma anam_state_encode g a s :
  0 <= g < 2 ^ 16 -> 0 <= a < 2 ^ 48 -> a mod 8 = 0 -> 0 <= s < 8 ->
  anam_state (encode_handle g a s) = s.
Proof.
  intros Hg Ha Hm Hs. unfold anam_state.
  assert (E : Z.land (encode_handle g a s) 7 = s).
  { apply Z.bits_inj'. intros i Hi.
    rewrite Z.land_spec, testbit_encode by assumption.
    change 7 with ANAM_STATE_MASK. rewrite testbit_STATE_MASK.
    destruct (Z.ltb_spec i 3), (Z.leb_spec 0 i); simpl;
      rewrite ?andb_true_r, ?andb_false_r; try reflexivity; try lia.
    symmetry. apply (testbit_above s 3); lia. }
  rewrite E. apply wrap8_small. lia.
Qed.

Lemma encode_handle_nonnull g a s :
  0 <= g < 2 ^ 16 -> 0 <= a < 2 ^ 48 -> a mod 8 = 0 -> 0 <= s < 8 ->
  a <> 0 \/ s <> 0 -> anam_is_null (encode_handle g a s) = false.
Proof.
  intros Hg Ha Hm Hs Hne. unfold anam_is_null, ANAM_NULL.
  apply Z.eqb_neq. intros E.
  destruct Hne as [Hne|Hne]; apply Hne.
  - rewrite <- (decode_addr_encode g a s) by assumption. rewrite E. reflexivity.
  - rewrite <- (anam_state_encode g a s) by assumption. rewrite E. reflexivity.
Qed.

(** Re-encoding the fields of a live handle gives the handle back; this is
    what the queue does when it swings [head] and [tail]. *)
Lemma reencode_live g a :
  0 <= g < 2 ^ 16 -> 0 <= a < 2 ^ 48 -> a mod 8 = 0 ->
  let h := encode_handle g a ANAM_STATE_LIVE in
  encode_handle (decode_gen h) (decode_addr h) ANAM_STATE_LIVE = h.
Proof.
  intros Hg Ha Hm h. subst h.
  rewrite decode_gen_encode, decode_addr_encode by (assumption || (unfold ANAM_STATE_LIVE; lia)).
  reflexivity.
Qed.

(* ================================================================== *)
(** ** Handle encoding *)

(** C9.  Encoding a 16-bit generation, an 8-aligned address below 2^48 and
    one of the four state tags, then decoding, gives back the generation
    (through [anam_generation] and through [decode_gen]), the address and
    the state; and the encoding of generation 0, the null address and FREE
    is the all-zero handle [ANAM_NULL], while any encoding of a non-null
    address is different from [ANAM_NULL]. *)
Theorem handle_encoding_roundtrip (g a s : Z) :
  0 <= g < 2 ^ 16 ->
  0 <= a < 2 ^ 48 -> a mod 8 = 0 ->
  s = ANAM_STATE_FREE \/ s = ANAM_STATE_LIVE \/
  s = ANAM_STATE_QUARANTINE \/ s = ANAM_STATE_LOCKED ->
  (anam_generation (encode_handle g a s) = g
   /\ decode_gen (encode_handle g a s) = g
   /\ decode_addr (encode_handle g a s) = a
   /\ anam_state (encode_handle g a s) = s)
  /\ (encode_handle 0 0 ANAM_STATE_FREE = ANAM_NULL
      /\ anam_is_null (encode_handle 0 0 ANAM_STATE_FREE) = true)
  /\ (a <> 0 -> anam_is_null (encode_handle g a s) = false).
Proof.
  intros Hg Ha Hm Hs.
  assert (Hs' : 0 <= s < 8).
  { unfold ANAM_STATE_FREE, ANAM_STATE_LIVE, ANAM_STATE_QUARANTINE, ANAM_STATE_LOCKED in Hs.
    lia. }
  split; [|split].
  - split; [|split; [|split]].
    + apply decode_gen_encode; assumption.
    + apply decode_gen_encode; assumption.
    + apply decode_addr_encode; assumption.
    + apply anam_state_encode; assumption.
  - split; reflexivity.
  - intros Hne. apply encode_handle_nonnull; auto.
Qed.

Lemma handle_encoding_roundtrip_witness :
  (anam_generation (encode_handle 999 4112 ANAM_STATE_LIVE) = 999
   /\ decode_gen (encode_handle 999 4112 ANAM_STATE_LIVE) = 999
   /\ decode_addr (encode_handle 999 4112 ANAM_STATE_LIVE) = 4112
   /\ anam_state (encode_handle 999 4112 ANAM_STATE_LIVE) = ANAM_STATE_LIVE)
  /\ (encode_handle 0 0 ANAM_STATE_FREE = ANAM_NULL
      /\ anam_is_null (encode_handle 0 0 ANAM_STATE_FREE) = true)
  /\ (4112 <> 0 -> anam_is_null (encode_handle 999 4112 ANAM_STATE_LIVE) = false).
Proof.
  apply (handle_encoding_roundtrip 999 4112 ANAM_STATE_LIVE).
  - lia.
  - lia.
  - reflexivity.
  - right. left. reflexivity.
Defined.

(* ================================================================== *)
(** ** Pool creation *)

(** The test [(a & (a - 1)) == 0] recognises the powers of two among the
    non-zero [size_t] values. *)
Lemma land_pred_pow2 a :
  0 < a < 2 ^ 64 -> (Z.land a (wrap64 (a - 1)) = 0 <-> is_pow2 a).
Proof.
  intros Ha. rewrite wrap64_small by lia. split.
  - intros Hl. exists (Z.log2 a). split; [apply Z.log2_nonneg|].
    destruct (Z.log2_spec a) as [Hlo Hhi]; [lia|].
    destruct (Z.eq_dec a (2 ^ Z.log2 a)) as [E|NE]; [exact E|]. exfalso.
    assert (Hk : Z.log2 (a - 1) = Z.log2 a).
    { apply Z.log2_unique; [apply Z.log2_nonneg|]. rewrite Z.pow_succ_r in Hhi by apply Z.log2_nonneg.
      rewrite Z.pow_succ_r by apply Z.log2_nonneg. lia. }
    assert (Hb1 : Z.testbit a (Z.log2 a) = true) by (apply Z.bit_log2; lia).
    assert (Hb2 : Z.testbit (a - 1) (Z.log2 a) = true).
    { rewrite <- Hk. apply Z.bit_log2.
      assert (0 < 2 ^ Z.log2 a) by (apply Z.pow_pos_nonneg; [lia|apply Z.log2_nonneg]). lia. }
    assert (Hb : Z.testbit (Z.land a (a - 1)) (Z.log2 a) = true).
    { rewrite Z.land_spec, Hb1, Hb2. reflexivity. }
    rewrite Hl, Z.bits_0 in Hb. discriminate.
  - intros [k [Hk ->]].
    replace (2 ^ k - 1) with (Z.ones k) by (rewrite Z.ones_equiv; lia).
    rewrite Z.land_ones by exact Hk. apply Z.mod_same.
    apply Z.pow_nonzero; lia.
Qed.

Lemma create_alignment_zero cfg :
  cfg_alignment cfg = 0 -> create_alignment cfg = 8.
Proof. intros H. unfold create_alignment. rewrite H. reflexivity. Qed.

Lemma create_alignment_nonzero cfg :
  cfg_alignment cfg <> 0 -> create_alignment cfg = cfg_alignment cfg.
Proof.
  intros H. unfold create_alignment.
  destruct (Z.eqb_spec (cfg_alignment cfg) 0); [contradiction | reflexivity].
Qed.

Lemma is_pow2_8 : is_pow2 8.
Proof. exists 3. split; [lia | reflexivity]. Qed.

Lemma not_is_pow2_0 : ~ is_pow2 0.
Proof.
  intros [k [Hk E]].
  assert (0 < 2 ^ k) by (apply Z.pow_pos_nonneg; lia). lia.
Qed.

(** C8, as the code has it.  [anam_pool_create] returns null exactly when
    the slot size is zero, the slot count is zero, the alignment is
    non-zero and not a power of two, the alignment is non-zero and less
    than 8, or an allocation fails ([calloc] of the pool structure or the
    aligned allocation of the backing buffer).  An alignment of zero is
    not rejected: it selects the default alignment 8. *)
Theorem pool_create_null_iff (env : AllocEnv) (cfg : AnamPoolConfig) :
  0 <= cfg_alignment cfg < 2 ^ 64 ->
  anam_pool_create env (Some cfg) = None <->
  (cfg_slot_size cfg = 0
   \/ cfg_slot_count cfg = 0
   \/ (cfg_alignment cfg <> 0 /\ ~ is_pow2 (cfg_alignment cfg))
   \/ (cfg_alignment cfg <> 0 /\ cfg_alignment cfg < 8)
   \/ calloc_ok env = false
   \/ aligned_alloc env (create_alignment cfg) (create_total cfg) = 0).
Proof.
  intros Hal. unfold anam_pool_create.
  destruct (Z.eqb_spec (cfg_slot_size cfg) 0) as [Hs|Hs]; simpl.
  { split; [intros _; left; exact Hs | reflexivity]. }
  destruct (Z.eqb_spec (cfg_slot_count cfg) 0) as [Hc|Hc]; simpl.
  { split; [intros _; right; left; exact Hc | reflexivity]. }
  assert (Hpow : Z.land (create_alignment cfg) (wrap64 (create_alignment cfg - 1)) = 0
                 <-> (cfg_alignment cfg = 0 \/ is_pow2 (cfg_alignment cfg))).
  { destruct (Z.eq_dec (cfg_alignment cfg) 0) as [E|NE].
    - rewrite create_alignment_zero by exact E. split; [intros _; left; exact E | reflexivity].
    - rewrite create_alignment_nonzero by exact NE.
      rewrite land_pred_pow2 by lia. tauto. }
  destruct (Z.eqb_spec (Z.land (create_alignment cfg) (wrap64 (create_alignment cfg - 1))) 0)
    as [Hl|Hl]; simpl.
  2:{ split; [intros _ | reflexivity].
      right; right; left. split; intros H; apply Hl, Hpow; [left | right]; assumption. }
  apply Hpow in Hl.
  destruct (Z.ltb_spec (create_alignment cfg) 8) as [H8|H8].
  { split; [intros _ | reflexivity].
    right; right; right; left.
    destruct (Z.eq_dec (cfg_alignment cfg) 0) as [E|NE].
    - rewrite create_alignment_zero in H8 by exact E. lia.
    - rewrite create_alignment_nonzero in H8 by exact NE. split; assumption. }
  assert (Hge : cfg_alignment cfg <> 0 -> ~ cfg_alignment cfg < 8).
  { intros NE. rewrite create_alignment_nonzero in H8 by exact NE. lia. }
  destruct (calloc_ok env) eqn:Hcal; simpl.
  2:{ split; [intros _ | reflexivity]. do 4 right. left. reflexivity. }
  destruct (Z.eqb_spec (aligned_alloc env (create_alignment cfg) (create_total cfg)) 0)
    as [Hm|Hm].
  { split; [intros _ | reflexivity]. do 5 right. exact Hm. }
  split; [discriminate|].
  intros [H|[H|[[H1 H2]|[[H1 H2]|[H|H]]]]]; try contradiction; try discriminate.
  - destruct Hl as [Hl|Hl]; contradiction.
  - exfalso. apply (Hge H1). exact H2.
Qed.

Lemma pool_create_null_iff_witness :
  anam_pool_create demo_env (Some (mk_config 64 10 0)) = None <->
  (cfg_slot_size (mk_config 64 10 0) = 0
   \/ cfg_slot_count (mk_config 64 10 0) = 0
   \/ (cfg_alignment (mk_config 64 10 0) <> 0 /\ ~ is_pow2 (cfg_alignment (mk_config 64 10 0)))
   \/ (cfg_alignment (mk_config 64 10 0) <> 0 /\ cfg_alignment (mk_config 64 10 0) < 8)
   \/ calloc_ok demo_env = false
   \/ aligned_alloc demo_env (create_alignment (mk_config 64 10 0))
        (create_total (mk_config 64 10 0)) = 0).
Proof.
  apply (pool_create_null_iff demo_env (mk_config 64 10 0)). simpl. lia.
Defined.

(** C8, the counterexample: a configuration whose alignment is zero (not a
    power of two, and less than 8) is accepted when the allocator
    succeeds. *)
Lemma pool_create_accepts_zero_alignment :
  ~ is_pow2 (cfg_alignment (mk_config 64 10 0))
  /\ cfg_alignment (mk_config 64 10 0) < 8
  /\ anam_pool_create demo_env (Some (mk_config 64 10 0)) <> None.
Proof.
  split; [exact not_is_pow2_0|]. split; [simpl; lia|].
  vm_compute. discriminate.
Qed.

(* ================================================================== *)
(** ** Memory *)

Lemma load8_range m a : 0 <= load8 m a < 256.
Proof. unfold load8. apply Z.mod_pos_bound. lia. Qed.

Lemma load8_store8_same m a v : load8 (store8 m a v) a = v mod 256.
Proof.
  unfold load8, store8. rewrite lookup_insert_eq. simpl.
  apply Z.mod_mod. lia.
Qed.

Lemma load8_store8_other m a b v : a <> b -> load8 (store8 m a v) b = load8 m b.
Proof.
  intros Hne. unfold load8, store8. rewrite lookup_insert_ne by exact Hne. reflexivity.
Qed.

Lemma load8_store_le_other m a n v b :
  b < a \/ a + Z.of_nat n <= b -> load8 (store_le m a n v) b = load8 m b.
Proof.
  revert m a v. induction n as [|k IH]; intros m a v Hb; simpl; [reflexivity|].
  rewrite IH by lia. apply load8_store8_other. lia.
Qed.

Lemma load8_store_bytes_other m a l b :
  b < a \/ a + Z.of_nat (List.length l) <= b -> load8 (store_bytes m a l) b = load8 m b.
Proof.
  revert m a. induction l as [|x l IH]; intros m a Hb; simpl in *; [reflexivity|].
  rewrite IH by lia. apply load8_store8_other. lia.
Qed.

Lemma load_le_ext m1 m2 a n :
  (forall b, a <= b < a + Z.of_nat n -> load8 m1 b = load8 m2 b) ->
  load_le m1 a n = load_le m2 a n.
Proof.
  revert a. induction n as [|k IH]; intros a H; simpl; [reflexivity|].
  rewrite (H a) by lia. rewrite (IH (a + 1)); [reflexivity|].
  intros b Hb. apply H. lia.
Qed.

Lemma load_bytes_ext m1 m2 a n :
  (forall b, a <= b < a + Z.of_nat n -> load8 m1 b = load8 m2 b) ->
  load_bytes m1 a n = load_bytes m2 a n.
Proof.
  revert a. induction n as [|k IH]; intros a H; simpl; [reflexivity|].
  rewrite (H a) by lia. rewrite (IH (a + 1)); [reflexivity|].
  intros b Hb. apply H. lia.
Qed.

Lemma load_le_range m a n : 0 <= load_le m a n < 256 ^ Z.of_nat n.
Proof.
  revert a. induction n as [|k IH]; intros a.
  - simpl. lia.
  - rewrite Nat2Z.inj_succ, Z.pow_succ_r by lia. simpl.
    pose proof (load8_range m a). pose proof (IH (a + 1)). lia.
Qed.

Lemma load16_range m a : 0 <= load16 m a < 2 ^ 16.
Proof.
  unfold load16. pose proof (load_le_range m a 2) as H.
  change (256 ^ Z.of_nat 2) with (2 ^ 16) in H. exact H.
Qed.

Lemma load64_range m a : 0 <= load64 m a < 2 ^ 64.
Proof.
  unfold load64. pose proof (load_le_range m a 8) as H.
  change (256 ^ Z.of_nat 8) with (2 ^ 64) in H. exact H.
Qed.

Lemma load_le_store_le_same m a n v :
  load_le (store_le m a n v) a n = v mod 256 ^ Z.of_nat n.
Proof.
  revert m a v. induction n as [|k IH]; intros m a v.
  - simpl. symmetry. apply Z.mod_1_r.
  - rewrite Nat2Z.inj_succ, Z.pow_succ_r by lia. simpl.
    rewrite load8_store_le_other by lia.
    rewrite load8_store8_same, IH.
    rewrite (Z.rem_mul_r v 256 (256 ^ Z.of_nat k)); [reflexivity | lia |].
    apply Z.pow_pos_nonneg; lia.
Qed.

Lemma load_le_store_le_other m a n v b k :
  b + Z.of_nat k <= a \/ a + Z.of_nat n <= b ->
  load_le (store_le m a n v) b k = load_le m b k.
Proof.
  intros H. apply load_le_ext. intros c Hc. apply load8_store_le_other. lia.
Qed.

Lemma load_le_store_bytes_other m a l b k :
  b + Z.of_nat k <= a \/ a + Z.of_nat (List.length l) <= b ->
  load_le (store_bytes m a l) b k = load_le m b k.
Proof.
  intros H. apply load_le_ext. intros c Hc. apply load8_store_bytes_other. lia.
Qed.

Lemma load_bytes_store_le_other m a n v b k :
  b + Z.of_nat k <= a \/ a + Z.of_nat n <= b ->
  load_bytes (store_le m a n v) b k = load_bytes m b k.
Proof.
  intros H. apply load_bytes_ext. intros c Hc. apply load8_store_le_other. lia.
Qed.

Lemma load_bytes_store_bytes_other m a l b k :
  b + Z.of_nat k <= a \/ a + Z.of_nat (List.length l) <= b ->
  load_bytes (store_bytes m a l) b k = load_bytes m b k.
Proof.
  intros H. apply load_bytes_ext. intros c Hc. apply load8_store_bytes_other. lia.
Qed.

Lemma load_bytes_store_bytes_same m a l :
  load_bytes (store_bytes m a l) a (List.length l) = map (fun b => b mod 256) l.
Proof.
  revert m a. induction l as [|x l IH]; intros m a; simpl; [reflexivity|].
  rewrite load8_store_bytes_other by lia.
  rewrite load8_store8_same, IH. reflexivity.
Qed.

Lemma load_bytes_length m a n : List.length (load_bytes m a n) = n.
Proof. revert a. induction n as [|k IH]; intros a; simpl; [|rewrite IH]; reflexivity. Qed.

(** The typed accesses used by the pool and the queue. *)
Lemma load64_store64_same m a v : load64 (store64 m a v) a = wrap64 v.
Proof. unfold load64, store64, wrap64. rewrite load_le_store_le_same. reflexivity. Qed.

Lemma load16_store16_same m a v : load16 (store16 m a v) a = wrap16 v.
Proof. unfold load16, store16, wrap16. rewrite load_le_store_le_same. reflexivity. Qed.

Lemma load64_store64_other m a v b :
  b + 8 <= a \/ a + 8 <= b -> load64 (store64 m a v) b = load64 m b.
Proof. intros H. apply load_le_store_le_other. lia. Qed.

Lemma load64_store16_other m a v b :
  b + 8 <= a \/ a + 2 <= b -> load64 (store16 m a v) b = load64 m b.
Proof. intros H. apply load_le_store_le_other. lia. Qed.

Lemma load16_store64_other m a v b :
  b + 2 <= a \/ a + 8 <= b -> load16 (store64 m a v) b = load16 m b.
Proof. intros H. apply load_le_store_le_other. lia. Qed.

Lemma load16_store16_other m a v b :
  b + 2 <= a \/ a + 2 <= b -> load16 (store16 m a v) b = load16 m b.
Proof. intros H. apply load_le_store_le_other. lia. Qed.

Lemma load64_memset_other m dst c n b :
  b + 8 <= dst \/ dst + n <= b -> load64 (memset m dst c n) b = load64 m b.
Proof.
  intros H. destruct (Z.lt_ge_cases n 0) as [Hn|Hn].
  - unfold memset. rewrite Z2Nat.nonpos by lia. reflexivity.
  - apply load_le_store_bytes_other. rewrite length_replicate. lia.
Qed.

Lemma load16_memset_other m dst c n b :
  b + 2 <= dst \/ dst + n <= b -> load16 (memset m dst c n) b = load16 m b.
Proof.
  intros H. destruct (Z.lt_ge_cases n 0) as [Hn|Hn].
  - unfold memset. rewrite Z2Nat.nonpos by lia. reflexivity.
  - apply load_le_store_bytes_other. rewrite length_replicate. lia.
Qed.

Lemma load_bytes_memset_other m dst c n b k :
  b + Z.of_nat k <= dst \/ dst + n <= b ->
  load_bytes (memset m dst c n) b k = load_bytes m b k.
Proof.
  intros H. destruct (Z.lt_ge_cases n 0) as [Hn|Hn].
  - unfold memset. rewrite Z2Nat.nonpos by lia. reflexivity.
  - apply load_bytes_store_bytes_other. rewrite length_replicate. lia.
Qed.

Lemma load64_memcpy_other m dst src n b :
  b + 8 <= dst \/ dst + n <= b -> load64 (memcpy m dst src n) b = load64 m b.
Proof.
  intros H. destruct (Z.lt_ge_cases n 0) as [Hn|Hn].
  - unfold memcpy. rewrite Z2Nat.nonpos by lia. reflexivity.
  - apply load_le_store_bytes_other. rewrite length_take.
    pose proof (Nat.le_min_l (Z.to_nat n) (List.length src)). lia.
Qed.

Lemma load16_memcpy_other m dst src n b :
  b + 2 <= dst \/ dst + n <= b -> load16 (memcpy m dst src n) b = load16 m b.
Proof.
  intros H. destruct (Z.lt_ge_cases n 0) as [Hn|Hn].
  - unfold memcpy. rewrite Z2Nat.nonpos by lia. reflexivity.
  - apply load_le_store_bytes_other. rewrite length_take.
    pose proof (Nat.le_min_l (Z.to_nat n) (List.length src)). lia.
Qed.

Lemma load_bytes_memcpy_other m dst src n b k :
  b + Z.of_nat k <= dst \/ dst + n <= b ->
  load_bytes (memcpy m dst src n) b k = load_bytes m b k.
Proof.
  intros H. destruct (Z.lt_ge_cases n 0) as [Hn|Hn].
  - unfold memcpy. rewrite Z2Nat.nonpos by lia. reflexivity.
  - apply load_bytes_store_bytes_other. rewrite length_take.
    pose proof (Nat.le_min_l (Z.to_nat n) (List.length src)). lia.
Qed.

Lemma load_bytes_store64_other m a v b k :
  b + Z.of_nat k <= a \/ a + 8 <= b ->
  load_bytes (store64 m a v) b k = load_bytes m b k.
Proof. intros H. apply load_bytes_store_le_other. lia. Qed.

Lemma load_bytes_store16_other m a v b k :
  b + Z.of_nat k <= a \/ a + 2 <= b ->
  load_bytes (store16 m a v) b k = load_bytes m b k.
Proof. intros H. apply load_bytes_store_le_other. lia. Qed.

Lemma load_bytes_memcpy_same m dst src n :
  Z.of_nat (List.length src) = n ->
  Forall (fun b => 0 <= b < 256) src ->
  load_bytes (memcpy m dst src n) dst (Z.to_nat n) = src.
Proof.
  intros Hn Hb. unfold memcpy.
  rewrite firstn_all2 by lia.
  replace (Z.to_nat n) with (List.length src) by lia.
  rewrite load_bytes_store_bytes_same. clear Hn.
  induction Hb as [|x l Hx Hl IH]; simpl; [reflexivity|].
  rewrite Z.mod_small by exact Hx. f_equal. exact IH.
Qed.

(* ================================================================== *)
(** ** Validated access and release, one call *)

Lemma authenticates_dec pool h : {authenticates pool h} + {~ authenticates pool h}.
Proof.
  unfold authenticates.
  destruct (Z.eq_dec h ANAM_NULL) as [E|NE]; [right; tauto|].
  destruct (Z.eq_dec (anam_state h) ANAM_STATE_LIVE) as [Es|Ns]; [|right; tauto].
  destruct (in_pool pool (decode_addr h)) eqn:Ei; [|right; intuition discriminate].
  destruct (Z.eq_dec (header_generation pool (decode_addr h)) (anam_generation h))
    as [Eg|Ng]; [left; tauto | right; tauto].
Qed.

Lemma in_pool_lower pool p : in_pool pool p = true -> slots_base pool <= p.
Proof.
  unfold in_pool. destruct (Z.ltb_spec p (slots_base pool)); simpl; [discriminate|].
  intros _. assumption.
Qed.

Lemma in_pool_upper pool p : in_pool pool p = true -> p < pool_end pool.
Proof.
  unfold in_pool. destruct (Z.ltb_spec p (slots_base pool)); simpl; [discriminate|].
  destruct (Z.leb_spec (pool_end pool) p); [discriminate|]. intros _. assumption.
Qed.

Lemma anam_get_authentic pool h :
  authenticates pool h -> anam_get pool h = (decode_addr h, pool).
Proof.
  intros (Hn & Hs & Hi & Hg). unfold anam_get, anam_is_null.
  destruct (Z.eqb_spec h ANAM_NULL); [contradiction|].
  rewrite Hs, Z.eqb_refl, Hi. cbn [negb].
  unfold header_generation in Hg. unfold decode_gen. unfold anam_generation in Hg.
  rewrite Hg, Z.eqb_refl. reflexivity.
Qed.

Lemma anam_get_null pool : anam_get pool ANAM_NULL = (0, pool).
Proof. reflexivity. Qed.

Lemma anam_get_counterfeit pool h :
  h <> ANAM_NULL -> ~ authenticates pool h ->
  anam_get pool h = (0, bump_anamnesis pool).
Proof.
  intros Hn Hna. unfold anam_get, anam_is_null.
  destruct (Z.eqb_spec h ANAM_NULL); [contradiction|].
  destruct (Z.eqb_spec (anam_state h) ANAM_STATE_LIVE) as [Hs|Hs]; cbn [negb]; [|reflexivity].
  destruct (in_pool pool (decode_addr h)) eqn:Hi; cbn [negb]; [|reflexivity].
  destruct (Z.eqb_spec (decode_gen h)
              (load16 (heap pool) (generation_of (get_header (decode_addr h)))))
    as [Hg|Hg]; cbn [negb]; [|reflexivity].
  exfalso. apply Hna. unfold authenticates, header_generation, anam_generation.
  unfold decode_gen in Hg. auto.
Qed.

Lemma in_pool_region pool a :
  region_fits pool -> (in_pool pool a = true <-> in_slot_region pool a).
Proof.
  intros (Hb & Hcs & Hend). unfold in_pool, pool_end, in_slot_region.
  rewrite (wrap64_small (slot_count pool * slot_stride pool)) by lia.
  rewrite wrap64_small by lia.
  destruct (Z.ltb_spec a (slots_base pool)) as [H1|H1];
    destruct (Z.leb_spec (slots_base pool + slot_count pool * slot_stride pool) a)
      as [H2|H2];
    cbn [orb]; split; intros H; try discriminate H; try reflexivity; lia.
Qed.

Lemma genuine_authenticates pool h :
  region_fits pool -> (genuine pool h <-> authenticates pool h).
Proof.
  intros Hfit. unfold genuine, authenticates.
  pose proof (in_pool_region pool (decode_addr h) Hfit) as Hreg. tauto.
Qed.

(** C1, as the code has it.  A handle is genuine when it is not null, its
    state tag is LIVE, its decoded address [a] satisfies
    [slots_base <= a < slots_base + slot_count * slot_stride], and the
    generation in the header in front of [a] is the one the handle claims.
    [anam_get] returns a non-null pointer exactly for the genuine handles,
    and then it returns the decoded address and leaves the pool as it is.
    A null handle gives null and leaves [anamnesis_count] unchanged.
    Every other handle that is not genuine, in particular every non-null
    handle whose address is below [slots_base] or at or past the end of
    the region, gives null and increments [anamnesis_count] by exactly
    one (in [size_t] arithmetic), changing nothing else. *)
Theorem anam_get_spec (pool : AnamPool) (h : Z) :
  region_fits pool ->
  (fst (anam_get pool h) <> 0 <-> genuine pool h)
  /\ (genuine pool h -> anam_get pool h = (decode_addr h, pool))
  /\ (h = ANAM_NULL -> anam_get pool h = (0, pool))
  /\ (h <> ANAM_NULL -> ~ genuine pool h ->
      anam_get pool h =
      (0, set_anamnesis_count pool (wrap64 (anamnesis_count pool + 1))))
  /\ (h <> ANAM_NULL ->
      decode_addr h < slots_base pool
      \/ slots_base pool + slot_count pool * slot_stride pool <= decode_addr h ->
      anam_get pool h =
      (0, set_anamnesis_count pool (wrap64 (anamnesis_count pool + 1)))).
Proof.
  intros Hfit. pose proof (genuine_authenticates pool h Hfit) as Hga.
  pose proof Hfit as (Hbase & _).
  split; [|split; [|split; [|split]]].
  - rewrite Hga. destruct (authenticates_dec pool h) as [Ha|Hna].
    + rewrite anam_get_authentic by exact Ha. cbn [fst].
      split; [intros _; exact Ha|]. intros _.
      destruct Ha as (_ & _ & Hi & _). apply in_pool_lower in Hi. lia.
    + split; [|intros Ha; contradiction]. intros Hne. exfalso. apply Hne.
      destruct (Z.eq_dec h ANAM_NULL) as [->|Hn]; [reflexivity|].
      rewrite anam_get_counterfeit by assumption. reflexivity.
  - intros Hg. apply anam_get_authentic. apply Hga. exact Hg.
  - intros ->. apply anam_get_null.
  - intros Hn Hng. apply anam_get_counterfeit; [exact Hn|].
    intros Ha. apply Hng. apply Hga. exact Ha.
  - intros Hn Hout. apply anam_get_counterfeit; [exact Hn|].
    intros Ha. apply Hga in Ha. destruct Ha as (_ & _ & Hreg & _).
    unfold in_slot_region in Hreg. lia.
Qed.

Lemma anam_get_spec_witness :
  (fst (anam_get demo_pool 4113) <> 0 <-> genuine demo_pool 4113)
  /\ (genuine demo_pool 4113 -> anam_get demo_pool 4113 = (decode_addr 4113, demo_pool))
  /\ (4113 = ANAM_NULL -> anam_get demo_pool 4113 = (0, demo_pool))
  /\ (4113 <> ANAM_NULL -> ~ genuine demo_pool 4113 ->
      anam_get demo_pool 4113 =
      (0, set_anamnesis_count demo_pool (wrap64 (anamnesis_count demo_pool + 1))))
  /\ (4113 <> ANAM_NULL ->
      decode_addr 4113 < slots_base demo_pool
      \/ slots_base demo_pool + slot_count demo_pool * slot_stride demo_pool
         <= decode_addr 4113 ->
      anam_get demo_pool 4113 =
      (0, set_anamnesis_count demo_pool (wrap64 (anamnesis_count demo_pool + 1)))).
Proof.
  apply (anam_get_spec demo_pool 4113).
  vm_compute. split; [reflexivity|]. split; [discriminate | reflexivity].
Defined.

(** C1, the counterexample: on the null handle [anam_get] returns null and
    does not increment [anamnesis_count]. *)
Lemma anam_get_null_not_counted :
  ~ authenticates demo_pool ANAM_NULL
  /\ ~ genuine demo_pool ANAM_NULL
  /\ fst (anam_get demo_pool ANAM_NULL) = 0
  /\ anamnesis_count (snd (anam_get demo_pool ANAM_NULL)) = anamnesis_count demo_pool
  /\ anamnesis_count (snd (anam_get demo_pool ANAM_NULL)) <> anamnesis_count demo_pool + 1.
Proof.
  rewrite anam_get_null. cbn [fst snd].
  split; [intros (Hn & _); apply Hn; reflexivity|].
  split; [intros (Hn & _); apply Hn; reflexivity|].
  split; [reflexivity|]. split; [reflexivity|]. lia.
Qed.

Lemma header_addresses a :
  16 <= a < 2 ^ 64 ->
  get_header a = a - 16
  /\ next_of (get_header a) = a - 16
  /\ generation_of (get_header a) = a - 8.
Proof.
  intros Ha. unfold next_of, generation_of, get_header, sizeof_SlotHeader,
    offsetof_next, offsetof_generation.
  rewrite (wrap64_small (a - 16)) by lia.
  rewrite !wrap64_small by lia. repeat split; lia.
Qed.

Lemma cas_same cur desired : cas cur cur desired = (true, desired).
Proof. unfold cas. rewrite Z.eqb_refl. reflexivity. Qed.

Lemma anam_release_null pool : anam_release pool ANAM_NULL = (false, pool).
Proof. reflexivity. Qed.

Lemma anam_release_counterfeit pool h :
  h <> ANAM_NULL -> ~ authenticates pool h ->
  anam_release pool h = (false, bump_anamnesis pool).
Proof.
  intros Hn Hna. unfold anam_release, anam_is_null.
  destruct (Z.eqb_spec h ANAM_NULL); [contradiction|].
  destruct (Z.eqb_spec (anam_state h) ANAM_STATE_LIVE) as [Hs|Hs]; cbn [negb]; [|reflexivity].
  destruct (in_pool pool (decode_addr h)) eqn:Hi; cbn [negb]; [|reflexivity].
  destruct (Z.eqb_spec (decode_gen h)
              (load16 (heap pool) (generation_of (get_header (decode_addr h)))))
    as [Hg|Hg]; cbn [negb]; [|reflexivity].
  exfalso. apply Hna. unfold authenticates, header_generation, anam_generation.
  unfold decode_gen in Hg. auto.
Qed.

Lemma anam_release_authentic pool h :
  authenticates pool h ->
  anam_release pool h = (true, released pool (decode_addr h)).
Proof.
  intros (Hn & Hs & Hi & Hg). unfold anam_release, anam_is_null.
  destruct (Z.eqb_spec h ANAM_NULL); [contradiction|].
  rewrite Hs, Z.eqb_refl, Hi. cbn [negb].
  unfold header_generation, anam_generation in Hg. unfold decode_gen.
  rewrite Hg, Z.eqb_refl. cbn [negb]. rewrite <- Hg.
  unfold released, header_generation.
  destruct (zero_on_release pool) eqn:Hz; pool_simpl; rewrite ?Hz, ?cas_same;
    pool_simpl; rewrite ?Hz; reflexivity.
Qed.

Lemma released_header_generation pool a :
  16 <= a < 2 ^ 64 ->
  header_generation (released pool a) a = wrap16 (header_generation pool a + 1).
Proof.
  intros Ha. destruct (header_addresses a Ha) as (Hh & Hn & Hg).
  unfold released, header_generation. pool_simpl. rewrite Hn, Hg.
  rewrite load16_store64_other by lia.
  destruct (zero_on_release pool).
  - rewrite load16_memset_other by lia. rewrite load16_store16_same.
    unfold wrap16. apply Z.mod_mod. lia.
  - rewrite load16_store16_same. unfold wrap16. apply Z.mod_mod. lia.
Qed.

Lemma released_header_next pool a :
  16 <= a < 2 ^ 64 ->
  header_next (released pool a) a = wrap64 (free_head pool).
Proof.
  intros Ha. destruct (header_addresses a Ha) as (Hh & Hn & Hg).
  unfold released, header_next. pool_simpl. rewrite Hn.
  apply load64_store64_same.
Qed.

(** C2, as the code has it.  A null handle is refused with the pool left as
    it is, [anamnesis_count] included.  Every other handle that is not
    genuine (state tag not LIVE; decoded address [a] outside
    [slots_base <= a < slots_base + slot_count * slot_stride]; or
    generation different from the header's) is refused and increments
    [anamnesis_count] by exactly one, changing nothing else.  A genuine
    handle is accepted: the header generation becomes the old one plus
    one modulo 2^16, the new free-list head is the handle of this slot
    with state FREE and the new generation, its link is the old head,
    [slots_free] and [release_count] grow by one and [anamnesis_count]
    stays. *)
Theorem anam_release_spec (pool : AnamPool) (h : Z) :
  0 <= h < 2 ^ 64 -> 16 <= slots_base pool -> region_fits pool ->
  (h = ANAM_NULL -> anam_release pool h = (false, pool))
  /\ (h <> ANAM_NULL -> ~ genuine pool h ->
      anam_release pool h =
      (false, set_anamnesis_count pool (wrap64 (anamnesis_count pool + 1))))
  /\ (h <> ANAM_NULL ->
      decode_addr h < slots_base pool
      \/ slots_base pool + slot_count pool * slot_stride pool <= decode_addr h ->
      anam_release pool h =
      (false, set_anamnesis_count pool (wrap64 (anamnesis_count pool + 1))))
  /\ (genuine pool h ->
      exists pool',
        anam_release pool h = (true, pool')
        /\ header_generation pool' (decode_addr h)
           = wrap16 (header_generation pool (decode_addr h) + 1)
        /\ free_head pool'
           = encode_handle (wrap16 (header_generation pool (decode_addr h) + 1))
               (decode_addr h) ANAM_STATE_FREE
        /\ anam_state (free_head pool') = ANAM_STATE_FREE
        /\ anam_generation (free_head pool')
           = wrap16 (header_generation pool (decode_addr h) + 1)
        /\ decode_addr (free_head pool') = decode_addr h
        /\ header_next pool' (decode_addr h) = wrap64 (free_head pool)
        /\ slots_free pool' = wrap64 (slots_free pool + 1)
        /\ release_count pool' = wrap64 (release_count pool + 1)
        /\ anamnesis_count pool' = anamnesis_count pool).
Proof.
  intros Hh Hbase Hfit. pose proof (genuine_authenticates pool h Hfit) as Hga.
  split; [|split; [|split]].
  - intros ->. apply anam_release_null.
  - intros Hn Hng. apply anam_release_counterfeit; [exact Hn|].
    intros Ha. apply Hng. apply Hga. exact Ha.
  - intros Hn Hout. apply anam_release_counterfeit; [exact Hn|].
    intros Ha. apply Hga in Ha. destruct Ha as (_ & _ & Hreg & _).
    unfold in_slot_region in Hreg. lia.
  - intros Hg. apply Hga in Hg. rename Hg into Ha.
    exists (released pool (decode_addr h)).
    pose proof (decode_addr_range h (proj1 Hh)) as Hr.
    pose proof (decode_addr_mod8 h) as Hm.
    assert (Hlo : 16 <= decode_addr h < 2 ^ 64).
    { destruct Ha as (_ & _ & Hi & _). apply in_pool_lower in Hi. lia. }
    pose proof (wrap16_range (header_generation pool (decode_addr h) + 1)) as Hg.
    split; [apply anam_release_authentic; exact Ha|].
    split; [apply released_header_generation; exact Hlo|].
    split; [reflexivity|].
    split; [unfold released; pool_simpl; apply anam_state_encode;
            (assumption || (unfold ANAM_STATE_FREE; lia))|].
    split; [unfold released; pool_simpl; apply decode_gen_encode;
            (assumption || (unfold ANAM_STATE_FREE; lia))|].
    split; [unfold released; pool_simpl; apply decode_addr_encode;
            (assumption || (unfold ANAM_STATE_FREE; lia))|].
    split; [apply released_header_next; exact Hlo|].
    repeat split.
Qed.

Lemma anam_release_spec_witness :
  (4113 = ANAM_NULL -> anam_release demo_pool 4113 = (false, demo_pool))
  /\ (4113 <> ANAM_NULL -> ~ genuine demo_pool 4113 ->
      anam_release demo_pool 4113 =
      (false, set_anamnesis_count demo_pool (wrap64 (anamnesis_count demo_pool + 1))))
  /\ (4113 <> ANAM_NULL ->
      decode_addr 4113 < slots_base demo_pool
      \/ slots_base demo_pool + slot_count demo_pool * slot_stride demo_pool <= decode_addr 4113 ->
      anam_release demo_pool 4113 =
      (false, set_anamnesis_count demo_pool (wrap64 (anamnesis_count demo_pool + 1))))
  /\ (genuine demo_pool 4113 ->
      exists pool',
        anam_release demo_pool 4113 = (true, pool')
        /\ header_generation pool' (decode_addr 4113)
           = wrap16 (header_generation demo_pool (decode_addr 4113) + 1)
        /\ free_head pool'
           = encode_handle (wrap16 (header_generation demo_pool (decode_addr 4113) + 1))
               (decode_addr 4113) ANAM_STATE_FREE
        /\ anam_state (free_head pool') = ANAM_STATE_FREE
        /\ anam_generation (free_head pool')
           = wrap16 (header_generation demo_pool (decode_addr 4113) + 1)
        /\ decode_addr (free_head pool') = decode_addr 4113
        /\ header_next pool' (decode_addr 4113) = wrap64 (free_head demo_pool)
        /\ slots_free pool' = wrap64 (slots_free demo_pool + 1)
        /\ release_count pool' = wrap64 (release_count demo_pool + 1)
        /\ anamnesis_count pool' = anamnesis_count demo_pool).
Proof.
  apply (anam_release_spec demo_pool 4113).
  - lia.
  - vm_compute. discriminate.
  - vm_compute. split; [reflexivity|]. split; [discriminate | reflexivity].
Defined.

(** C2, the counterexample: on the null handle [anam_release] returns
    false and does not increment [anamnesis_count]. *)
Lemma anam_release_null_not_counted :
  fst (anam_release demo_pool ANAM_NULL) = false
  /\ anamnesis_count (snd (anam_release demo_pool ANAM_NULL)) = anamnesis_count demo_pool
  /\ anamnesis_count (snd (anam_release demo_pool ANAM_NULL))
     <> anamnesis_count demo_pool + 1.
Proof.
  rewrite anam_release_null. cbn [fst snd].
  split; [reflexivity|]. split; [reflexivity|]. lia.
Qed.

(* ================================================================== *)
(** ** Geometry *)

Lemma slot_bounds pool a :
  layout pool -> is_slot pool a ->
  slots_base pool <= a
  /\ a + slot_stride pool <= slots_base pool + slot_count pool * slot_stride pool
  /\ 16 <= a /\ a + slot_stride pool <= 2 ^ 48 /\ a mod 8 = 0.
Proof.
  intros (Hc & Hb & Hb8 & Hs & Hst & Hst8 & Hend) (i & Hi & ->). unfold slot_addr.
  assert (H1 : 0 <= i * slot_stride pool) by nia.
  assert (H2 : i * slot_stride pool + slot_stride pool <= slot_count pool * slot_stride pool)
    by nia.
  repeat split; try lia.
  apply Z.mod_divide; [lia|]. apply Z.divide_add_r.
  - apply Z.mod_divide; [lia | exact Hb8].
  - apply Z.divide_mul_r. apply Z.mod_divide; [lia | exact Hst8].
Qed.

Lemma slot_apart pool a b :
  layout pool -> is_slot pool a -> is_slot pool b -> a <> b ->
  a + slot_stride pool <= b \/ b + slot_stride pool <= a.
Proof.
  intros (Hc & Hb & Hb8 & Hs & Hst & Hst8 & Hend) (i & Hi & ->) (j & Hj & ->) Hne.
  unfold slot_addr in *.
  destruct (Z.lt_trichotomy i j) as [Hlt|[->|Hgt]]; [left | contradiction | right]; nia.
Qed.

Lemma pool_end_plain pool :
  layout pool -> pool_end pool = slots_base pool + slot_count pool * slot_stride pool.
Proof.
  intros (Hc & Hb & Hb8 & Hs & Hst & Hst8 & Hend). unfold pool_end.
  assert (0 <= slot_count pool * slot_stride pool) by nia.
  rewrite (wrap64_small (slot_count pool * slot_stride pool)) by lia.
  apply wrap64_small. lia.
Qed.

Lemma in_pool_slot pool a : layout pool -> is_slot pool a -> in_pool pool a = true.
Proof.
  intros Hl Ha. destruct (slot_bounds pool a Hl Ha) as (H1 & H2 & _).
  unfold in_pool. rewrite pool_end_plain by exact Hl.
  destruct Hl as (Hc & Hb & Hb8 & Hs & Hst & Hst8 & Hend).
  destruct (Z.ltb_spec a (slots_base pool)); [lia|].
  destruct (Z.leb_spec (slots_base pool + slot_count pool * slot_stride pool) a); [lia|].
  reflexivity.
Qed.

Lemma slot_from_index_plain pool i :
  layout pool -> 0 <= i < slot_count pool -> slot_from_index pool i = slot_addr pool i.
Proof.
  intros (Hc & Hb & Hb8 & Hs & Hst & Hst8 & Hend) Hi. unfold slot_from_index, slot_addr.
  assert (0 <= i * slot_stride pool) by nia.
  assert (i * slot_stride pool <= slot_count pool * slot_stride pool) by nia.
  rewrite (wrap64_small (i * slot_stride pool)) by lia.
  apply wrap64_small. lia.
Qed.

Lemma slot_header_addresses pool a :
  layout pool -> is_slot pool a ->
  get_header a = a - 16
  /\ next_of (get_header a) = a - 16
  /\ generation_of (get_header a) = a - 8.
Proof.
  intros Hl Ha. destruct (slot_bounds pool a Hl Ha) as (_ & _ & H16 & H48 & _).
  destruct Hl as (Hc & Hb & Hb8 & Hs & Hst & Hst8 & Hend).
  apply header_addresses. lia.
Qed.

(** The handle of a slot: in range, non-null, and decoding to the slot. *)
Lemma slot_handle pool a g s :
  layout pool -> is_slot pool a -> 0 <= g < 2 ^ 16 -> 0 <= s < 8 ->
  0 <= encode_handle g a s < 2 ^ 64
  /\ anam_is_null (encode_handle g a s) = false
  /\ decode_addr (encode_handle g a s) = a
  /\ decode_gen (encode_handle g a s) = g
  /\ anam_state (encode_handle g a s) = s.
Proof.
  intros Hl Ha Hg Hs. destruct (slot_bounds pool a Hl Ha) as (_ & _ & H16 & H48 & H8).
  destruct Hl as (Hc & Hb & Hb8 & Hsz & Hst & Hst8 & Hend).
  assert (Hr : 0 <= a < 2 ^ 48) by lia.
  split; [apply encode_handle_range; assumption|].
  split; [apply encode_handle_nonnull; try assumption; left; lia|].
  split; [apply decode_addr_encode; assumption|].
  split; [apply decode_gen_encode; assumption | apply anam_state_encode; assumption].
Qed.

(* ================================================================== *)
(** ** Frames *)

Lemma same_outside_refl m lo hi : same_outside m m lo hi.
Proof. intros x _. reflexivity. Qed.

Lemma same_outside_widen m m' lo hi lo' hi' :
  same_outside m m' lo hi -> lo' <= lo -> hi <= hi' -> same_outside m m' lo' hi'.
Proof. intros H Hlo Hhi x Hx. apply H. lia. Qed.

Lemma same_outside_trans m1 m2 m3 lo hi :
  same_outside m1 m2 lo hi -> same_outside m2 m3 lo hi -> same_outside m1 m3 lo hi.
Proof. intros H12 H23 x Hx. rewrite H23 by exact Hx. apply H12. exact Hx. Qed.

Lemma same_outside_store_le m a n v :
  same_outside m (store_le m a n v) a (a + Z.of_nat n).
Proof. intros x Hx. apply load8_store_le_other. exact Hx. Qed.

Lemma same_outside_store64 m a v : same_outside m (store64 m a v) a (a + 8).
Proof. apply (same_outside_store_le m a 8 v). Qed.

Lemma same_outside_store16 m a v : same_outside m (store16 m a v) a (a + 2).
Proof. apply (same_outside_store_le m a 2 v). Qed.

Lemma same_outside_memset m dst c n :
  0 <= n -> same_outside m (memset m dst c n) dst (dst + n).
Proof.
  intros Hn x Hx. apply load8_store_bytes_other. rewrite length_replicate. lia.
Qed.

Lemma same_outside_memcpy m dst src n :
  0 <= n -> same_outside m (memcpy m dst src n) dst (dst + n).
Proof.
  intros Hn x Hx. apply load8_store_bytes_other. rewrite length_take.
  pose proof (Nat.le_min_l (Z.to_nat n) (List.length src)). lia.
Qed.

Lemma load16_frame m m' lo hi b :
  same_outside m m' lo hi -> b + 2 <= lo \/ hi <= b -> load16 m' b = load16 m b.
Proof. intros H Hb. apply load_le_ext. intros x Hx. apply H. lia. Qed.

Lemma load64_frame m m' lo hi b :
  same_outside m m' lo hi -> b + 8 <= lo \/ hi <= b -> load64 m' b = load64 m b.
Proof. intros H Hb. apply load_le_ext. intros x Hx. apply H. lia. Qed.

Lemma load_bytes_frame m m' lo hi b k :
  same_outside m m' lo hi -> b + Z.of_nat k <= lo \/ hi <= b ->
  load_bytes m' b k = load_bytes m b k.
Proof. intros H Hb. apply load_bytes_ext. intros x Hx. apply H. lia. Qed.

Lemma header_generation_frame p p' a lo hi :
  same_outside (heap p) (heap p') lo hi -> 16 <= a < 2 ^ 64 ->
  a - 6 <= lo \/ hi <= a - 8 ->
  header_generation p' a = header_generation p a.
Proof.
  intros H Ha Hd. destruct (header_addresses a Ha) as (_ & _ & Hg).
  unfold header_generation. rewrite Hg. apply (load16_frame _ _ lo hi); [exact H | lia].
Qed.

Lemma header_next_frame p p' a lo hi :
  same_outside (heap p) (heap p') lo hi -> 16 <= a < 2 ^ 64 ->
  a - 8 <= lo \/ hi <= a - 16 ->
  header_next p' a = header_next p a.
Proof.
  intros H Ha Hd. destruct (header_addresses a Ha) as (_ & Hn & _).
  unfold header_next. rewrite Hn. apply (load64_frame _ _ lo hi); [exact H | lia].
Qed.

(** An operation that only writes inside the stride of slot [a] (from its
    header to the end of its payload) leaves the headers of the other
    slots alone. *)
Lemma other_slot_headers p p' a b :
  layout p -> is_slot p a -> is_slot p b -> a <> b ->
  same_outside (heap p) (heap p') (a - 16) (a + slot_size p) ->
  header_generation p' b = header_generation p b
  /\ header_next p' b = header_next p b.
Proof.
  intros Hl Ha Hb Hne H.
  destruct (slot_bounds p a Hl Ha) as (_ & _ & Ha16 & Ha48 & _).
  destruct (slot_bounds p b Hl Hb) as (_ & _ & Hb16 & Hb48 & _).
  pose proof (slot_apart p a b Hl Ha Hb Hne) as Hap.
  destruct Hl as (Hc & Hbs & Hb8 & Hsz & Hst & Hst8 & Hend).
  split.
  - apply (header_generation_frame p p' b _ _ H); lia.
  - apply (header_next_frame p p' b _ _ H); lia.
Qed.

Lemma free_chain_frame p p' h F :
  (forall b, b ∈ F ->
     header_generation p' b = header_generation p b
     /\ header_next p' b = header_next p b) ->
  free_chain p h F -> free_chain p' h F.
Proof.
  revert h. induction F as [|a F IH]; intros h Hf Hc; simpl in *; [exact Hc|].
  destruct Hc as [Hh Hc].
  destruct (Hf a) as [Hg Hn]; [apply list_elem_of_here|].
  rewrite Hg, Hn. split; [exact Hh|].
  apply IH; [|exact Hc]. intros b Hb. apply Hf. apply list_elem_of_further. exact Hb.
Qed.

(* ================================================================== *)
(** ** One allocation, one release *)

Lemma anam_alloc_empty p : free_head p = ANAM_NULL -> anam_alloc p = (ANAM_NULL, p).
Proof. intros H. unfold anam_alloc. rewrite H. reflexivity. Qed.

Lemma anam_alloc_pop p :
  free_head p <> ANAM_NULL ->
  anam_alloc p =
  (encode_handle (header_generation p (decode_addr (free_head p)))
     (decode_addr (free_head p)) ANAM_STATE_LIVE,
   allocated p (decode_addr (free_head p))).
Proof.
  intros H. unfold anam_alloc, anam_is_null.
  destruct (Z.eqb_spec (free_head p) ANAM_NULL); [contradiction|].
  rewrite cas_same. unfold allocated, header_generation, header_next. pool_simpl.
  destruct (generation_max p <?
            load16 (heap p) (generation_of (get_header (decode_addr (free_head p)))));
    destruct (zero_on_alloc p) eqn:Hz; pool_simpl; rewrite ?Hz; reflexivity.
Qed.

Lemma allocated_frame p a :
  layout p -> is_slot p a ->
  same_outside (heap p) (heap (allocated p a)) (a - 16) (a + slot_size p).
Proof.
  intros Hl Ha. destruct (slot_header_addresses p a Hl Ha) as (_ & Hn & _).
  destruct Hl as (Hc & Hbs & Hb8 & Hsz & Hst & Hst8 & Hend).
  unfold allocated. pool_simpl. rewrite Hn.
  assert (H1 : same_outside (heap p) (store64 (heap p) (a - 16) ANAM_NULL)
                 (a - 16) (a + slot_size p)).
  { eapply same_outside_widen; [apply same_outside_store64 | lia | lia]. }
  destruct (zero_on_alloc p); [|exact H1].
  eapply same_outside_trans; [exact H1|].
  eapply same_outside_widen; [apply same_outside_memset; lia | lia | lia].
Qed.

Lemma released_frame p a :
  layout p -> is_slot p a ->
  same_outside (heap p) (heap (released p a)) (a - 16) (a + slot_size p).
Proof.
  intros Hl Ha. destruct (slot_header_addresses p a Hl Ha) as (_ & Hn & Hg).
  destruct Hl as (Hc & Hbs & Hb8 & Hsz & Hst & Hst8 & Hend).
  unfold released. pool_simpl. rewrite Hn, Hg.
  set (g := wrap16 (header_generation p a + 1)).
  assert (H1 : same_outside (heap p) (store16 (heap p) (a - 8) g)
                 (a - 16) (a + slot_size p)).
  { eapply same_outside_widen; [apply same_outside_store16 | lia | lia]. }
  assert (H2 : same_outside (heap p)
                 (if zero_on_release p
                  then memset (store16 (heap p) (a - 8) g) a 0 (slot_size p)
                  else store16 (heap p) (a - 8) g)
                 (a - 16) (a + slot_size p)).
  { destruct (zero_on_release p); [|exact H1].
    eapply same_outside_trans; [exact H1|].
    eapply same_outside_widen; [apply same_outside_memset; lia | lia | lia]. }
  eapply same_outside_trans; [exact H2|].
  eapply same_outside_widen; [apply same_outside_store64 | lia | lia].
Qed.

Lemma allocated_header_next p a :
  16 <= a < 2 ^ 64 -> header_next (allocated p a) a = 0.
Proof.
  intros Ha. destruct (header_addresses a Ha) as (_ & Hn & _).
  unfold allocated, header_next. pool_simpl. rewrite Hn.
  destruct (zero_on_alloc p).
  - rewrite load64_memset_other by lia. apply load64_store64_same.
  - apply load64_store64_same.
Qed.

Lemma allocated_header_generation p a :
  16 <= a < 2 ^ 64 -> header_generation (allocated p a) a = header_generation p a.
Proof.
  intros Ha. destruct (header_addresses a Ha) as (_ & Hn & Hg).
  unfold allocated, header_generation. pool_simpl. rewrite Hn, Hg.
  destruct (zero_on_alloc p).
  - rewrite load16_memset_other by lia. apply load16_store64_other. lia.
  - apply load16_store64_other. lia.
Qed.

Lemma header_generation_range p a : 0 <= header_generation p a < 2 ^ 16.
Proof. apply load16_range. Qed.

Lemma header_next_range p a : 0 <= header_next p a < 2 ^ 64.
Proof. apply load64_range. Qed.

Lemma slot_range64 p a : layout p -> is_slot p a -> 16 <= a < 2 ^ 64.
Proof.
  intros Hl Ha. destruct (slot_bounds p a Hl Ha) as (_ & _ & H16 & H48 & _).
  destruct Hl as (Hc & Hbs & Hb8 & Hsz & Hst & Hst8 & Hend). lia.
Qed.

(** Sanity of the links is kept by a pop of the free list and by an
    accepted release of a slot. *)
Lemma pool_sane_allocated p a :
  pool_sane p -> is_slot p a -> pool_sane (allocated p a).
Proof.
  intros (Hl & Hr & Hh & Hn) Ha.
  split; [exact Hl|]. split; [apply header_next_range|].
  split; [exact (Hn a Ha)|].
  intros b Hb. change (is_slot p b) in Hb.
  destruct (Z.eq_dec a b) as [<-|Hne].
  - left. apply allocated_header_next. apply (slot_range64 p a Hl Ha).
  - destruct (other_slot_headers p (allocated p a) a b Hl Ha Hb Hne
                (allocated_frame p a Hl Ha)) as [_ Hnx].
    rewrite Hnx. exact (Hn b Hb).
Qed.

Lemma pool_sane_released p a :
  pool_sane p -> is_slot p a -> pool_sane (released p a).
Proof.
  intros (Hl & Hr & Hh & Hn) Ha.
  pose proof (wrap16_range (header_generation p a + 1)) as Hg.
  destruct (slot_handle p a (wrap16 (header_generation p a + 1)) ANAM_STATE_FREE Hl Ha Hg)
    as (Hrange & _ & Hd & _); [unfold ANAM_STATE_FREE; lia|].
  split; [exact Hl|]. split; [exact Hrange|].
  split; [right; change (free_head (released p a))
            with (encode_handle (wrap16 (header_generation p a + 1)) a ANAM_STATE_FREE);
          rewrite Hd; exact Ha|].
  intros b Hb. change (is_slot p b) in Hb.
  destruct (Z.eq_dec a b) as [<-|Hne].
  - rewrite released_header_next by (apply (slot_range64 p a Hl Ha)).
    rewrite wrap64_small by exact Hr. exact Hh.
  - destruct (other_slot_headers p (released p a) a b Hl Ha Hb Hne
                (released_frame p a Hl Ha)) as [_ Hnx].
    rewrite Hnx. exact (Hn b Hb).
Qed.

(** No more slots can be on a duplicate-free list than the pool has. *)
Lemma is_slot_all_slots p a : is_slot p a -> In a (all_slots p).
Proof.
  intros (i & Hi & ->). unfold all_slots. apply in_map_iff.
  exists (Z.to_nat i). split; [f_equal; lia|]. apply in_seq. lia.
Qed.

Lemma free_list_length p F :
  NoDup F -> Forall (is_slot p) F -> Z.of_nat (List.length F) <= slot_count p \/ slot_count p < 0.
Proof.
  intros Hnd Hall.
  assert (Hincl : incl F (all_slots p)).
  { intros a Ha. apply is_slot_all_slots. rewrite Forall_forall in Hall. apply Hall.
    apply list_elem_of_In. exact Ha. }
  assert (Hnd' : List.NoDup F) by (apply NoDup_ListNoDup; exact Hnd).
  pose proof (NoDup_incl_length Hnd' Hincl) as Hlen.
  unfold all_slots in Hlen. rewrite length_map, length_seq in Hlen. lia.
Qed.

Lemma pool_inv_length p F :
  pool_inv p F -> Z.of_nat (List.length F) <= slot_count p /\ slot_count p < 2 ^ 48.
Proof.
  intros (((Hc & Hbs & Hb8 & Hsz & Hst & Hst8 & Hend) & _) & Hnd & Hall & _).
  destruct (free_list_length p F Hnd Hall); [|lia].
  split; [assumption|]. nia.
Qed.

Lemma pool_inv_alloc_empty p : pool_inv p [] -> anam_alloc p = (ANAM_NULL, p).
Proof. intros (_ & _ & _ & Hc & _). apply anam_alloc_empty. exact Hc. Qed.

Lemma pool_inv_alloc p a F :
  pool_inv p (a :: F) ->
  anam_alloc p = (encode_handle (header_generation p a) a ANAM_STATE_LIVE, allocated p a)
  /\ pool_inv (allocated p a) F.
Proof.
  intros Hinv. pose proof (pool_inv_length p _ Hinv) as [Hlen Hcnt].
  destruct Hinv as (Hsane & Hnd & Hall & [Hh Hc] & Hfree).
  pose proof Hsane as (Hl & _).
  apply NoDup_cons in Hnd as [Hnotin Hnd].
  apply Forall_cons in Hall as [Ha Hall].
  destruct (slot_handle p a (header_generation p a) ANAM_STATE_FREE Hl Ha
              (header_generation_range p a)) as (_ & Hnn & Hd & _);
    [unfold ANAM_STATE_FREE; lia|].
  rewrite <- Hh in Hnn, Hd.
  split.
  - rewrite anam_alloc_pop, Hd; [reflexivity|].
    unfold anam_is_null in Hnn. apply Z.eqb_neq. exact Hnn.
  - split; [apply pool_sane_allocated; assumption|].
    split; [exact Hnd|]. split; [exact Hall|].
    split.
    + change (free_head (allocated p a)) with (header_next p a).
      apply (free_chain_frame p); [|exact Hc].
      intros b Hb. apply (other_slot_headers p (allocated p a) a b Hl Ha).
      * rewrite Forall_forall in Hall. apply Hall. exact Hb.
      * intros ->. contradiction.
      * apply allocated_frame; assumption.
    + change (slots_free (allocated p a)) with (wrap64 (slots_free p - 1)).
      rewrite Hfree. cbn [List.length] in *. rewrite wrap64_small; lia.
Qed.

Lemma pool_inv_release p a F :
  pool_inv p F -> is_slot p a -> a ∉ F -> pool_inv (released p a) (a :: F).
Proof.
  intros Hinv Ha Hnotin. pose proof (pool_inv_length p _ Hinv) as [Hlen Hcnt].
  destruct Hinv as (Hsane & Hnd & Hall & Hc & Hfree).
  pose proof Hsane as (Hl & Hr & _).
  split; [apply pool_sane_released; assumption|].
  split; [apply NoDup_cons; split; assumption|].
  split; [apply Forall_cons; split; assumption|].
  split.
  - cbn [free_chain]. rewrite released_header_generation, released_header_next
      by (apply (slot_range64 p a Hl Ha)).
    split; [reflexivity|]. rewrite wrap64_small by exact Hr.
    apply (free_chain_frame p); [|exact Hc].
    intros b Hb. apply (other_slot_headers p (released p a) a b Hl Ha).
    + rewrite Forall_forall in Hall. apply Hall. exact Hb.
    + intros ->. contradiction.
    + apply released_frame; assumption.
  - change (slots_free (released p a)) with (wrap64 (slots_free p + 1)).
    rewrite Hfree. cbn [List.length]. rewrite wrap64_small; lia.
Qed.

(* ================================================================== *)
(** ** Rounding up to an alignment *)

Lemma land_high_mask x k :
  0 <= x < 2 ^ 64 -> 0 <= k < 64 ->
  Z.land x (wrap64 (Z.lnot (wrap64 (2 ^ k - 1)))) = x / 2 ^ k * 2 ^ k.
Proof.
  intros Hx Hk.
  assert (Hp : 0 < 2 ^ k < 2 ^ 64).
  { split; [apply Z.pow_pos_nonneg; lia | apply Z.pow_lt_mono_r; lia]. }
  rewrite (wrap64_small (2 ^ k - 1)) by lia.
  replace (Z.lnot (2 ^ k - 1)) with (- 2 ^ k) by (unfold Z.lnot; lia).
  assert (Hm : wrap64 (- 2 ^ k) = Z.shiftl (Z.ones (64 - k)) k).
  { rewrite Z.shiftl_mul_pow2, Z.ones_equiv by lia.
    unfold wrap64.
    replace (Z.pred (2 ^ (64 - k)) * 2 ^ k) with (2 ^ 64 - 2 ^ k).
    - symmetry. apply Z.mod_unique with (q := -1); lia.
    - replace (2 ^ 64) with (2 ^ (64 - k) * 2 ^ k); [lia|].
      rewrite <- Z.pow_add_r by lia. f_equal. lia. }
  rewrite Hm, <- Z.shiftl_mul_pow2, <- Z.shiftr_div_pow2 by lia.
  apply Z.bits_inj'. intros i Hi.
  rewrite Z.land_spec, !Z.shiftl_spec by lia.
  destruct (Z.lt_ge_cases i k) as [Hlt|Hge].
  - rewrite (Z.testbit_neg_r (Z.ones (64 - k)) (i - k)) by lia.
    rewrite (Z.testbit_neg_r (Z.shiftr x k) (i - k)) by lia. apply andb_false_r.
  - rewrite Z.shiftr_spec by lia. replace (i - k + k) with i by lia.
    rewrite Z.testbit_ones by lia.
    destruct (Z.lt_ge_cases i 64) as [H64|H64].
    + destruct (Z.leb_spec 0 (i - k)), (Z.ltb_spec (i - k) (64 - k)); try lia.
      apply andb_true_r.
    + rewrite (testbit_above x 64 i) by lia. reflexivity.
Qed.

Lemma align_up_spec v al :
  is_pow2 al -> 0 <= v -> v + al <= 2 ^ 63 ->
  v <= align_up v al < v + al /\ align_up v al mod al = 0.
Proof.
  intros [k [Hk ->]] Hv Hb.
  assert (Hp : 0 < 2 ^ k) by (apply Z.pow_pos_nonneg; lia).
  assert (Hk64 : k < 64).
  { destruct (Z.lt_ge_cases k 64) as [H|H]; [exact H|].
    assert (2 ^ 64 <= 2 ^ k) by (apply Z.pow_le_mono_r; lia). lia. }
  unfold align_up. rewrite (wrap64_small (v + 2 ^ k - 1)) by lia.
  rewrite land_high_mask by lia.
  pose proof (Z.div_mod (v + 2 ^ k - 1) (2 ^ k) ltac:(lia)) as Hdm.
  pose proof (Z.mod_pos_bound (v + 2 ^ k - 1) (2 ^ k) Hp) as Hmb.
  split; [nia|]. apply Z.mod_mul. lia.
Qed.

Lemma pow2_ge8_mod8 al x : is_pow2 al -> 8 <= al -> x mod al = 0 -> x mod 8 = 0.
Proof.
  intros [k [Hk ->]] H8 Hx.
  assert (3 <= k).
  { destruct (Z.lt_ge_cases k 3) as [H|H]; [|exact H].
    assert (2 ^ k <= 2 ^ 2) by (apply Z.pow_le_mono_r; lia). lia. }
  apply Z.mod_divide in Hx; [|apply Z.pow_nonzero; lia].
  apply Z.mod_divide; [lia|].
  eapply Z.divide_trans; [|exact Hx].
  exists (2 ^ (k - 3)). change 8 with (2 ^ 3). rewrite <- Z.pow_add_r by lia.
  f_equal. lia.
Qed.

(* ================================================================== *)
(** ** Creation establishes the invariant *)

Lemma create_success env cfg p0 :
  0 <= cfg_alignment cfg < 2 ^ 64 ->
  anam_pool_create env (Some cfg) = Some p0 ->
  is_pow2 (create_alignment cfg)
  /\ 8 <= create_alignment cfg
  /\ p0 = init_slots (Z.to_nat (cfg_slot_count cfg))
            (create_struct env cfg
               (aligned_alloc env (create_alignment cfg) (create_total cfg))).
Proof.
  intros Hal. unfold anam_pool_create.
  destruct ((cfg_slot_size cfg =? 0) || (cfg_slot_count cfg =? 0)); [discriminate|].
  destruct (Z.eqb_spec (Z.land (create_alignment cfg) (wrap64 (create_alignment cfg - 1))) 0)
    as [Hl|Hl]; cbn [negb]; [|discriminate].
  destruct (Z.ltb_spec (create_alignment cfg) 8) as [H8|H8]; [discriminate|].
  destruct (calloc_ok env); cbn [negb]; [|discriminate].
  destruct (aligned_alloc env (create_alignment cfg) (create_total cfg) =? 0);
    [discriminate|].
  intros [= <-]. split; [|split; [exact H8 | reflexivity]].
  apply land_pred_pow2; [|exact Hl].
  unfold create_alignment in *.
  destruct (Z.eqb_spec (cfg_alignment cfg) 0); lia.
Qed.

Lemma create_layout env cfg :
  create_fits env cfg -> is_pow2 (create_alignment cfg) -> 8 <= create_alignment cfg ->
  layout (create_struct env cfg
            (aligned_alloc env (create_alignment cfg) (create_total cfg))).
Proof.
  intros (Hsz & Hcnt & Hal0 & Hmem & Hfit) Hpow H8.
  set (al := create_alignment cfg) in *.
  set (mem := aligned_alloc env al (create_total cfg)) in *.
  assert (Hprod : 0 < (16 + cfg_slot_size cfg + 2 * al + 8) * cfg_slot_count cfg) by nia.
  assert (Hprod2 : 16 + cfg_slot_size cfg + 2 * al + 8
                   <= (16 + cfg_slot_size cfg + 2 * al + 8) * cfg_slot_count cfg) by nia.
  assert (Hh : 16 <= align_up sizeof_SlotHeader al < 16 + al
               /\ align_up sizeof_SlotHeader al mod al = 0).
  { apply align_up_spec; [exact Hpow | unfold sizeof_SlotHeader; lia |
                          unfold sizeof_SlotHeader; lia]. }
  assert (Hu : cfg_slot_size cfg <= align_up (cfg_slot_size cfg) al < cfg_slot_size cfg + al
               /\ align_up (cfg_slot_size cfg) al mod al = 0).
  { apply align_up_spec; [exact Hpow | lia | lia]. }
  assert (Hs : align_up sizeof_SlotHeader al + align_up (cfg_slot_size cfg) al
               <= create_stride cfg
               < align_up sizeof_SlotHeader al + align_up (cfg_slot_size cfg) al + 8
               /\ create_stride cfg mod 8 = 0).
  { unfold create_stride. fold al. rewrite wrap64_small by lia.
    apply align_up_spec; [exact is_pow2_8 | lia | lia]. }
  assert (Hb : mem + 16 <= create_base cfg mem < mem + 16 + al
               /\ create_base cfg mem mod al = 0).
  { unfold create_base, sizeof_SlotHeader. fold al. rewrite wrap64_small by lia.
    apply align_up_spec; [exact Hpow | lia | lia]. }
  unfold layout. cbn [slot_count slots_base slot_size slot_stride create_struct].
  split; [exact Hcnt|]. split; [lia|].
  split; [apply (pow2_ge8_mod8 al); [exact Hpow | exact H8 | apply Hb]|].
  split; [exact Hsz|]. split; [lia|]. split; [apply Hs|].
  assert (cfg_slot_count cfg * create_stride cfg
          <= (16 + cfg_slot_size cfg + 2 * al + 8) * cfg_slot_count cfg) by nia.
  lia.
Qed.

Lemma init_slots_fields n p :
  slot_size (init_slots n p) = slot_size p
  /\ slot_stride (init_slots n p) = slot_stride p
  /\ slot_count (init_slots n p) = slot_count p
  /\ slots_base (init_slots n p) = slots_base p
  /\ zero_on_alloc (init_slots n p) = zero_on_alloc p
  /\ zero_on_release (init_slots n p) = zero_on_release p
  /\ slots_free (init_slots n p) = slots_free p
  /\ alloc_count (init_slots n p) = alloc_count p
  /\ release_count (init_slots n p) = release_count p
  /\ anamnesis_count (init_slots n p) = anamnesis_count p
  /\ generation_max (init_slots n p) = generation_max p.
Proof.
  revert p. induction n as [|k IH]; intros p; cbn [init_slots]; [repeat split|].
  destruct (IH (init_slot p (Z.of_nat k))) as (H1 & H2 & H3 & H4 & H5 & H6 & H7 & H8 & H9 & H10 & H11).
  rewrite H1, H2, H3, H4, H5, H6, H7, H8, H9, H10, H11. repeat split.
Qed.

Lemma slots_from_cons p k :
  Z.of_nat k < slot_count p ->
  slots_from p k = slot_addr p (Z.of_nat k) :: slots_from p (S k).
Proof.
  intros Hk. unfold slots_from.
  replace (Z.to_nat (slot_count p) - k)%nat with (S (Z.to_nat (slot_count p) - S k)) by lia.
  reflexivity.
Qed.

Lemma slots_from_is_slot p n a : a ∈ slots_from p n -> is_slot p a /\ exists i, (n <= i)%nat /\ a = slot_addr p (Z.of_nat i).
Proof.
  intros Ha. apply list_elem_of_In in Ha. unfold slots_from in Ha.
  apply in_map_iff in Ha as (i & <- & Hi). apply in_seq in Hi.
  split; [exists (Z.of_nat i); split; [lia | reflexivity]|].
  exists i. split; [lia | reflexivity].
Qed.

Lemma slot_addr_inj p i j :
  layout p -> slot_addr p i = slot_addr p j -> i = j.
Proof.
  intros (Hc & Hbs & Hb8 & Hsz & Hst & Hst8 & Hend) E. unfold slot_addr in E. nia.
Qed.

Lemma init_slot_step p k :
  Z.of_nat k < slot_count p -> init_pre p (S k) ->
  init_pre (init_slot p (Z.of_nat k)) k.
Proof.
  intros Hk (Hl & Hr & Hlk & Hc & Hrest).
  assert (Ha : is_slot p (slot_addr p (Z.of_nat k))) by (exists (Z.of_nat k); split; [lia | reflexivity]).
  set (a := slot_addr p (Z.of_nat k)) in *.
  destruct (slot_header_addresses p a Hl Ha) as (Hh & Hn & Hg).
  pose proof (slot_range64 p a Hl Ha) as Ha64.
  assert (Hidx : slot_from_index p (Z.of_nat k) = a) by (apply slot_from_index_plain; [exact Hl | lia]).
  set (p' := init_slot p (Z.of_nat k)).
  assert (Hheap : heap p' = store64 (store16 (heap p) (a - 8) 0) (a - 16) (free_head p)).
  { unfold p', init_slot. rewrite Hidx. pool_simpl. rewrite Hn, Hg. reflexivity. }
  assert (Hhead : free_head p' = encode_handle 0 a ANAM_STATE_FREE).
  { unfold p', init_slot. rewrite Hidx. reflexivity. }
  assert (Hframe : same_outside (heap p) (heap p') (a - 16) (a + slot_size p)).
  { rewrite Hheap. destruct Hl as (Hc0 & Hbs & Hb8 & Hsz & Hst & Hst8 & Hend).
    apply (same_outside_trans _ (store16 (heap p) (a - 8) 0)).
    - eapply same_outside_widen; [apply same_outside_store16 | lia | lia].
    - eapply same_outside_widen; [apply same_outside_store64 | lia | lia]. }
  assert (Hgen : header_generation p' a = 0).
  { unfold header_generation. rewrite Hg, Hheap.
    rewrite load16_store64_other by lia. apply load16_store16_same. }
  assert (Hnext : header_next p' a = free_head p).
  { unfold header_next. rewrite Hn, Hheap, load64_store64_same.
    apply wrap64_small. exact Hr. }
  destruct (slot_handle p a 0 ANAM_STATE_FREE Hl Ha) as (Hrange & _ & Hd & _);
    [lia | unfold ANAM_STATE_FREE; lia |].
  split; [exact Hl|]. split; [rewrite Hhead; exact Hrange|].
  split; [right; rewrite Hhead, Hd; exact Ha|].
  split.
  - change (slots_from p' k) with (slots_from p k).
    rewrite slots_from_cons by exact Hk. fold a. cbn [free_chain].
    rewrite Hgen, Hnext. split; [exact Hhead|].
    apply (free_chain_frame p); [|exact Hc].
    intros b Hb. apply slots_from_is_slot in Hb as (Hb & i & Hi & ->).
    apply (other_slot_headers p p' a _ Hl Ha Hb); [|exact Hframe].
    unfold a. intros E. apply (slot_addr_inj p _ _ Hl) in E. lia.
  - intros i Hi Hic'. change (slot_addr p' (Z.of_nat i)) with (slot_addr p (Z.of_nat i)).
    assert (Hic : Z.of_nat i < slot_count p) by exact Hic'.
    destruct (Nat.eq_dec i k) as [->|Hne].
    + fold a. rewrite Hgen, Hnext. split; [exact Hlk | reflexivity].
    + assert (Hb : is_slot p (slot_addr p (Z.of_nat i)))
        by (exists (Z.of_nat i); split; [lia | reflexivity]).
      destruct (other_slot_headers p p' a _ Hl Ha Hb) as [Hg' Hn']; [|exact Hframe|].
      * unfold a. intros E. apply (slot_addr_inj p _ _ Hl) in E. lia.
      * rewrite Hg', Hn'. apply Hrest; lia.
Qed.

Lemma init_slots_inv n p :
  Z.of_nat n <= slot_count p -> init_pre p n -> init_pre (init_slots n p) 0.
Proof.
  revert p. induction n as [|k IH]; intros p Hn Hpre; cbn [init_slots]; [exact Hpre|].
  apply IH.
  - change (slot_count (init_slot p (Z.of_nat k))) with (slot_count p). lia.
  - apply init_slot_step; [lia | exact Hpre].
Qed.

Lemma all_slots_NoDup p : layout p -> NoDup (all_slots p).
Proof.
  intros Hl. apply NoDup_ListNoDup. unfold all_slots.
  apply Finite.Injective_map_NoDup_in; [|apply seq_NoDup].
  intros i j _ _ E. apply (slot_addr_inj p _ _ Hl) in E. lia.
Qed.

Lemma all_slots_is_slot p a : a ∈ all_slots p <-> is_slot p a.
Proof.
  split.
  - intros Ha. apply (slots_from_is_slot p 0).
    unfold slots_from. rewrite Nat.sub_0_r. exact Ha.
  - intros Ha. apply list_elem_of_In. apply is_slot_all_slots. exact Ha.
Qed.

Lemma all_slots_length p : List.length (all_slots p) = Z.to_nat (slot_count p).
Proof. unfold all_slots. rewrite length_map, length_seq. reflexivity. Qed.

(** A pool that [anam_pool_create] returned, under the platform
    assumption: every slot is on the free list, in index order, with
    generation 0, and all the counters are zero. *)
Lemma create_inv env cfg p0 :
  create_fits env cfg ->
  anam_pool_create env (Some cfg) = Some p0 ->
  pool_inv p0 (all_slots p0)
  /\ (forall a, is_slot p0 a -> header_generation p0 a = 0)
  /\ slot_count p0 = cfg_slot_count cfg
  /\ slot_size p0 = cfg_slot_size cfg
  /\ zero_on_alloc p0 = cfg_zero_on_alloc cfg
  /\ zero_on_release p0 = cfg_zero_on_release cfg
  /\ alloc_count p0 = 0 /\ release_count p0 = 0
  /\ anamnesis_count p0 = 0 /\ generation_max p0 = 0.
Proof.
  intros Hfit Hcreate.
  pose proof Hfit as (Hsz & Hcnt & Hal0 & Hmem & Hbound).
  assert (Hal : 0 <= cfg_alignment cfg < 2 ^ 64).
  { split; [exact Hal0|].
    destruct (Z.eq_dec (cfg_alignment cfg) 0) as [E|NE]; [lia|].
    pose proof (create_alignment_nonzero cfg NE) as Eal.
    assert (16 + cfg_slot_size cfg + 2 * create_alignment cfg + 8
            <= (16 + cfg_slot_size cfg + 2 * create_alignment cfg + 8) * cfg_slot_count cfg)
      by nia.
    lia. }
  destruct (create_success env cfg p0 Hal Hcreate) as (Hpow & H8 & ->).
  set (mem := aligned_alloc env (create_alignment cfg) (create_total cfg)).
  set (ps := create_struct env cfg mem).
  pose proof (create_layout env cfg Hfit Hpow H8) as Hl. fold mem ps in Hl.
  assert (Hpre : init_pre ps (Z.to_nat (slot_count ps))).
  { split; [exact Hl|].
    split; [change (free_head ps) with ANAM_NULL; unfold ANAM_NULL; lia|].
    split; [left; reflexivity|].
    split.
    - unfold slots_from. rewrite Nat.sub_diag. reflexivity.
    - intros i Hi Hic. lia. }
  pose proof (proj1 Hl) as Hcount.
  apply init_slots_inv in Hpre; [|lia].
  change (slot_count ps) with (cfg_slot_count cfg) in Hpre.
  set (p0 := init_slots (Z.to_nat (cfg_slot_count cfg)) ps) in *.
  destruct (init_slots_fields (Z.to_nat (cfg_slot_count cfg)) ps)
    as (F1 & F2 & F3 & F4 & F5 & F6 & F7 & F8 & F9 & F10 & F11). fold p0 in F1, F2, F3, F4, F5, F6, F7, F8, F9, F10, F11.
  destruct Hpre as (Hl0 & Hr0 & Hlk0 & Hc0 & Hrest0).
  assert (Hslot : forall a, is_slot p0 a ->
            link_ok p0 (header_next p0 a) /\ header_generation p0 a = 0).
  { intros a (i & Hi & ->).
    replace i with (Z.of_nat (Z.to_nat i)) by lia. apply Hrest0; lia. }
  split; [|split; [intros a Ha; apply Hslot; exact Ha | repeat split; assumption]].
  split; [split; [exact Hl0|split; [exact Hr0|split; [exact Hlk0|]]]|].
  - intros a Ha. apply Hslot. exact Ha.
  - split; [apply all_slots_NoDup; exact Hl0|].
    split; [apply Forall_forall; intros a Ha; apply all_slots_is_slot; exact Ha|].
    split.
    + unfold slots_from in Hc0. rewrite Nat.sub_0_r in Hc0. exact Hc0.
    + rewrite all_slots_length, F7, F3. cbn. lia.
Qed.

(* ================================================================== *)
(** ** Handles of slots *)

Lemma slot_handle_authentic p a g :
  layout p -> is_slot p a -> header_generation p a = g ->
  authenticates p (encode_handle g a ANAM_STATE_LIVE).
Proof.
  intros Hl Ha Hg.
  assert (Hr : 0 <= g < 2 ^ 16) by (rewrite <- Hg; apply header_generation_range).
  destruct (slot_handle p a g ANAM_STATE_LIVE Hl Ha Hr) as (_ & Hnn & Hd & Hdg & Hs);
    [unfold ANAM_STATE_LIVE; lia|].
  split; [unfold anam_is_null in Hnn; apply Z.eqb_neq; exact Hnn|].
  split; [exact Hs|]. rewrite Hd.
  split; [apply in_pool_slot; assumption|].
  rewrite Hg. symmetry. exact Hdg.
Qed.

Lemma slot_handle_stale p a g :
  layout p -> is_slot p a -> 0 <= g < 2 ^ 16 -> header_generation p a <> g ->
  encode_handle g a ANAM_STATE_LIVE <> ANAM_NULL
  /\ ~ authenticates p (encode_handle g a ANAM_STATE_LIVE).
Proof.
  intros Hl Ha Hr Hg.
  destruct (slot_handle p a g ANAM_STATE_LIVE Hl Ha Hr) as (_ & Hnn & Hd & Hdg & Hs);
    [unfold ANAM_STATE_LIVE; lia|].
  split; [unfold anam_is_null in Hnn; apply Z.eqb_neq; exact Hnn|].
  intros (_ & _ & _ & E). rewrite Hd in E. apply Hg. rewrite E. exact Hdg.
Qed.

(* ================================================================== *)
(** ** Generation cycling on a single slot *)

Lemma cycle_step p a :
  pool_inv p [a] ->
  let g := header_generation p a in
  let h := encode_handle g a ANAM_STATE_LIVE in
  let p2 := released (allocated p a) a in
  anam_alloc p = (h, allocated p a)
  /\ anam_release (allocated p a) h = (true, p2)
  /\ pool_inv p2 [a]
  /\ header_generation p2 a = wrap16 (g + 1)
  /\ generation_max p2 = (if generation_max p <? g then g else generation_max p).
Proof.
  intros Hinv g h p2.
  pose proof Hinv as (Hsane & _ & Hall & _). pose proof Hsane as (Hl & _).
  apply Forall_cons in Hall as [Ha _].
  pose proof (slot_range64 p a Hl Ha) as Ha64.
  destruct (pool_inv_alloc p a [] Hinv) as [Halloc Hinv1].
  assert (Hg1 : header_generation (allocated p a) a = g)
    by (apply allocated_header_generation; exact Ha64).
  assert (Hauth : authenticates (allocated p a) h)
    by (apply slot_handle_authentic; assumption).
  assert (Hd : decode_addr h = a).
  { apply (slot_handle p a g ANAM_STATE_LIVE Hl Ha (header_generation_range p a)).
    unfold ANAM_STATE_LIVE. lia. }
  split; [exact Halloc|].
  split; [rewrite anam_release_authentic by exact Hauth; rewrite Hd; reflexivity|].
  split; [apply pool_inv_release; [exact Hinv1 | exact Ha | apply not_elem_of_nil]|].
  split; [unfold p2; rewrite released_header_generation by exact Ha64; rewrite Hg1; reflexivity|].
  reflexivity.
Qed.

Lemma cycle_loop_spec n : forall p a g,
  pool_inv p [a] -> header_generation p a = g -> generation_max p <= g ->
  g + Z.of_nat n <= 65535 ->
  let hs := fst (cycle_loop n p) in
  let p' := snd (cycle_loop n p) in
  hs = map (fun i => encode_handle (g + Z.of_nat i) a ANAM_STATE_LIVE) (seq 0 n)
  /\ pool_inv p' [a]
  /\ header_generation p' a = g + Z.of_nat n
  /\ generation_max p' = (if Nat.eqb n 0 then generation_max p else g + Z.of_nat n - 1).
Proof.
  induction n as [|k IH]; intros p a g Hinv Hg Hmax Hbound.
  - cbn [cycle_loop fst snd seq map Nat.eqb]. rewrite Z.add_0_r. auto.
  - destruct (cycle_step p a Hinv) as (Halloc & Hrel & Hinv2 & Hg2 & Hmax2).
    rewrite Hg in Halloc, Hrel, Hg2, Hmax2.
    pose proof (header_generation_range p a) as Hgr. rewrite Hg in Hgr.
    rewrite wrap16_small in Hg2 by lia.
    destruct (Z.ltb_spec (generation_max p) g) as [Hlt|Hge].
    + specialize (IH _ a (g + 1) Hinv2 Hg2 ltac:(lia) ltac:(lia)).
      cbn [cycle_loop]. rewrite Halloc, Hrel. cbn [snd].
      destruct (cycle_loop k (released (allocated p a) a)) as [hs p'] eqn:Hloop.
      cbn [fst snd] in *. destruct IH as (Hhs & Hinv' & Hg' & Hmax').
      split.
      * rewrite Hhs. cbn [seq map]. rewrite Z.add_0_r. f_equal.
        rewrite <- seq_shift, map_map. apply map_ext. intros i. f_equal. lia.
      * split; [exact Hinv'|]. split; [lia|].
        rewrite Hmax', Hmax2. cbn [Nat.eqb]. destruct (Nat.eqb_spec k 0); lia.
    + specialize (IH _ a (g + 1) Hinv2 Hg2 ltac:(lia) ltac:(lia)).
      cbn [cycle_loop]. rewrite Halloc, Hrel. cbn [snd].
      destruct (cycle_loop k (released (allocated p a) a)) as [hs p'] eqn:Hloop.
      cbn [fst snd] in *. destruct IH as (Hhs & Hinv' & Hg' & Hmax').
      split.
      * rewrite Hhs. cbn [seq map]. rewrite Z.add_0_r. f_equal.
        rewrite <- seq_shift, map_map. apply map_ext. intros i. f_equal. lia.
      * split; [exact Hinv'|]. split; [lia|].
        rewrite Hmax', Hmax2. cbn [Nat.eqb]. destruct (Nat.eqb_spec k 0); lia.
Qed.

Lemma validate_stale p a g :
  layout p -> is_slot p a -> 0 <= g < 2 ^ 16 -> header_generation p a <> g ->
  anam_validate p (encode_handle g a ANAM_STATE_LIVE) = (false, bump_anamnesis p).
Proof.
  intros Hl Ha Hr Hg. unfold anam_validate.
  destruct (slot_handle_stale p a g Hl Ha Hr Hg) as [Hnn Hna].
  rewrite anam_get_counterfeit by assumption. reflexivity.
Qed.

Lemma validate_all_stale a G : forall gs p,
  layout p -> is_slot p a -> header_generation p a = G ->
  Forall (fun g => 0 <= g < 2 ^ 16 /\ g <> G) gs ->
  fst (validate_all p (map (fun g => encode_handle g a ANAM_STATE_LIVE) gs))
  = replicate (List.length gs) false.
Proof.
  induction gs as [|g gs IH]; intros p Hl Ha HG Hall; [reflexivity|].
  apply Forall_cons in Hall as [[Hr Hne] Hall].
  cbn [map validate_all]. rewrite validate_stale by (assumption || lia).
  specialize (IH (bump_anamnesis p) Hl Ha HG Hall).
  destruct (validate_all (bump_anamnesis p) _) as [bs p'].
  cbn [fst List.length replicate] in *. rewrite IH. reflexivity.
Qed.

Lemma map_lookup_Some {A B : Type} (f : A -> B) (l : list A) (i : nat) (y : B) :
  map f l !! i = Some y -> exists x, l !! i = Some x /\ y = f x.
Proof.
  revert i. induction l as [|x l IH]; intros i H; [destruct i; discriminate|].
  destruct i as [|i]; cbn in H.
  - injection H as <-. exists x. split; reflexivity.
  - apply IH in H. exact H.
Qed.

(** C4.  On a pool created with one slot, 1000 rounds of allocate and
    release give handles whose generation field is the round number; the
    statistics then report [generation_max = 999]; and [anam_validate]
    returns false on each of the handles of rounds 0 to 998, asked one
    after the other or on its own. *)
Theorem generation_cycling (env : AllocEnv) (cfg : AnamPoolConfig) (p0 : AnamPool) :
  cfg_slot_count cfg = 1 ->
  create_fits env cfg ->
  anam_pool_create env (Some cfg) = Some p0 ->
  let hs := fst (cycle_loop 1000 p0) in
  let p := snd (cycle_loop 1000 p0) in
  List.length hs = 1000%nat
  /\ (forall i h, hs !! i = Some h -> h <> ANAM_NULL /\ anam_generation h = Z.of_nat i)
  /\ st_generation_max (anam_pool_stats p) = 999
  /\ (forall j h, (j < 999)%nat -> hs !! j = Some h -> fst (anam_validate p h) = false)
  /\ fst (validate_all p (take 999 hs)) = replicate 999 false.
Proof.
  intros Hone Hfit Hcreate hs p.
  destruct (create_inv env cfg p0 Hfit Hcreate)
    as (Hinv & Hgen0 & Hcnt & _ & _ & _ & _ & _ & _ & Hmax0).
  assert (Hslots : all_slots p0 = [slot_addr p0 0]).
  { unfold all_slots. rewrite Hcnt, Hone. reflexivity. }
  rewrite Hslots in Hinv. set (a := slot_addr p0 0) in *.
  pose proof Hinv as (Hsane & _ & Hall & _). pose proof Hsane as (Hl0 & _).
  apply Forall_cons in Hall as [Ha0 _].
  destruct (cycle_loop_spec 1000 p0 a 0 Hinv (Hgen0 a Ha0) ltac:(lia) ltac:(lia))
    as (Hhs & Hinv' & Hg' & Hmax').
  fold hs p in Hhs, Hinv', Hg', Hmax'.
  pose proof Hinv' as (Hsane' & _ & Hall' & _). pose proof Hsane' as (Hl & _).
  apply Forall_cons in Hall' as [Ha _].
  assert (Hlookup : forall i h, hs !! i = Some h ->
            (i < 1000)%nat /\ h = encode_handle (Z.of_nat i) a ANAM_STATE_LIVE).
  { intros i h Hi. rewrite Hhs in Hi.
    apply map_lookup_Some in Hi as (j & Hj & ->).
    apply lookup_seq in Hj as [-> Hlt].
    split; [exact Hlt | reflexivity]. }
  split; [rewrite Hhs, length_map, length_seq; reflexivity|].
  split.
  { intros i h Hi. apply Hlookup in Hi as [Hlt ->].
    destruct (slot_handle p a (Z.of_nat i) ANAM_STATE_LIVE Hl Ha) as (_ & Hnn & _ & Hdg & _);
      [lia | unfold ANAM_STATE_LIVE; lia |].
    split; [unfold anam_is_null in Hnn; apply Z.eqb_neq; exact Hnn | exact Hdg]. }
  split; [cbn [anam_pool_stats st_generation_max]; rewrite Hmax'; reflexivity|].
  split.
  { intros j h Hj Hh. apply Hlookup in Hh as [_ ->].
    rewrite validate_stale by (assumption || lia). reflexivity. }
  rewrite Hhs, firstn_map.
  change (take 999 (seq 0 1000)) with (seq 0 999).
  rewrite <- (map_map (fun i => 0 + Z.of_nat i)
                (fun g => encode_handle g a ANAM_STATE_LIVE)).
  rewrite (validate_all_stale a 1000); try assumption.
  - rewrite length_map, length_seq. reflexivity.
  - apply Forall_forall. intros g Hg.
    apply list_elem_of_In, in_map_iff in Hg as (i & <- & Hi').
    apply in_seq in Hi'. lia.
Qed.

Lemma demo_env_fits size count :
  0 < size -> 0 < count -> 4096 + 16 + 8 + (16 + size + 2 * 8 + 8) * count <= 2 ^ 48 ->
  create_fits demo_env (mk_config size count 0).
Proof.
  intros Hs Hc Hb. unfold create_fits.
  change (create_alignment (mk_config size count 0)) with 8.
  cbn [cfg_slot_size cfg_slot_count cfg_alignment mk_config aligned_alloc demo_env].
  repeat split; lia.
Qed.

Lemma single_pool_created :
  anam_pool_create demo_env (Some (mk_config 64 1 0)) = Some single_pool.
Proof. vm_compute. reflexivity. Qed.

Lemma demo_pool_created :
  anam_pool_create demo_env (Some (mk_config 64 10 0)) = Some demo_pool.
Proof. vm_compute. reflexivity. Qed.

Lemma generation_cycling_witness :
  let hs := fst (cycle_loop 1000 single_pool) in
  let p := snd (cycle_loop 1000 single_pool) in
  List.length hs = 1000%nat
  /\ (forall i h, hs !! i = Some h -> h <> ANAM_NULL /\ anam_generation h = Z.of_nat i)
  /\ st_generation_max (anam_pool_stats p) = 999
  /\ (forall j h, (j < 999)%nat -> hs !! j = Some h -> fst (anam_validate p h) = false)
  /\ fst (validate_all p (take 999 hs)) = replicate 999 false.
Proof.
  apply (generation_cycling demo_env (mk_config 64 1 0) single_pool).
  - reflexivity.
  - apply demo_env_fits; lia.
  - exact single_pool_created.
Defined.

(* ================================================================== *)
(** ** Runs: what one operation does *)


Lemma release_cases p h :
  anam_release p h = (false, p)
  \/ anam_release p h = (false, bump_anamnesis p)
  \/ (authenticates p h /\ anam_release p h = (true, released p (decode_addr h))).
Proof.
  destruct (Z.eq_dec h ANAM_NULL) as [->|NE]; [left; apply anam_release_null|].
  destruct (authenticates_dec p h) as [Ha|Hna].
  - right; right. split; [exact Ha | apply anam_release_authentic; exact Ha].
  - right; left. apply anam_release_counterfeit; assumption.
Qed.

Lemma get_cases p h :
  anam_get p h = (decode_addr h, p) \/ anam_get p h = (0, p)
  \/ anam_get p h = (0, bump_anamnesis p).
Proof.
  destruct (Z.eq_dec h ANAM_NULL) as [->|NE]; [right; left; apply anam_get_null|].
  destruct (authenticates_dec p h) as [Ha|Hna].
  - left. apply anam_get_authentic. exact Ha.
  - right; right. apply anam_get_counterfeit; assumption.
Qed.

Lemma mem_handle_In h l : mem_handle h l = true <-> In h l.
Proof.
  unfold mem_handle. rewrite existsb_exists. split.
  - intros (x & Hx & E). apply Z.eqb_eq in E. subst. exact Hx.
  - intros H. exists h. split; [exact H | apply Z.eqb_refl].
Qed.







Lemma run_app p ops1 ops2 : run p (ops1 ++ ops2) = run (run p ops1) ops2.
Proof. unfold run. apply fold_left_app. Qed.

Lemma run_cons p o ops : run p (o :: ops) = run (step p o) ops.
Proof. reflexivity. Qed.

(* ================================================================== *)
(** ** Double release *)



(* ================================================================== *)
(** ** Disciplined runs keep the free list and the counters exact *)

Lemma tracked_bump p F L : tracked p F L -> tracked (bump_anamnesis p) F L.
Proof.
  intros ((Hsane & Hnd & Hall & Hc & Hfree) & Hcnt & HndL & HallL).
  split; [|split; [exact Hcnt | split; [exact HndL | exact HallL]]].
  split; [exact Hsane|]. split; [exact Hnd|]. split; [exact Hall|].
  split; [|exact Hfree].
  apply (free_chain_frame p); [|exact Hc]. intros b _. split; reflexivity.
Qed.

Lemma counters_allocated p a : counters_inv p -> counters_inv (allocated p a).
Proof.
  intros (Ha & Hr & Hm). unfold counters_inv, allocated. pool_simpl.
  split; [apply wrap64_range|]. split; [exact Hr|].
  apply Z.mod_divide; [lia|]. apply Z.mod_divide in Hm; [|lia]. destruct Hm as [k Hk].
  unfold wrap64.
  pose proof (Z.div_mod (alloc_count p + 1) (2 ^ 64) ltac:(lia)) as H1.
  pose proof (Z.div_mod (slots_free p - 1) (2 ^ 64) ltac:(lia)) as H2.
  exists (k - (alloc_count p + 1) / 2 ^ 64 - (slots_free p - 1) / 2 ^ 64). lia.
Qed.

Lemma counters_released p a : counters_inv p -> counters_inv (released p a).
Proof.
  intros (Ha & Hr & Hm). unfold counters_inv, released. pool_simpl.
  split; [exact Ha|]. split; [apply wrap64_range|].
  apply Z.mod_divide; [lia|]. apply Z.mod_divide in Hm; [|lia]. destruct Hm as [k Hk].
  unfold wrap64.
  pose proof (Z.div_mod (release_count p + 1) (2 ^ 64) ltac:(lia)) as H1.
  pose proof (Z.div_mod (slots_free p + 1) (2 ^ 64) ltac:(lia)) as H2.
  exists (k + (release_count p + 1) / 2 ^ 64 - (slots_free p + 1) / 2 ^ 64). lia.
Qed.

Lemma authenticates_other p p' a l :
  layout p -> is_slot p a -> is_slot p (decode_addr l) -> decode_addr l <> a ->
  same_outside (heap p) (heap p') (a - 16) (a + slot_size p) ->
  (forall x, in_pool p' x = in_pool p x) ->
  authenticates p l -> authenticates p' l.
Proof.
  intros Hl Ha Hb Hne Hframe Hin (Hnn & Hs & Hi & Hg).
  split; [exact Hnn|]. split; [exact Hs|]. split; [rewrite Hin; exact Hi|].
  destruct (other_slot_headers p p' a _ Hl Ha Hb (not_eq_sym Hne) Hframe) as [Hg' _].
  rewrite Hg'. exact Hg.
Qed.

Lemma NoDup_map_inj_in {A B : Type} (f : A -> B) (l : list A) x y :
  NoDup (map f l) -> In x l -> In y l -> f x = f y -> x = y.
Proof.
  induction l as [|z l IH]; intros Hnd Hx Hy E; [destruct Hx|].
  cbn [map] in Hnd. apply NoDup_cons in Hnd as [Hz Hnd].
  destruct Hx as [->|Hx], Hy as [->|Hy]; try reflexivity.
  - exfalso. apply Hz. rewrite E. apply list_elem_of_In, in_map. exact Hy.
  - exfalso. apply Hz. rewrite <- E. apply list_elem_of_In, in_map. exact Hx.
  - apply IH; assumption.
Qed.

Lemma NoDup_map_filter {A B : Type} (f : A -> B) (P : A -> bool) (l : list A) :
  NoDup (map f l) -> NoDup (map f (List.filter P l)).
Proof.
  induction l as [|z l IH]; intros Hnd; [exact Hnd|].
  cbn [map] in Hnd. apply NoDup_cons in Hnd as [Hz Hnd].
  cbn [List.filter]. destruct (P z); [|apply IH; exact Hnd].
  cbn [map]. apply NoDup_cons. split; [|apply IH; exact Hnd].
  intros Hin. apply Hz. apply list_elem_of_In in Hin. apply list_elem_of_In.
  apply in_map_iff in Hin as (x & Hx & Hin). apply in_map_iff.
  exists x. split; [exact Hx|]. apply filter_In in Hin. apply Hin.
Qed.

Lemma tracked_alloc p a F L :
  tracked p (a :: F) L ->
  anam_alloc p = (encode_handle (header_generation p a) a ANAM_STATE_LIVE, allocated p a)
  /\ anam_is_null (encode_handle (header_generation p a) a ANAM_STATE_LIVE) = false
  /\ tracked (allocated p a) F
       (encode_handle (header_generation p a) a ANAM_STATE_LIVE :: L).
Proof.
  intros (Hinv & Hcnt & Hnd & Hall).
  destruct (pool_inv_alloc p a F Hinv) as [Halloc Hinv'].
  pose proof Hinv as ((Hl & _) & HndF & HallF & _).
  apply NoDup_cons in HndF as [HaF HndF].
  apply Forall_cons in HallF as [Ha HallF].
  pose proof (slot_range64 p a Hl Ha) as Ha64.
  destruct (slot_handle p a (header_generation p a) ANAM_STATE_LIVE Hl Ha
              (header_generation_range p a)) as (_ & Hnn & Hd & _);
    [unfold ANAM_STATE_LIVE; lia|].
  split; [exact Halloc|]. split; [exact Hnn|].
  split; [exact Hinv'|]. split; [apply counters_allocated; exact Hcnt|].
  rewrite Forall_forall in Hall.
  split.
  - cbn [map]. rewrite Hd. apply NoDup_cons. split; [|exact Hnd].
    intros Hin. apply list_elem_of_In, in_map_iff in Hin as (l & Hl' & Hin).
    destruct (Hall l) as (_ & Hnot & _); [apply list_elem_of_In; exact Hin|].
    apply Hnot. rewrite Hl'. apply list_elem_of_here.
  - apply Forall_cons. split.
    + rewrite Hd. split; [exact Ha|]. split; [exact HaF|].
      apply slot_handle_authentic; [exact Hl | exact Ha |].
      apply allocated_header_generation. exact Ha64.
    + apply Forall_forall. intros l Hin. destruct (Hall l Hin) as (Hs & Hnot & Hauth).
      split; [exact Hs|].
      split; [intros Hin'; apply Hnot; apply list_elem_of_further; exact Hin'|].
      apply (authenticates_other p (allocated p a) a l Hl Ha Hs).
      * intros E. apply Hnot. rewrite E. apply list_elem_of_here.
      * apply allocated_frame; assumption.
      * reflexivity.
      * exact Hauth.
Qed.

Lemma tracked_release p F L h :
  tracked p F L -> In h L ->
  anam_release p h = (true, released p (decode_addr h))
  /\ tracked (released p (decode_addr h)) (decode_addr h :: F) (remove_handle h L).
Proof.
  intros (Hinv & Hcnt & Hnd & Hall) Hin.
  pose proof Hinv as ((Hl & _) & _).
  rewrite Forall_forall in Hall.
  destruct (Hall h) as (Ha & HaF & Hauth); [apply list_elem_of_In; exact Hin|].
  set (a := decode_addr h) in *.
  split; [apply anam_release_authentic; exact Hauth|].
  split; [apply pool_inv_release; assumption|].
  split; [apply counters_released; exact Hcnt|].
  split; [apply NoDup_map_filter; exact Hnd|].
  apply Forall_forall. intros l Hl'. apply list_elem_of_In in Hl'.
  unfold remove_handle in Hl'. apply filter_In in Hl' as [Hl' Hne].
  apply negb_true_iff, Z.eqb_neq in Hne.
  destruct (Hall l) as (Hs & Hnot & Hauth'); [apply list_elem_of_In; exact Hl'|].
  assert (Hda : decode_addr l <> a).
  { intros E. apply Hne. apply (NoDup_map_inj_in decode_addr L); assumption. }
  split; [exact Hs|]. split.
  - intros Hin'. apply elem_of_cons in Hin' as [E|Hin']; [contradiction | contradiction].
  - apply (authenticates_other p (released p a) a l Hl Ha Hs Hda).
    + apply released_frame; assumption.
    + reflexivity.
    + exact Hauth'.
Qed.

Lemma tracked_step p F L o :
  tracked p F L -> disciplined p L [o] = true ->
  exists F', tracked (step p o) F' (held_after p L [o]).
Proof.
  intros Ht Hd. destruct o as [|h|h]; cbn [step held_after disciplined] in *.
  - destruct F as [|a F].
    + destruct Ht as (Hinv & Hrest).
      rewrite (pool_inv_alloc_empty p Hinv). cbn [fst snd].
      exists []. split; assumption.
    + destruct (tracked_alloc p a F L Ht) as (E & Hnn & Ht').
      rewrite E. cbn [fst snd]. rewrite Hnn. exists F. exact Ht'.
  - destruct (mem_handle h L) eqn:Hm.
    + apply mem_handle_In in Hm.
      destruct (tracked_release p F L h Ht Hm) as [E Ht'].
      rewrite E. cbn [snd]. eexists. exact Ht'.
    + apply andb_true_iff in Hd as [Hrej _]. apply negb_true_iff in Hrej.
      destruct (release_cases p h) as [E|[E|[_ E]]]; rewrite E in *; cbn [fst snd] in *.
      * exists F. exact Ht.
      * exists F. apply tracked_bump. exact Ht.
      * discriminate.
  - destruct (get_cases p h) as [E|[E|E]]; rewrite E; cbn [snd]; exists F;
      [exact Ht | exact Ht | apply tracked_bump; exact Ht].
Qed.

Lemma disciplined_cons p L o rest :
  disciplined p L (o :: rest) = true ->
  disciplined p L [o] = true
  /\ disciplined (step p o) (held_after p L [o]) rest = true.
Proof.
  destruct o as [|h|h]; cbn [disciplined held_after step]; intros H.
  - split; [reflexivity | exact H].
  - destruct (mem_handle h L); [split; [reflexivity | exact H]|].
    apply andb_true_iff in H as [H1 H2]. rewrite H1. split; [reflexivity | exact H2].
  - split; [reflexivity | exact H].
Qed.

Lemma held_after_cons p L o rest :
  held_after p L (o :: rest) = held_after (step p o) (held_after p L [o]) rest.
Proof. destruct o; reflexivity. Qed.

Lemma tracked_run ops : forall p F L,
  tracked p F L -> disciplined p L ops = true ->
  exists F', tracked (run p ops) F' (held_after p L ops).
Proof.
  induction ops as [|o ops IH]; intros p F L Ht Hd.
  - exists F. exact Ht.
  - apply disciplined_cons in Hd as [Ho Hrest].
    destruct (tracked_step p F L o Ht Ho) as (F1 & Ht1).
    destruct (IH _ _ _ Ht1 Hrest) as (F' & Ht').
    exists F'. rewrite held_after_cons. exact Ht'.
Qed.

(* ================================================================== *)
(** ** The free-list snapshot *)

Lemma count_true_insert (bm : list bool) (i : nat) :
  bm !! i = Some false -> count_true (<[i := true]> bm) = count_true bm + 1.
Proof.
  revert i. induction bm as [|b bm IH]; intros i H; [destruct i; discriminate|].
  destruct i as [|i]; cbn in H.
  - injection H as ->. cbn. lia.
  - cbn [count_true]. change (<[S i:=true]> (b :: bm)) with (b :: <[i:=true]> bm).
    cbn [count_true]. rewrite IH by exact H. lia.
Qed.

Lemma count_true_replicate n : count_true (replicate n false) = 0.
Proof. induction n as [|n IH]; cbn; [reflexivity | exact IH]. Qed.

Lemma slot_index p i :
  layout p -> 0 <= i < slot_count p ->
  wrap64 (slot_addr p i - slots_base p) / slot_stride p = i.
Proof.
  intros (Hc & Hbs & Hb8 & Hsz & Hst & Hst8 & Hend) Hi. unfold slot_addr.
  replace (slots_base p + i * slot_stride p - slots_base p) with (i * slot_stride p) by lia.
  assert (0 <= i * slot_stride p) by nia.
  assert (i * slot_stride p <= slot_count p * slot_stride p) by nia.
  rewrite wrap64_small by lia. apply Z.div_mul. lia.
Qed.

Lemma free_walk_chain p : forall F h bm fuel,
  layout p -> free_chain p h F -> NoDup F -> Forall (is_slot p) F ->
  (forall i, 0 <= i < slot_count p -> slot_addr p i ∈ F -> bm !! Z.to_nat i = Some false) ->
  (List.length F < fuel)%nat ->
  exists bm', free_walk fuel p h bm = Some bm'
    /\ count_true bm' = count_true bm + Z.of_nat (List.length F).
Proof.
  induction F as [|a F IH]; intros h bm fuel Hl Hc Hnd Hall Hbm Hfuel.
  - cbn [free_chain] in Hc. subst h. destruct fuel as [|k]; [cbn in Hfuel; lia|].
    exists bm. split; [reflexivity | cbn; lia].
  - destruct fuel as [|k]; [cbn in Hfuel; lia|].
    cbn [free_chain] in Hc. destruct Hc as [Hh Hc].
    apply NoDup_cons in Hnd as [HaF Hnd].
    apply Forall_cons in Hall as [Ha Hall].
    destruct (slot_handle p a (header_generation p a) ANAM_STATE_FREE Hl Ha
                (header_generation_range p a)) as (_ & Hnn & Hd & _);
      [unfold ANAM_STATE_FREE; lia|].
    rewrite <- Hh in Hnn, Hd.
    pose proof Ha as (i & Hi & Hai).
    cbn [free_walk]. rewrite Hnn, Hd, (in_pool_slot p a Hl Ha). cbn [negb].
    rewrite Hai, (slot_index p i Hl Hi), <- Hai.
    destruct (Z.leb_spec (slot_count p) i); [lia|].
    rewrite (Hbm i Hi) by (rewrite <- Hai; apply list_elem_of_here).
    fold (header_next p a).
    destruct (IH (header_next p a) (<[Z.to_nat i := true]> bm) k Hl Hc Hnd Hall)
      as (bm' & Hw & Hcount).
    + intros j Hj Hin.
      rewrite list_lookup_insert_ne.
      * apply Hbm; [exact Hj | apply list_elem_of_further; exact Hin].
      * intros E. assert (i = j) by lia. subst j. apply HaF. rewrite Hai. exact Hin.
    + cbn [List.length] in Hfuel. lia.
    + exists bm'. split; [exact Hw|].
      rewrite Hcount, count_true_insert.
      * cbn [List.length]. lia.
      * apply Hbm; [exact Hi | rewrite <- Hai; apply list_elem_of_here].
Qed.

Lemma free_reachable_inv p F :
  pool_inv p F -> free_reachable p = Some (Z.of_nat (List.length F)).
Proof.
  intros Hinv. pose proof (pool_inv_length p F Hinv) as [Hlen _].
  destruct Hinv as ((Hl & _) & Hnd & Hall & Hc & _).
  unfold free_reachable, free_snapshot.
  destruct (free_walk_chain p F (free_head p)
              (replicate (Z.to_nat (slot_count p)) false)
              (S (Z.to_nat (slot_count p))) Hl Hc Hnd Hall) as (bm' & Hw & Hcount).
  - intros i Hi _. apply lookup_replicate_2. lia.
  - lia.
  - rewrite Hw, Hcount, count_true_replicate. reflexivity.
Qed.

(* ================================================================== *)
(** ** Conservation *)

(** C5, as the code has it.  After any disciplined run on a created pool
    (every release that the pool accepts is of a handle obtained from
    [anam_alloc] and not released since), the statistics satisfy:
    [alloc_count - release_count], in [size_t] arithmetic, equals
    [slots_live]; [slots_live] equals [slot_count - slots_free]; and
    [slots_free] is the number of slots reachable from [free_head]. *)
Theorem conservation (env : AllocEnv) (cfg : AnamPoolConfig) (p0 : AnamPool)
    (ops : list op) :
  create_fits env cfg ->
  anam_pool_create env (Some cfg) = Some p0 ->
  disciplined p0 [] ops = true ->
  let st := anam_pool_stats (run p0 ops) in
  wrap64 (st_alloc_count st - st_release_count st) = st_slots_live st
  /\ st_slots_live st = st_slot_count st - st_slots_free st
  /\ free_reachable (run p0 ops) = Some (st_slots_free st).
Proof.
  intros Hfit Hcreate Hdis st.
  destruct (create_inv env cfg p0 Hfit Hcreate)
    as (Hinv0 & _ & _ & _ & _ & _ & Hac & Hrc & _ & _).
  assert (Ht0 : tracked p0 (all_slots p0) []).
  { split; [exact Hinv0|]. split.
    - pose proof (pool_inv_length p0 _ Hinv0) as [Hlen Hcnt].
      destruct Hinv0 as ((Hl & _) & _ & _ & _ & Hfree).
      rewrite all_slots_length in Hfree.
      unfold counters_inv. rewrite Hac, Hrc, Hfree.
      destruct Hl as (Hc & _).
      split; [lia|]. split; [lia|].
      replace (0 - 0 + Z.of_nat (Z.to_nat (slot_count p0)) - slot_count p0) with 0 by lia.
      reflexivity.
    - split; [apply NoDup_nil_2 | apply Forall_nil_2]. }
  destruct (tracked_run ops p0 _ _ Ht0 Hdis) as (F & Hinv & (Ha & Hr & Hm) & _).
  set (p := run p0 ops) in *.
  pose proof (pool_inv_length p F Hinv) as [Hlen Hcnt].
  pose proof (free_reachable_inv p F Hinv) as Hreach.
  destruct Hinv as ((Hl & _) & _ & _ & _ & Hfree).
  destruct Hl as (Hc & _).
  unfold st. cbn [anam_pool_stats st_alloc_count st_release_count st_slots_live
                  st_slot_count st_slots_free].
  rewrite Hreach, Hfree.
  assert (Hlive : wrap64 (slot_count p - Z.of_nat (List.length F))
                  = slot_count p - Z.of_nat (List.length F))
    by (apply wrap64_small; lia).
  split; [|split; [exact Hlive | reflexivity]].
  rewrite Hlive. rewrite Hfree in Hm.
  apply Z.mod_divide in Hm; [|lia]. destruct Hm as [k Hk].
  unfold wrap64. symmetry. apply Z.mod_unique with (q := k); lia.
Qed.

Lemma conservation_witness :
  let st := anam_pool_stats
              (run demo_pool [OpAlloc; OpAlloc; OpRelease 4113; OpRelease 4113;
                              OpGet 4113; OpAlloc]) in
  wrap64 (st_alloc_count st - st_release_count st) = st_slots_live st
  /\ st_slots_live st = st_slot_count st - st_slots_free st
  /\ free_reachable
       (run demo_pool [OpAlloc; OpAlloc; OpRelease 4113; OpRelease 4113;
                       OpGet 4113; OpAlloc])
     = Some (st_slots_free st).
Proof.
  apply (conservation demo_env (mk_config 64 10 0) demo_pool
           [OpAlloc; OpAlloc; OpRelease 4113; OpRelease 4113; OpGet 4113; OpAlloc]).
  - apply demo_env_fits; lia.
  - exact demo_pool_created.
  - vm_compute. reflexivity.
Defined.

(* ================================================================== *)
(** ** A release accepted for a slot that is already free *)

Lemma run_cycle_ops n : forall p a g,
  pool_inv p [a] -> header_generation p a = Z.of_nat g ->
  Z.of_nat g + Z.of_nat n <= 65536 ->
  pool_inv (run p (cycle_ops a g n)) [a]
  /\ header_generation (run p (cycle_ops a g n)) a = wrap16 (Z.of_nat g + Z.of_nat n)
  /\ slot_count (run p (cycle_ops a g n)) = slot_count p.
Proof.
  induction n as [|k IH]; intros p a g Hinv Hg Hbound.
  - cbn [cycle_ops seq flat_map run fold_left]. rewrite Z.add_0_r.
    split; [exact Hinv|]. split; [|reflexivity].
    rewrite Hg. symmetry. apply wrap16_small. rewrite <- Hg. apply header_generation_range.
  - destruct (cycle_step p a Hinv) as (Halloc & Hrel & Hinv2 & Hg2 & _).
    rewrite Hg in Halloc, Hrel, Hg2.
    assert (Hrun : run p (cycle_ops a g (S k))
                   = run (released (allocated p a) a) (cycle_ops a (S g) k)).
    { change (cycle_ops a g (S k))
        with (OpAlloc :: OpRelease (encode_handle (Z.of_nat g) a ANAM_STATE_LIVE)
              :: cycle_ops a (S g) k).
      rewrite !run_cons. cbn [step]. rewrite Halloc. cbn [snd]. rewrite Hrel.
      reflexivity. }
    rewrite Hrun.
    destruct k as [|k'].
    + cbn [cycle_ops seq flat_map run fold_left].
      split; [exact Hinv2|]. split; [|reflexivity].
      rewrite Hg2. f_equal; lia.
    + rewrite wrap16_small in Hg2 by lia.
      destruct (IH (released (allocated p a) a) a (S g) Hinv2) as (H1 & H2 & H3);
        [rewrite Hg2; lia | lia |].
      split; [exact H1|]. split; [rewrite H2; f_equal; lia | exact H3].
Qed.

(** Releasing again the slot at the head of the free list: the release
    counts one more free slot, while the free list now loops on that
    slot. *)
Lemma double_free_snapshot p a F :
  pool_inv p (a :: F) ->
  free_reachable (released p a) = Some 1
  /\ slots_free (released p a) = Z.of_nat (List.length F) + 2.
Proof.
  intros Hinv. pose proof (pool_inv_length p _ Hinv) as [Hlen Hcnt].
  destruct Hinv as ((Hl & Hr & _) & _ & Hall & [Hh _] & Hfree).
  apply Forall_cons in Hall as [Ha _].
  pose proof (slot_range64 p a Hl Ha) as Ha64.
  pose proof (wrap16_range (header_generation p a + 1)) as Hgr.
  destruct (slot_handle p a (wrap16 (header_generation p a + 1)) ANAM_STATE_FREE Hl Ha Hgr)
    as (_ & Hnn1 & Hd1 & _); [unfold ANAM_STATE_FREE; lia|].
  destruct (slot_handle p a (header_generation p a) ANAM_STATE_FREE Hl Ha
              (header_generation_range p a)) as (_ & Hnn0 & Hd0 & _);
    [unfold ANAM_STATE_FREE; lia|].
  rewrite <- Hh in Hnn0, Hd0.
  pose proof Ha as (i & Hi & Hai).
  pose proof (in_pool_slot p a Hl Ha) as Hin.
  pose proof (slot_index p i Hl Hi) as Hidx. rewrite <- Hai in Hidx.
  cbn [List.length] in *.
  split.
  - unfold free_reachable, free_snapshot.
    change (slot_count (released p a)) with (slot_count p).
    change (free_head (released p a))
      with (encode_handle (wrap16 (header_generation p a + 1)) a ANAM_STATE_FREE).
    set (bm := replicate (Z.to_nat (slot_count p)) false).
    assert (Hbm : bm !! Z.to_nat i = Some false) by (apply lookup_replicate_2; lia).
    destruct (Z.to_nat (slot_count p)) as [|c] eqn:Hc; [lia|].
    cbn [free_walk]. rewrite Hnn1, Hd1.
    change (in_pool (released p a) a) with (in_pool p a). rewrite Hin. cbn [negb].
    change (slots_base (released p a)) with (slots_base p).
    change (slot_stride (released p a)) with (slot_stride p).
    change (slot_count (released p a)) with (slot_count p).
    rewrite Hidx. destruct (Z.leb_spec (slot_count p) i); [lia|].
    rewrite Hbm. fold (header_next (released p a) a).
    rewrite released_header_next by exact Ha64.
    rewrite wrap64_small by exact Hr.
    cbn [free_walk]. rewrite Hnn0, Hd0.
    change (in_pool (released p a) a) with (in_pool p a). rewrite Hin. cbn [negb].
    change (slots_base (released p a)) with (slots_base p).
    change (slot_stride (released p a)) with (slot_stride p).
    change (slot_count (released p a)) with (slot_count p).
    rewrite Hidx.
    destruct (Z.leb_spec (slot_count p) i); [lia|].
    rewrite list_lookup_insert_eq
      by (unfold bm; rewrite length_replicate; lia).
    rewrite count_true_insert by exact Hbm.
    unfold bm. rewrite count_true_replicate. reflexivity.
  - change (slots_free (released p a)) with (wrap64 (slots_free p + 1)).
    rewrite Hfree, wrap64_small by lia. lia.
Qed.

Lemma released_slot_count p a : slot_count (released p a) = slot_count p.
Proof. reflexivity. Qed.

Lemma single_pool_inv :
  pool_inv single_pool [4112] /\ header_generation single_pool 4112 = 0
  /\ slot_count single_pool = 1.
Proof.
  assert (Hfit : create_fits demo_env (mk_config 64 1 0)) by (apply demo_env_fits; lia).
  destruct (create_inv _ _ _ Hfit single_pool_created) as (Hinv & Hgen & Hcnt & _).
  assert (Hslots : all_slots single_pool = [4112]).
  { assert (Hbase : slots_base single_pool = 4112) by (vm_compute; reflexivity).
    unfold all_slots. rewrite Hcnt.
    change (Z.to_nat (cfg_slot_count (mk_config 64 1 0))) with 1%nat.
    cbn [seq map]. unfold slot_addr. rewrite Hbase. reflexivity. }
  rewrite Hslots in Hinv. split; [exact Hinv|]. split; [|exact Hcnt].
  apply Hgen. destruct Hinv as (_ & _ & Hall & _).
  apply Forall_cons in Hall as [Ha _]. exact Ha.
Qed.

(** C5, the counterexample: a run of allocations and releases on the
    one-slot pool, every released handle having been returned by an
    allocation of the run, after which [slots_free] is 2 while one slot is
    reachable from [free_head], and [slots_live] is not
    [slot_count - slots_free]. *)
Lemma conservation_fails_after_wrap :
  let p := run single_pool wrap_trace in
  let st := anam_pool_stats p in
  st_slot_count st = 1
  /\ st_slots_free st = 2
  /\ free_reachable p = Some 1
  /\ free_reachable p <> Some (st_slots_free st)
  /\ st_slots_live st <> st_slot_count st - st_slots_free st.
Proof.
  destruct single_pool_inv as (Hinv0 & Hgen0 & Hcnt0).
  destruct (run_cycle_ops (Z.to_nat 65536) single_pool 4112 0 Hinv0 Hgen0)
    as (Hinv & Hgen & Hcnt); [rewrite Z2Nat.id; lia|].
  rewrite Z2Nat.id in Hgen by lia. change (wrap16 (Z.of_nat 0 + 65536)) with 0 in Hgen.
  unfold wrap_trace. rewrite run_app.
  remember (run single_pool (cycle_ops 4112 0 (Z.to_nat 65536))) as p1 eqn:Hp1.
  clear Hp1.
  pose proof Hinv as ((Hl & _) & _ & Hall & _).
  apply Forall_cons in Hall as [Ha _].
  pose proof (slot_handle_authentic p1 4112 0 Hl Ha Hgen) as Hauth.
  assert (Hd : decode_addr (encode_handle 0 4112 ANAM_STATE_LIVE) = 4112)
    by (vm_compute; reflexivity).
  rewrite run_cons. cbn [step run fold_left].
  rewrite (anam_release_authentic _ _ Hauth), Hd. cbn [snd].
  destruct (double_free_snapshot p1 4112 [] Hinv) as [Hreach Hfree].
  cbn [List.length] in Hfree.
  cbn [anam_pool_stats st_slot_count st_slots_free st_slots_live].
  rewrite Hreach, Hfree, (released_slot_count p1 4112), Hcnt, Hcnt0.
  split; [reflexivity|]. split; [reflexivity|]. split; [reflexivity|].
  split; [discriminate|].
  change (wrap64 (1 - (Z.of_nat 0 + 2))) with (2 ^ 64 - 1).
  change (Z.of_nat 0 + 2) with 2. lia.
Qed.

(* ================================================================== *)
(** ** Queue: live handles and frames *)

Lemma live_handle_facts p a :
  layout p -> is_slot p a ->
  0 <= live_handle p a < 2 ^ 64
  /\ anam_is_null (live_handle p a) = false
  /\ decode_addr (live_handle p a) = a
  /\ decode_gen (live_handle p a) = header_generation p a
  /\ authenticates p (live_handle p a)
  /\ encode_handle (decode_gen (live_handle p a)) (decode_addr (live_handle p a))
       ANAM_STATE_LIVE = live_handle p a.
Proof.
  intros Hl Ha. unfold live_handle.
  destruct (slot_handle p a (header_generation p a) ANAM_STATE_LIVE Hl Ha
              (header_generation_range p a)) as (Hr & Hnn & Hd & Hg & _);
    [unfold ANAM_STATE_LIVE; lia|].
  split; [exact Hr|]. split; [exact Hnn|]. split; [exact Hd|]. split; [exact Hg|].
  split; [apply slot_handle_authentic; [exact Hl | exact Ha | reflexivity]|].
  rewrite Hd, Hg. reflexivity.
Qed.

Lemma get_live p a :
  layout p -> is_slot p a -> anam_get p (live_handle p a) = (a, p).
Proof.
  intros Hl Ha. destruct (live_handle_facts p a Hl Ha) as (_ & _ & Hd & _ & Hauth & _).
  rewrite anam_get_authentic by exact Hauth. rewrite Hd. reflexivity.
Qed.

Lemma release_live p a :
  layout p -> is_slot p a -> anam_release p (live_handle p a) = (true, released p a).
Proof.
  intros Hl Ha. destruct (live_handle_facts p a Hl Ha) as (_ & _ & Hd & _ & Hauth & _).
  rewrite anam_release_authentic by exact Hauth. rewrite Hd. reflexivity.
Qed.

Lemma live_handle_inj p a b :
  layout p -> is_slot p a -> is_slot p b -> live_handle p a = live_handle p b -> a = b.
Proof.
  intros Hl Ha Hb E.
  destruct (live_handle_facts p a Hl Ha) as (_ & _ & Hda & _).
  destruct (live_handle_facts p b Hl Hb) as (_ & _ & Hdb & _).
  rewrite <- Hda, <- Hdb, E. reflexivity.
Qed.

Lemma live_handle_same p p' a :
  header_generation p' a = header_generation p a -> live_handle p' a = live_handle p a.
Proof. intros H. unfold live_handle. rewrite H. reflexivity. Qed.

Lemma node_data_plain p a : layout p -> is_slot p a -> node_data a = a + 8.
Proof.
  intros Hl Ha. pose proof (slot_bounds p a Hl Ha) as (_ & _ & H16 & H48 & _).
  destruct Hl as (Hc & Hbs & Hb8 & Hsz & Hst & Hst8 & Hend).
  unfold node_data, sizeof_QueueNode. apply wrap64_small. lia.
Qed.

(** A change confined to the stride of slot [c] leaves the header
    generation, the link and the item of the node in another slot as they
    were. *)
Lemma node_untouched p m' c a n :
  layout p -> is_slot p c -> is_slot p a -> a <> c ->
  same_outside (heap p) m' (c - 16) (c + slot_size p) ->
  8 + Z.of_nat n <= slot_size p ->
  load64 m' a = load64 (heap p) a
  /\ load_bytes m' (a + 8) n = load_bytes (heap p) (a + 8) n
  /\ load16 m' (a - 8) = load16 (heap p) (a - 8).
Proof.
  intros Hl Hc Ha Hne Hframe Hn.
  pose proof (slot_apart p a c Hl Ha Hc Hne) as Hap.
  destruct Hl as (Hcnt & Hbs & Hb8 & Hsz & Hst & Hst8 & Hend).
  split; [apply (load64_frame _ _ _ _ _ Hframe); lia|].
  split; [apply (load_bytes_frame _ _ _ _ _ _ Hframe); lia|].
  apply (load16_frame _ _ _ _ _ Hframe); lia.
Qed.

(** A write inside the payload of a slot leaves every header as it was. *)
Lemma payload_write_headers p m' c lo hi b :
  layout p -> is_slot p c -> is_slot p b ->
  same_outside (heap p) m' lo hi -> c <= lo -> hi <= c + slot_size p ->
  header_generation (set_heap p m') b = header_generation p b
  /\ header_next (set_heap p m') b = header_next p b.
Proof.
  intros Hl Hc Hb Hframe Hlo Hhi.
  pose proof (slot_range64 p b Hl Hb) as Hb64.
  assert (Hd : c + slot_size p <= b - 16 \/ b <= lo).
  { destruct (Z.eq_dec b c) as [->|Hne]; [right; lia|].
    pose proof (slot_apart p b c Hl Hb Hc Hne) as Hap.
    destruct Hl as (Hcnt & Hbs & Hb8 & Hsz & Hst & Hst8 & Hend). lia. }
  split.
  - apply (header_generation_frame p (set_heap p m') b lo hi); [exact Hframe | exact Hb64 | lia].
  - apply (header_next_frame p (set_heap p m') b lo hi); [exact Hframe | exact Hb64 | lia].
Qed.

Lemma pool_inv_set_heap p F m' :
  pool_inv p F ->
  (forall b, is_slot p b ->
     header_generation (set_heap p m') b = header_generation p b
     /\ header_next (set_heap p m') b = header_next p b) ->
  pool_inv (set_heap p m') F.
Proof.
  intros ((Hl & Hr & Hh & Hn) & Hnd & Hall & Hc & Hfree) Hsame.
  split; [split; [exact Hl | split; [exact Hr | split; [exact Hh|]]]|].
  - intros a Ha. change (is_slot p a) in Ha.
    destruct (Hsame a Ha) as [_ E]. rewrite E. exact (Hn a Ha).
  - split; [exact Hnd|]. split; [exact Hall|]. split; [|exact Hfree].
    apply (free_chain_frame p); [|exact Hc].
    intros b Hb. apply Hsame. rewrite Forall_forall in Hall. apply Hall. exact Hb.
Qed.

Lemma pool_inv_payload_write p F m' c lo hi :
  pool_inv p F -> is_slot p c ->
  same_outside (heap p) m' lo hi -> c <= lo -> hi <= c + slot_size p ->
  pool_inv (set_heap p m') F.
Proof.
  intros Hinv Hc Hframe Hlo Hhi. apply pool_inv_set_heap; [exact Hinv|].
  intros b Hb. destruct Hinv as ((Hl & _) & _).
  apply (payload_write_headers p m' c lo hi b); assumption.
Qed.

Lemma last_cons {A : Type} (b : A) (r : list A) (d : A) :
  List.last (b :: r) d = List.last r b.
Proof.
  revert b d. induction r as [|x r IH]; intros b d; [reflexivity|].
  change (List.last (b :: x :: r) d) with (List.last (x :: r) d).
  rewrite (IH x d). symmetry. apply IH.
Qed.

Lemma last_in {A : Type} (r : list A) (d : A) : In (List.last r d) (d :: r).
Proof.
  revert d. induction r as [|x r IH]; intros d; [left; reflexivity|].
  rewrite last_cons. right. apply IH.
Qed.

Lemma node_chain_frame p p' : forall rest d,
  node_chain p d rest ->
  (forall a, In a (d :: rest) -> node_next p' a = node_next p a) ->
  (forall a, In a rest -> live_handle p' a = live_handle p a) ->
  node_chain p' d rest.
Proof.
  induction rest as [|b r IH]; intros d Hc Hn Hh; cbn [node_chain] in *.
  - rewrite Hn by (left; reflexivity). exact Hc.
  - destruct Hc as [Hd Hc]. rewrite Hn by (left; reflexivity).
    rewrite Hh by (left; reflexivity). split; [exact Hd|].
    apply IH; [exact Hc | |].
    + intros a Ha. apply Hn. right. exact Ha.
    + intros a Ha. apply Hh. right. exact Ha.
Qed.

Lemma node_chain_snoc p p' c : forall rest d,
  node_chain p d rest ->
  List.NoDup (d :: rest) ->
  (forall a, In a (d :: rest) -> a <> List.last rest d -> node_next p' a = node_next p a) ->
  (forall a, In a rest -> live_handle p' a = live_handle p a) ->
  node_next p' (List.last rest d) = live_handle p' c ->
  node_next p' c = ANAM_NULL ->
  node_chain p' d (rest ++ [c]).
Proof.
  induction rest as [|b r IH]; intros d Hc Hnd Hn Hh Hlast Hnull.
  - cbn [app node_chain List.last] in *. split; assumption.
  - cbn [app node_chain] in *. destruct Hc as [Hd Hc].
    rewrite last_cons in *.
    apply List.NoDup_cons_iff in Hnd as [Hdn Hnd].
    split.
    + rewrite Hn; [| left; reflexivity |].
      * rewrite Hd. symmetry. apply Hh. left. reflexivity.
      * intros E. apply Hdn. rewrite E. apply last_in.
    + apply IH; try assumption.
      * intros a Ha Hne. apply Hn; [right; exact Ha | exact Hne].
      * intros a Ha. apply Hh. right. exact Ha.
Qed.

(* ================================================================== *)
(** ** Queue: one push *)

Lemma alloc_node_full q data :
  pool_inv (pool q) [] -> alloc_node q data = (ANAM_NULL, set_pool q (pool q)).
Proof.
  intros Hinv. unfold alloc_node. rewrite (pool_inv_alloc_empty _ Hinv). reflexivity.
Qed.

Lemma alloc_node_ok q c F data :
  pool_inv (pool q) (c :: F) ->
  alloc_node q data
  = (live_handle (pool q) c, set_pool q (node_pool (pool q) c data (item_size q))).
Proof.
  intros Hinv. destruct (pool_inv_alloc _ c F Hinv) as [Halloc Hinva].
  pose proof Hinv as ((Hl & _) & _ & Hall & _).
  apply Forall_cons in Hall as [Hc _].
  pose proof (slot_range64 _ c Hl Hc) as Hc64.
  destruct (live_handle_facts (pool q) c Hl Hc) as (_ & Hnn & _).
  unfold alloc_node. rewrite Halloc. fold (live_handle (pool q) c). rewrite Hnn.
  rewrite <- (live_handle_same (pool q) (allocated (pool q) c) c)
    by (apply allocated_header_generation; exact Hc64).
  rewrite (get_live (allocated (pool q) c) c Hl Hc).
  rewrite (live_handle_same (pool q) (allocated (pool q) c) c)
    by (apply allocated_header_generation; exact Hc64).
  unfold node_pool. destruct data; reflexivity.
Qed.

Lemma node_pool_frame p c data isz :
  layout p -> is_slot p c -> 0 < isz -> isz + 8 <= slot_size p ->
  same_outside (heap p) (heap (node_pool p c data isz)) (c - 16) (c + slot_size p)
  /\ same_outside (heap (allocated p c)) (heap (node_pool p c data isz)) c (c + slot_size p).
Proof.
  intros Hl Hc Hisz Hfit.
  pose proof (node_data_plain p c Hl Hc) as Hnd.
  pose proof (allocated_frame p c Hl Hc) as Hfa.
  assert (H1 : same_outside (heap (allocated p c))
                 (store64 (heap (allocated p c)) c ANAM_NULL) c (c + slot_size p)).
  { eapply same_outside_widen; [apply same_outside_store64 | lia | lia]. }
  assert (H2 : same_outside (heap (allocated p c)) (heap (node_pool p c data isz))
                 c (c + slot_size p)).
  { unfold node_pool. cbn [heap set_heap]. destruct data as [bytes|]; [|exact H1].
    eapply same_outside_trans; [exact H1|]. rewrite Hnd.
    eapply same_outside_widen; [apply same_outside_memcpy; lia | lia | lia]. }
  split; [|exact H2].
  eapply same_outside_trans; [exact Hfa|].
  eapply same_outside_widen; [exact H2 | lia | lia].
Qed.

Lemma node_pool_inv p c F data isz :
  pool_inv p (c :: F) -> 0 < isz -> isz + 8 <= slot_size p ->
  pool_inv (node_pool p c data isz) F
  /\ (forall b, is_slot p b ->
        header_generation (node_pool p c data isz) b = header_generation p b).
Proof.
  intros Hinv Hisz Hfit. destruct (pool_inv_alloc p c F Hinv) as [_ Hinva].
  pose proof Hinv as ((Hl & _) & _ & Hall & _).
  apply Forall_cons in Hall as [Hc _].
  destruct (node_pool_frame p c data isz Hl Hc Hisz Hfit) as [Hf0 Hfa].
  split.
  - apply (pool_inv_payload_write (allocated p c) F _ c c (c + slot_size p));
      [exact Hinva | exact Hc | exact Hfa | lia |].
    change (slot_size (allocated p c)) with (slot_size p). lia.
  - intros b Hb.
    destruct (payload_write_headers (allocated p c) (heap (node_pool p c data isz))
                c c (c + slot_size p) b Hl Hc Hb Hfa ltac:(lia) ltac:(reflexivity))
      as [Hg _].
    change (set_heap (allocated p c) (heap (node_pool p c data isz)))
      with (node_pool p c data isz) in Hg.
    rewrite Hg.
    destruct (Z.eq_dec c b) as [<-|Hne].
    + apply allocated_header_generation. apply (slot_range64 p c Hl Hc).
    + apply (other_slot_headers p (allocated p c) c b Hl Hc Hb Hne).
      apply allocated_frame; assumption.
Qed.

Lemma node_pool_node p c data isz :
  layout p -> is_slot p c -> 0 < isz -> isz + 8 <= slot_size p ->
  node_next (node_pool p c data isz) c = ANAM_NULL
  /\ (forall bytes, data = Some bytes ->
        Z.of_nat (List.length bytes) = isz -> Forall (fun b => 0 <= b < 256) bytes ->
        load_bytes (heap (node_pool p c data isz)) (node_data c) (Z.to_nat isz) = bytes).
Proof.
  intros Hl Hc Hisz Hfit. pose proof (node_data_plain p c Hl Hc) as Hnd.
  unfold node_next, node_pool. cbn [heap set_heap]. split.
  - destruct data as [bytes|].
    + rewrite Hnd, load64_memcpy_other by lia. apply load64_store64_same.
    + apply load64_store64_same.
  - intros bytes -> Hlen Hbytes. apply load_bytes_memcpy_same; assumption.
Qed.

Lemma push_loop_ok q new_h a fuel :
  layout (pool q) -> is_slot (pool q) a ->
  tail q = live_handle (pool q) a -> node_next (pool q) a = ANAM_NULL ->
  push_loop (S fuel) q new_h = Some (set_pool q (linked_pool (pool q) a new_h)).
Proof.
  intros Hl Ha Ht Hn. cbn [push_loop]. rewrite Ht, (get_live _ a Hl Ha). queue_simpl.
  pose proof (slot_range64 _ a Hl Ha) as Ha64.
  destruct (Z.eqb_spec a 0) as [E|_]; [lia|].
  rewrite Ht, Z.eqb_refl. cbn [negb].
  unfold node_next in Hn. rewrite Hn.
  change (anam_is_null ANAM_NULL) with true. cbn iota.
  rewrite cas_same. cbn [fst]. reflexivity.
Qed.

Lemma Forall2_impl_in {A B : Type} (P Q : A -> B -> Prop) (l : list A) (k : list B) :
  Forall2 P l k -> (forall a b, In a l -> P a b -> Q a b) -> Forall2 Q l k.
Proof.
  induction 1 as [|a b l k Hab _ IH]; intros Himp; [constructor|].
  constructor.
  - apply Himp; [left; reflexivity | exact Hab].
  - apply IH. intros a' b' Hin. apply Himp. right. exact Hin.
Qed.

Lemma node_chain_last p : forall rest d,
  node_chain p d rest -> node_next p (List.last rest d) = ANAM_NULL.
Proof.
  induction rest as [|b r IH]; intros d Hc; cbn [node_chain] in Hc; [exact Hc|].
  rewrite last_cons. apply IH. apply Hc.
Qed.

Lemma queue_inv_nodes q F d rest items :
  queue_inv q F d rest items ->
  layout (pool q)
  /\ List.NoDup (d :: rest)
  /\ (forall a, In a (d :: rest) -> is_slot (pool q) a /\ a ∉ F)
  /\ is_slot (pool q) (List.last rest d).
Proof.
  intros (Hpool & Hslots & Hnd & _).
  destruct Hpool as ((Hl & _) & _).
  change (d :: rest ++ F) with ((d :: rest) ++ F) in Hnd.
  apply NoDup_app in Hnd as (Hnd1 & Hdisj & _).
  rewrite Forall_forall in Hslots.
  split; [exact Hl|]. split; [apply NoDup_ListNoDup; exact Hnd1|].
  split.
  - intros a Ha. apply list_elem_of_In in Ha. split; [apply Hslots | apply Hdisj]; exact Ha.
  - apply Hslots. apply list_elem_of_In. apply last_in.
Qed.

Lemma push_ok q F c d rest items data fuel :
  queue_inv q (c :: F) d rest items -> is_item q data ->
  anam_queue_push (S fuel) q (Some data)
  = Some (live_handle (pool q) c, pushed q c data (List.last rest d))
  /\ anam_is_null (live_handle (pool q) c) = false
  /\ queue_inv (pushed q c data (List.last rest d)) F d (rest ++ [c]) (items ++ [data]).
Proof.
  intros Hinv [Hdlen Hdbytes].
  destruct (queue_inv_nodes q _ d rest items Hinv) as (Hl & Hndn & Hnodes & Hlast).
  destruct Hinv as (Hpool & Hslots & Hnd & Hlen & Hcap & Hisz & Hfit & Hhead & Htail
                    & Hchain & Hitems & Hlength).
  set (p0 := pool q) in *. set (isz := item_size q) in *.
  set (lastp := List.last rest d) in *.
  set (hc := live_handle p0 c).
  set (p2 := node_pool p0 c (Some data) isz).
  set (p3 := linked_pool p2 lastp hc).
  pose proof Hpool as (_ & _ & HallF & _).
  apply Forall_cons in HallF as [Hc _].
  destruct (live_handle_facts p0 c Hl Hc) as (Hhr & Hnn & Hdc & Hgc & _ & Hre).
  fold hc in Hhr, Hnn, Hdc, Hgc, Hre.
  destruct (node_pool_inv p0 c F (Some data) isz Hpool Hisz Hfit) as [Hpool2 Hgen2].
  fold p2 in Hpool2, Hgen2.
  destruct (node_pool_frame p0 c (Some data) isz Hl Hc Hisz Hfit) as [Hframe2 _].
  fold p2 in Hframe2.
  destruct (node_pool_node p0 c (Some data) isz Hl Hc Hisz Hfit) as [Hcnext Hcitem].
  fold p2 in Hcnext, Hcitem.
  assert (Hcn : forall a, In a (d :: rest) -> a <> c).
  { intros a Ha ->. destruct (Hnodes c Ha) as [_ Hnot]. apply Hnot. apply list_elem_of_here. }
  assert (Hlastc : lastp <> c) by (apply Hcn; apply last_in).
  assert (Hn8 : 8 + Z.of_nat (Z.to_nat isz) <= slot_size p0) by lia.
  (* the node behind which the new one is linked *)
  assert (Hlast_next : node_next p2 lastp = ANAM_NULL).
  { unfold node_next.
    destruct (node_untouched p0 (heap p2) c lastp (Z.to_nat isz) Hl Hc Hlast Hlastc Hframe2 Hn8)
      as (E & _). rewrite E. apply (node_chain_last p0 rest d Hchain). }
  assert (Hframe3 : same_outside (heap p2) (heap p3) lastp (lastp + 8))
    by (apply same_outside_store64).
  assert (Hframe3' : same_outside (heap p2) (heap p3) (lastp - 16) (lastp + slot_size p0)).
  { eapply same_outside_widen; [exact Hframe3 | lia | lia]. }
  assert (Hpool3 : pool_inv p3 F).
  { apply (pool_inv_payload_write p2 F _ lastp lastp (lastp + 8));
      [exact Hpool2 | exact Hlast | exact Hframe3 | lia |].
    change (slot_size p2) with (slot_size p0). lia. }
  assert (Hgen3 : forall b, is_slot p0 b -> header_generation p3 b = header_generation p0 b).
  { intros b Hb. rewrite <- (Hgen2 b Hb).
    apply (payload_write_headers p2 (heap p3) lastp lastp (lastp + 8) b);
      try assumption; [lia|]. change (slot_size p2) with (slot_size p0). lia. }
  assert (Hlive3 : forall b, is_slot p0 b -> live_handle p3 b = live_handle p0 b).
  { intros b Hb. apply live_handle_same. apply Hgen3. exact Hb. }
  split; [|split; [exact Hnn|]].
  - (* the computation *)
    unfold anam_queue_push. rewrite (alloc_node_ok q c F _ Hpool).
    fold p0 hc isz p2. rewrite Hnn.
    rewrite (push_loop_ok (set_pool q p2) hc lastp fuel); queue_simpl.
    + rewrite cas_same. cbn [snd]. rewrite Hre. reflexivity.
    + exact Hl.
    + exact Hlast.
    + rewrite Htail. symmetry. apply live_handle_same. apply Hgen2. exact Hlast.
    + exact Hlast_next.
  - (* the invariant *)
    unfold pushed. fold p0 hc isz p2 p3.
    split; [exact Hpool3|]. queue_simpl.
    split.
    { change (d :: rest ++ [c]) with ((d :: rest) ++ [c]).
      apply Forall_app. split; [exact Hslots|].
      apply Forall_cons. split; [exact Hc | apply Forall_nil_2]. }
    split.
    { rewrite <- app_assoc. exact Hnd. }
    split.
    { change (slot_count p3) with (slot_count p0). rewrite <- Hlen.
      rewrite <- app_assoc. reflexivity. }
    split; [exact Hcap|]. split; [exact Hisz|]. split; [exact Hfit|].
    split.
    { rewrite Hhead. symmetry. apply Hlive3. apply Hnodes. left. reflexivity. }
    split.
    { rewrite last_last. symmetry. apply Hlive3. exact Hc. }
    split.
    { apply (node_chain_snoc p0 p3 c rest d Hchain Hndn).
      - intros a Ha Hne. fold lastp in Hne. unfold node_next.
        destruct (Hnodes a Ha) as [Hsa _].
        destruct (node_untouched p2 (heap p3) lastp a (Z.to_nat isz) Hl Hlast Hsa Hne Hframe3' Hn8)
          as (E3 & _).
        destruct (node_untouched p0 (heap p2) c a (Z.to_nat isz) Hl Hc Hsa (Hcn a Ha) Hframe2 Hn8)
          as (E2 & _).
        rewrite E3, E2. reflexivity.
      - intros a Ha. apply Hlive3. apply Hnodes. right. exact Ha.
      - fold lastp. unfold node_next, p3, linked_pool. cbn [heap set_heap].
        rewrite load64_store64_same, wrap64_small by exact Hhr.
        symmetry. apply Hlive3. exact Hc.
      - unfold node_next.
        destruct (node_untouched p2 (heap p3) lastp c (Z.to_nat isz) Hl Hlast Hc
                    (not_eq_sym Hlastc) Hframe3' Hn8) as (E3 & _).
        rewrite E3. exact Hcnext. }
    split.
    { apply Forall2_app.
      - apply (Forall2_impl_in _ _ _ _ Hitems). intros a it Ha <-.
        destruct (Hnodes a (or_intror Ha)) as [Hsa _].
        unfold node_item. queue_simpl. fold p0 isz.
        rewrite (node_data_plain p0 a Hl Hsa).
        destruct (node_untouched p0 (heap p2) c a (Z.to_nat isz) Hl Hc Hsa
                    (Hcn a (or_intror Ha)) Hframe2 Hn8) as (_ & E2 & _).
        rewrite <- E2. apply (load_bytes_frame _ _ _ _ _ _ Hframe3).
        destruct (Z.eq_dec a lastp) as [->|Hne]; [lia|].
        pose proof (slot_apart p0 a lastp Hl Hsa Hlast Hne) as Hap.
        destruct Hl as (Hcnt & Hbs & Hb8 & Hsz & Hst & Hst8 & Hend). lia.
      - constructor; [|constructor].
        unfold node_item. queue_simpl. fold p0 isz.
        rewrite <- (Hcitem data eq_refl Hdlen Hdbytes).
        rewrite (node_data_plain p0 c Hl Hc).
        apply (node_untouched p2 (heap p3) lastp c (Z.to_nat isz) Hl Hlast Hc
                 (not_eq_sym Hlastc) Hframe3' Hn8). }
    pose proof (pool_inv_length p0 _ Hpool) as [_ Hcnt48].
    rewrite Hlength, length_app. cbn [List.length] in *.
    rewrite length_app in Hlen. cbn [List.length] in Hlen.
    rewrite wrap64_small; lia.
Qed.

Lemma push_full q d rest items data fuel :
  queue_inv q [] d rest items ->
  anam_queue_push fuel q (Some data)
  = Some (ANAM_NULL, set_push_fails q (wrap64 (push_fails q + 1))).
Proof.
  intros (Hpool & _). unfold anam_queue_push.
  rewrite (alloc_node_full q _ Hpool).
  change (anam_is_null ANAM_NULL) with true. cbn iota. destruct q; reflexivity.
Qed.

(* ================================================================== *)
(** ** Queue: one pop *)

Lemma pop_empty q F d fuel data_out :
  queue_inv q F d [] [] ->
  anam_queue_pop (S fuel) q data_out
  = Some (false, None, set_pop_fails q (wrap64 (pop_fails q + 1))).
Proof.
  intros Hinv.
  destruct (queue_inv_nodes q _ d [] [] Hinv) as (Hl & _ & Hnodes & _).
  destruct Hinv as (_ & _ & _ & _ & _ & _ & _ & Hhead & Htail & Hchain & _).
  destruct (Hnodes d (or_introl eq_refl)) as [Hd _].
  pose proof (slot_range64 _ d Hl Hd) as Hd64.
  cbn [List.last] in Htail. cbn [node_chain] in Hchain. unfold node_next in Hchain.
  unfold anam_queue_pop. cbn [anam_queue_pop_from].
  rewrite Hhead, (get_live _ d Hl Hd). queue_simpl.
  destruct (Z.eqb_spec d 0) as [E|_]; [lia|].
  rewrite Hhead, Htail, !Z.eqb_refl. cbn [negb]. rewrite Hchain.
  change (anam_is_null ANAM_NULL) with true. cbn iota.
  destruct q; reflexivity.
Qed.

Lemma pop_ok q F d b rest it items fuel data_out :
  queue_inv q F d (b :: rest) (it :: items) ->
  anam_queue_pop (S fuel) q data_out
  = Some (true, if data_out then Some it else None, popped q d b)
  /\ queue_inv (popped q d b) (d :: F) b rest items.
Proof.
  intros Hinv.
  destruct (queue_inv_nodes q _ d _ _ Hinv) as (Hl & Hndn & Hnodes & Hlast).
  destruct Hinv as (Hpool & Hslots & Hnd & Hlen & Hcap & Hisz & Hfit & Hhead & Htail
                    & Hchain & Hitems & Hlength).
  set (p := pool q) in *. set (isz := item_size q) in *.
  destruct (Hnodes d (or_introl eq_refl)) as [Hd HdF].
  destruct (Hnodes b (or_intror (or_introl eq_refl))) as [Hb _].
  pose proof (slot_range64 p d Hl Hd) as Hd64.
  pose proof (slot_range64 p b Hl Hb) as Hb64.
  cbn [node_chain] in Hchain. destruct Hchain as [Hdnext Hchain].
  unfold node_next in Hdnext.
  apply List.NoDup_cons_iff in Hndn as [Hdn Hndn].
  rewrite last_cons in Htail, Hlast.
  assert (Hlastd : List.last rest b <> d).
  { intros E. apply Hdn. rewrite <- E. apply last_in. }
  destruct (live_handle_facts p b Hl Hb) as (_ & _ & _ & _ & _ & Hre).
  apply Forall2_cons_1 in Hitems as [Hit Hitems].
  pose proof (released_frame p d Hl Hd) as Hframe.
  assert (Hn8 : 8 + Z.of_nat (Z.to_nat isz) <= slot_size p) by lia.
  assert (Hlive : forall a, In a (b :: rest) ->
            live_handle (released p d) a = live_handle p a).
  { intros a Ha. apply live_handle_same.
    destruct (Hnodes a (or_intror Ha)) as [Hsa _].
    apply (other_slot_headers p (released p d) d a Hl Hd Hsa); [|exact Hframe].
    intros ->. apply Hdn. exact Ha. }
  split.
  - unfold anam_queue_pop. cbn [anam_queue_pop_from]. fold p.
    rewrite Hhead, (get_live p d Hl Hd). queue_simpl. fold p.
    destruct (Z.eqb_spec d 0) as [E|_]; [lia|].
    rewrite Hdnext, Hhead, Z.eqb_refl, Htail. cbn [negb].
    destruct (Z.eqb_spec (live_handle p d) (live_handle p (List.last rest b))) as [E|_].
    { exfalso. apply Hlastd. symmetry. apply (live_handle_inj p _ _ Hl Hd Hlast E). }
    rewrite (get_live p b Hl Hb). queue_simpl. fold p isz.
    destruct (Z.eqb_spec b 0) as [E|_]; [lia|].
    rewrite cas_same, Hre. cbn iota. queue_simpl.
    rewrite (release_live p d Hl Hd). cbn [snd].
    unfold node_item in Hit. fold p isz in Hit. rewrite Hit.
    unfold popped. fold p. reflexivity.
  - unfold popped. fold p.
    split; [queue_simpl; apply pool_inv_release; assumption|]. queue_simpl.
    split; [apply Forall_cons in Hslots as [_ Hs]; exact Hs|].
    split.
    { change (b :: rest ++ d :: F) with ((b :: rest) ++ d :: F).
      rewrite <- Permutation_middle. exact Hnd. }
    split.
    { change (slot_count (released p d)) with (slot_count p). rewrite <- Hlen.
      cbn [List.length]. rewrite !length_app. cbn [List.length]. lia. }
    split; [exact Hcap|]. split; [exact Hisz|]. split; [exact Hfit|].
    split; [symmetry; apply Hlive; left; reflexivity|].
    split; [rewrite Htail; symmetry; apply Hlive; apply last_in|].
    split.
    { apply (node_chain_frame p (released p d) rest b Hchain); [|].
      - intros a Ha. unfold node_next.
        destruct (Hnodes a (or_intror Ha)) as [Hsa _].
        apply (node_untouched p (heap (released p d)) d a (Z.to_nat isz) Hl Hd Hsa);
          [|exact Hframe | exact Hn8].
        intros ->. apply Hdn. exact Ha.
      - intros a Ha. apply Hlive. right. exact Ha. }
    split.
    { apply (Forall2_impl_in _ _ _ _ Hitems). intros a it' Ha <-.
      destruct (Hnodes a (or_intror (or_intror Ha))) as [Hsa _].
      unfold node_item. queue_simpl. fold p isz.
      rewrite (node_data_plain p a Hl Hsa).
      apply (node_untouched p (heap (released p d)) d a (Z.to_nat isz) Hl Hd Hsa);
        [|exact Hframe | exact Hn8].
      intros ->. apply Hdn. right. exact Ha. }
    pose proof (pool_inv_length p _ Hpool) as [_ Hcnt48].
    rewrite Hlength. cbn [List.length] in *.
    rewrite !length_app in Hlen. cbn [List.length] in Hlen.
    rewrite wrap64_small; lia.
Qed.

Lemma queue_empty_spec q F d rest items :
  queue_inv q F d rest items ->
  anam_queue_empty q
  = (match rest with [] => true | _ => false end, set_pool q (pool q)).
Proof.
  intros Hinv.
  destruct (queue_inv_nodes q _ d _ _ Hinv) as (Hl & _ & Hnodes & _).
  destruct Hinv as (_ & _ & _ & _ & _ & _ & _ & Hhead & _ & Hchain & _).
  destruct (Hnodes d (or_introl eq_refl)) as [Hd _].
  pose proof (slot_range64 _ d Hl Hd) as Hd64.
  unfold anam_queue_empty. rewrite Hhead, (get_live _ d Hl Hd). queue_simpl.
  destruct (Z.eqb_spec d 0) as [E|_]; [lia|].
  destruct rest as [|b rest]; cbn [node_chain] in Hchain; unfold node_next in Hchain.
  - rewrite Hchain. reflexivity.
  - destruct Hchain as [Hn _]. rewrite Hn.
    destruct (Hnodes b (or_intror (or_introl eq_refl))) as [Hb _].
    destruct (live_handle_facts _ b Hl Hb) as (_ & Hnn & _). rewrite Hnn. reflexivity.
Qed.

(* ================================================================== *)
(** ** Queue: creation *)

Lemma queue_node_size_bounds cfg :
  0 < cfg_item_size cfg < 2 ^ 48 ->
  cfg_item_size cfg + 8 <= queue_node_size cfg < cfg_item_size cfg + 16.
Proof.
  intros Hi. unfold queue_node_size, sizeof_QueueNode.
  rewrite (wrap64_small (8 + cfg_item_size cfg + 7)) by lia.
  change (wrap64 (Z.lnot 7)) with (wrap64 (Z.lnot (wrap64 (2 ^ 3 - 1)))).
  rewrite land_high_mask by lia. change (2 ^ 3) with 8.
  pose proof (Z.div_mod (8 + cfg_item_size cfg + 7) 8 ltac:(lia)) as Hdm.
  pose proof (Z.mod_pos_bound (8 + cfg_item_size cfg + 7) 8 ltac:(lia)) as Hmb.
  lia.
Qed.

Lemma queue_create_inv env cfg q :
  queue_fits env cfg ->
  anam_queue_create true env (Some cfg) = Some q ->
  exists d F,
    queue_inv q F d [] []
    /\ Z.of_nat (List.length F) = cfg_capacity cfg
    /\ capacity q = cfg_capacity cfg
    /\ item_size q = cfg_item_size cfg
    /\ push_count q = 0 /\ pop_count q = 0 /\ push_fails q = 0 /\ pop_fails q = 0.
Proof.
  intros (Hisz & Hcap & Hfit) Hcreate.
  pose proof (queue_node_size_bounds cfg Hisz) as Hns.
  unfold anam_queue_create in Hcreate.
  destruct (Z.eqb_spec (cfg_item_size cfg) 0) as [E|_]; [lia|].
  destruct (Z.eqb_spec (cfg_capacity cfg) 0) as [E|_]; [lia|].
  cbn [orb negb] in Hcreate.
  destruct (anam_pool_create env (Some (queue_pool_config cfg))) as [p0|] eqn:Hpool;
    [|discriminate].
  destruct (create_inv env _ p0 Hfit Hpool) as (Hinv & _ & Hcnt & Hsz & _).
  cbn [queue_pool_config cfg_slot_count cfg_slot_size] in Hcnt, Hsz.
  rewrite wrap64_small in Hcnt by lia.
  pose proof (all_slots_length p0) as Hlen. rewrite Hcnt in Hlen.
  destruct (all_slots p0) as [|d F] eqn:Hslots; [cbn in Hlen; lia|].
  pose proof Hinv as ((Hl & _) & Hnd & Hall & _).
  pose proof Hall as Hall'. apply Forall_cons in Hall' as [Hd _].
  rewrite (alloc_node_ok (queue_struct cfg p0) d F None Hinv) in Hcreate.
  queue_simpl.
  destruct (live_handle_facts p0 d Hl Hd) as (_ & Hnn & _).
  rewrite Hnn in Hcreate. injection Hcreate as <-.
  destruct (node_pool_inv p0 d F None (cfg_item_size cfg) Hinv) as [Hinv2 Hgen2]; [lia | lia |].
  destruct (node_pool_node p0 d None (cfg_item_size cfg) Hl Hd) as [Hnext _]; [lia | lia |].
  exists d, F. queue_simpl. cbn [List.length] in Hlen.
  split; [|repeat split; lia].
  split; [exact Hinv2|]. queue_simpl.
  split; [apply Forall_cons; split; [exact Hd | apply Forall_nil_2]|].
  split; [exact Hnd|].
  split; [cbn [app List.length];
          change (slot_count (node_pool p0 d None (cfg_item_size cfg))) with (slot_count p0);
          lia|].
  split; [change (slot_count (node_pool p0 d None (cfg_item_size cfg))) with (slot_count p0);
          lia|].
  split; [lia|].
  split; [change (slot_size (node_pool p0 d None (cfg_item_size cfg))) with (slot_size p0);
          lia|].
  split; [symmetry; apply live_handle_same; apply Hgen2; exact Hd|].
  split; [symmetry; apply live_handle_same; apply Hgen2; exact Hd|].
  split; [exact Hnext|]. split; [constructor | reflexivity].
Qed.

(* ================================================================== *)
(** ** Queue: runs *)

Lemma queue_inv_lengths q F d rest items :
  queue_inv q F d rest items -> List.length rest = List.length items.
Proof.
  intros (_ & _ & _ & _ & _ & _ & _ & _ & _ & _ & H2 & _).
  exact (Forall2_length _ _ _ H2).
Qed.

Lemma queue_inv_push_fails q F d rest items v :
  queue_inv q F d rest items -> queue_inv (set_push_fails q v) F d rest items.
Proof. intros H. exact H. Qed.

Lemma queue_inv_pop_fails q F d rest items v :
  queue_inv q F d rest items -> queue_inv (set_pop_fails q v) F d rest items.
Proof. intros H. exact H. Qed.

Lemma push_all_ok ds : forall q F d rest items fuel,
  queue_inv q F d rest items ->
  Forall (is_item q) ds ->
  (List.length ds <= List.length F)%nat ->
  exists hs q',
    push_all (S fuel) q ds = Some (hs, q')
    /\ List.length hs = List.length ds
    /\ Forall (fun h => anam_is_null h = false) hs
    /\ queue_inv q' (drop (List.length ds) F) d
         (rest ++ take (List.length ds) F) (items ++ ds)
    /\ item_size q' = item_size q
    /\ capacity q' = capacity q
    /\ push_fails q' = push_fails q
    /\ pop_count q' = pop_count q
    /\ pop_fails q' = pop_fails q.
Proof.
  induction ds as [|data ds IH]; intros q F d rest items fuel Hinv Hds Hlen.
  - exists [], q. cbn [push_all List.length drop take]. rewrite !app_nil_r.
    split_conj; try reflexivity; [constructor | exact Hinv].
  - destruct F as [|c F]; [cbn [List.length] in Hlen; lia|].
    apply Forall_cons in Hds as [Hdata Hds].
    destruct (push_ok q F c d rest items data fuel Hinv Hdata) as (Hpush & Hnn & Hinv1).
    destruct (IH (pushed q c data (List.last rest d)) F d (rest ++ [c]) (items ++ [data])
                 fuel Hinv1 Hds) as (hs & q' & Hall & Hl & Hnns & Hinv' & Hi & Hc & Hpf & Hpc & Hpof).
    { cbn [List.length] in Hlen. lia. }
    exists (live_handle (pool q) c :: hs), q'.
    cbn [push_all]. rewrite Hpush, Hall.
    cbn [List.length drop take]. rewrite <- !app_assoc in Hinv'.
    split_conj; try assumption; try reflexivity.
    + f_equal. exact Hl.
    + constructor; assumption.
Qed.

Lemma pop_n_ok rest : forall q F d items fuel,
  queue_inv q F d rest items ->
  exists q' F' d',
    pop_n (S fuel) (List.length items) q
    = Some (map (fun it => (true, Some it)) items, q')
    /\ queue_inv q' F' d' [] []
    /\ item_size q' = item_size q
    /\ capacity q' = capacity q.
Proof.
  induction rest as [|b rest IH]; intros q F d items fuel Hinv;
    pose proof (queue_inv_lengths _ _ _ _ _ Hinv) as Hlen;
    destruct items as [|it items]; try discriminate Hlen.
  - exists q, F, d. cbn [pop_n List.length map]. split_conj; try reflexivity. exact Hinv.
  - destruct (pop_ok q F d b rest it items fuel true Hinv) as [Hpop Hinv1].
    destruct (IH (popped q d b) (d :: F) b items fuel Hinv1)
      as (q' & F' & d' & Hrun & Hinv' & Hi & Hc).
    exists q', F', d'. cbn [pop_n List.length map]. rewrite Hpop, Hrun.
    split_conj; try reflexivity; assumption.
Qed.

Lemma qrun_inv ops : forall q F d rest items fuel,
  queue_inv q F d rest items ->
  Forall (qop_ok (item_size q)) ops ->
  exists q' F' d' rest' items',
    qrun (S fuel) q ops = Some q'
    /\ queue_inv q' F' d' rest' items'
    /\ item_size q' = item_size q
    /\ capacity q' = capacity q.
Proof.
  induction ops as [|o ops IH]; intros q F d rest items fuel Hinv Hops.
  - exists q, F, d, rest, items. cbn [qrun]. split_conj; try reflexivity; exact Hinv.
  - apply Forall_cons in Hops as [Ho Hops].
    assert (Hstep : exists q1 F1 d1 rest1 items1,
               qstep (S fuel) q o = Some q1
               /\ queue_inv q1 F1 d1 rest1 items1
               /\ item_size q1 = item_size q
               /\ capacity q1 = capacity q).
    { destruct o as [data|data_out]; cbn [qstep].
      - destruct F as [|c F].
        + rewrite (push_full q d rest items data (S fuel) Hinv).
          exists (set_push_fails q (wrap64 (push_fails q + 1))), [], d, rest, items.
          split_conj; try reflexivity; apply queue_inv_push_fails, Hinv.
        + destruct (push_ok q F c d rest items data fuel Hinv Ho) as (Hpush & _ & Hinv1).
          rewrite Hpush.
          exists (pushed q c data (List.last rest d)), F, d, (rest ++ [c]), (items ++ [data]).
          split_conj; try reflexivity; exact Hinv1.
      - pose proof (queue_inv_lengths _ _ _ _ _ Hinv) as Hlen.
        destruct rest as [|b rest]; destruct items as [|it items]; try discriminate Hlen.
        + rewrite (pop_empty q F d fuel data_out Hinv).
          exists (set_pop_fails q (wrap64 (pop_fails q + 1))), F, d, [], [].
          split_conj; try reflexivity; apply queue_inv_pop_fails, Hinv.
        + destruct (pop_ok q F d b rest it items fuel data_out Hinv) as [Hpop Hinv1].
          rewrite Hpop. exists (popped q d b), (d :: F), b, rest, items.
          split_conj; try reflexivity; exact Hinv1. }
    destruct Hstep as (q1 & F1 & d1 & rest1 & items1 & Hq1 & Hinv1 & Hi1 & Hc1).
    rewrite <- Hi1 in Hops.
    destruct (IH q1 F1 d1 rest1 items1 fuel Hinv1 Hops)
      as (q' & F' & d' & rest' & items' & Hrun & Hinv' & Hi & Hc).
    exists q', F', d', rest', items'. cbn [qrun]. rewrite Hq1.
    split_conj; try assumption; congruence.
Qed.

Lemma chain_items_spec q rest : forall d items n,
  layout (pool q) ->
  Forall (is_slot (pool q)) rest ->
  node_chain (pool q) d rest ->
  Forall2 (fun a it => node_item q a = it) rest items ->
  (List.length rest <= n)%nat ->
  chain_items n q d = items.
Proof.
  induction rest as [|b rest IH]; intros d items n Hl Hall Hchain H2 Hn.
  - inversion H2; subst. cbn [node_chain] in Hchain. unfold node_next in Hchain.
    destruct n as [|n]; [reflexivity|].
    cbn [chain_items]. rewrite Hchain. reflexivity.
  - inversion H2 as [|? it ? items' Hit H2']; subst.
    cbn [node_chain] in Hchain. destruct Hchain as [Hnext Hchain].
    unfold node_next in Hnext.
    apply Forall_cons in Hall as [Hb Hall].
    destruct (live_handle_facts (pool q) b Hl Hb) as (_ & Hnn & Hda & _).
    destruct n as [|n]; [cbn [List.length] in Hn; lia|].
    cbn [chain_items]. rewrite Hnext, Hnn, Hda. f_equal.
    apply IH; try assumption. cbn [List.length] in Hn. lia.
Qed.

Lemma queue_contents_spec q F d rest items :
  queue_inv q F d rest items -> queue_contents q = items.
Proof.
  intros Hinv. pose proof Hinv as
    (Hpinv & Hall & _ & Hlen & _ & _ & _ & Hhead & _ & Hchain & H2 & _).
  pose proof Hpinv as ((Hl & _) & _).
  pose proof Hall as Hall'. apply Forall_cons in Hall' as [Hd Hrest].
  destruct (live_handle_facts (pool q) d Hl Hd) as (_ & _ & Hda & _).
  unfold queue_contents. rewrite Hhead, Hda.
  apply (chain_items_spec q rest); try assumption.
  cbn [List.length] in Hlen. rewrite length_app in Hlen. lia.
Qed.

(* ================================================================== *)
(** ** Queue: items of the tests *)

Lemma le_bytes_length n : forall v, List.length (le_bytes n v) = n.
Proof.
  induction n as [|n IH]; intros v; cbn [le_bytes List.length]; [reflexivity|].
  rewrite IH. reflexivity.
Qed.

Lemma le_bytes_range n : forall v, Forall (fun b => 0 <= b < 256) (le_bytes n v).
Proof.
  induction n as [|n IH]; intros v; cbn [le_bytes]; constructor.
  - apply Z.mod_pos_bound. lia.
  - apply IH.
Qed.

Lemma le_value_bytes n : forall v,
  0 <= v < 256 ^ Z.of_nat n -> le_value (le_bytes n v) = v.
Proof.
  induction n as [|n IH]; intros v Hv.
  - change (256 ^ Z.of_nat 0) with 1 in Hv. cbn [le_bytes le_value]. lia.
  - rewrite Nat2Z.inj_succ, Z.pow_succ_r in Hv by lia.
    cbn [le_bytes le_value]. rewrite IH.
    + pose proof (Z.div_mod v 256 ltac:(lia)). lia.
    + split; [apply Z.div_pos; lia | apply Z.div_lt_upper_bound; lia].
Qed.

Lemma int_bytes_item q v : item_size q = 4 -> is_item q (int_bytes v).
Proof.
  intros Hq. split.
  - unfold int_bytes. rewrite le_bytes_length, Hq. reflexivity.
  - apply le_bytes_range.
Qed.

Lemma demo_queue_fits isz cap :
  0 < isz < 2 ^ 20 -> 0 < cap < 2 ^ 20 ->
  queue_fits demo_env {| cfg_item_size := isz; cfg_capacity := cap |}.
Proof.
  intros Hi Hc. set (cfg := {| cfg_item_size := isz; cfg_capacity := cap |}).
  pose proof (queue_node_size_bounds cfg ltac:(cbn [cfg cfg_item_size]; lia)) as Hns.
  cbn [cfg cfg_item_size] in Hns.
  split; [cbn [cfg cfg_item_size]; lia|]. split; [cbn [cfg cfg_capacity]; lia|].
  assert (Hw : wrap64 (cap + 1) = cap + 1) by (apply wrap64_small; lia).
  unfold create_fits.
  change (create_alignment (queue_pool_config cfg)) with 8.
  cbn [queue_pool_config cfg_slot_size cfg_slot_count cfg_alignment aligned_alloc demo_env
       cfg cfg_capacity].
  rewrite Hw.
  assert (Hprod : (16 + queue_node_size cfg + 2 * 8 + 8) * (cap + 1) <= 2 ^ 21 * 2 ^ 21).
  { apply Z.mul_le_mono_nonneg; lia. }
  change (2 ^ 21 * 2 ^ 21) with (2 ^ 42) in Hprod.
  split_conj; lia.
Qed.

Lemma fifo_queue_created :
  anam_queue_create true demo_env (Some fifo_config) = Some fifo_queue.
Proof. vm_compute. reflexivity. Qed.

Lemma pair_queue_created :
  anam_queue_create true demo_env (Some pair_config) = Some pair_queue.
Proof. vm_compute. reflexivity. Qed.

(* ================================================================== *)
(** ** Queue: the drain loop of the destructor *)

Lemma drain_step r fuel q :
  drain (S r) fuel q
  = match anam_queue_pop fuel q false with
    | None => None
    | Some (true, _, q') => drain r fuel q'
    | Some (false, _, q') => Some q'
    end.
Proof. reflexivity. Qed.

Lemma drain_ok rest : forall q F d items fuel,
  queue_inv q F d rest items ->
  exists q' F' d',
    drain (S (List.length rest)) (S fuel) q = Some q'
    /\ queue_inv q' F' d' [] [].
Proof.
  induction rest as [|b rest IH]; intros q F d items fuel Hinv;
    pose proof (queue_inv_lengths _ _ _ _ _ Hinv) as Hlen;
    destruct items as [|it items]; try discriminate Hlen.
  - rewrite drain_step, (pop_empty q F d fuel false Hinv).
    exists (set_pop_fails q (wrap64 (pop_fails q + 1))), F, d.
    split; [reflexivity | apply queue_inv_pop_fails, Hinv].
  - destruct (pop_ok q F d b rest it items fuel false Hinv) as [Hpop Hinv1].
    destruct (IH (popped q d b) (d :: F) b items fuel Hinv1) as (q' & F' & d' & Hd & Hinv').
    exists q', F', d'. split; [|exact Hinv'].
    change (List.length (b :: rest)) with (S (List.length rest)).
    rewrite (drain_step (S (List.length rest)) (S fuel) q), Hpop. exact Hd.
Qed.

Lemma destroy_ok q F d rest items fuel :
  queue_inv q F d rest items ->
  exists p,
    anam_queue_destroy (S (List.length rest)) (S fuel) q = Some p
    /\ slots_free p = slot_count p.
Proof.
  intros Hinv.
  destruct (drain_ok rest q F d items fuel Hinv) as (q' & F' & d' & Hd & Hinv').
  unfold anam_queue_destroy. rewrite Hd.
  pose proof Hinv' as (Hpinv & Hall & Hnd & Hlen & _ & _ & _ & Hhead & _).
  pose proof Hpinv as ((Hl & _) & _).
  apply Forall_cons in Hall as [Hd' _].
  destruct (live_handle_facts (pool q') d' Hl Hd') as (_ & Hnn & _).
  rewrite Hhead, Hnn, (release_live (pool q') d' Hl Hd').
  eexists; split; [reflexivity|]. cbn [snd].
  cbn [app] in Hnd, Hlen. apply NoDup_cons in Hnd as [Hnotin _].
  destruct (pool_inv_release (pool q') d' F' Hpinv Hd' Hnotin) as (_ & _ & _ & _ & Hfree).
  rewrite Hfree, released_slot_count. exact Hlen.
Qed.

Lemma wrap64_succ_add x k : wrap64 (wrap64 (x + 1) + k) = wrap64 (x + (1 + k)).
Proof.
  unfold wrap64. rewrite Z.add_mod_idemp_l by lia. f_equal. lia.
Qed.

Lemma wrap64_idem x : wrap64 (wrap64 x) = wrap64 x.
Proof. unfold wrap64. apply Z.mod_mod. lia. Qed.

Lemma wrap64_congr_succ x y : wrap64 x = wrap64 y -> wrap64 (x + 1) = wrap64 (y + 1).
Proof.
  unfold wrap64. intros E.
  rewrite <- (Z.add_mod_idemp_l x), <- (Z.add_mod_idemp_l y), E by lia. reflexivity.
Qed.

(** The drain loop pops every item and then fails once: the queue it
    leaves is empty, on the same pool geometry, and the counters have
    moved by the number of items. *)
Lemma drain_full rest : forall q F d items fuel,
  queue_inv q F d rest items ->
  exists q' F' d',
    drain (S (List.length rest)) (S fuel) q = Some q'
    /\ queue_inv q' F' d' [] []
    /\ same_geometry (pool q) (pool q')
    /\ capacity q' = capacity q
    /\ wrap64 (pop_count q') = wrap64 (pop_count q + Z.of_nat (List.length rest))
    /\ pop_fails q' = wrap64 (pop_fails q + 1)
    /\ wrap64 (release_count (pool q'))
       = wrap64 (release_count (pool q) + Z.of_nat (List.length rest)).
Proof.
  induction rest as [|b rest IH]; intros q F d items fuel Hinv;
    pose proof (queue_inv_lengths _ _ _ _ _ Hinv) as Hlen;
    destruct items as [|it items]; try discriminate Hlen.
  - rewrite drain_step, (pop_empty q F d fuel false Hinv).
    exists (set_pop_fails q (wrap64 (pop_fails q + 1))), F, d.
    split; [reflexivity|]. split; [apply queue_inv_pop_fails, Hinv|].
    split; [repeat split|]. split; [reflexivity|].
    cbn [List.length]. rewrite !Z.add_0_r. split_conj; reflexivity.
  - destruct (pop_ok q F d b rest it items fuel false Hinv) as [Hpop Hinv1].
    destruct (IH (popped q d b) (d :: F) b items fuel Hinv1)
      as (q' & F' & d' & Hd & Hinv' & Hgeo & Hcap & Hpc & Hpf & Hrc).
    exists q', F', d'.
    change (List.length (b :: rest)) with (S (List.length rest)).
    rewrite (drain_step (S (List.length rest)) (S fuel) q), Hpop.
    split; [exact Hd|]. split; [exact Hinv'|].
    split; [exact Hgeo|]. split; [exact Hcap|].
    rewrite Nat2Z.inj_succ. split; [|split; [exact Hpf|]].
    + rewrite Hpc. change (pop_count (popped q d b)) with (wrap64 (pop_count q + 1)).
      rewrite wrap64_succ_add. f_equal. lia.
    + rewrite Hrc.
      change (release_count (pool (popped q d b)))
        with (wrap64 (release_count (pool q) + 1)).
      rewrite wrap64_succ_add. f_equal. lia.
Qed.

(** [anam_queue_destroy] on a quiescent queue: the drain loop empties the
    queue, the dummy is released, and the pool handed back to the
    allocator is the queue's pool with every slot free. *)
Lemma destroy_full q F d rest items fuel :
  queue_inv q F d rest items ->
  exists qd p,
    drain (S (List.length rest)) (S fuel) q = Some qd
    /\ queue_contents qd = [] /\ anam_queue_length qd = 0
    /\ wrap64 (pop_count qd) = wrap64 (pop_count q + Z.of_nat (List.length rest))
    /\ anam_queue_destroy (S (List.length rest)) (S fuel) q = Some p
    /\ same_geometry (pool q) p
    /\ slot_count p = capacity q + 1
    /\ slots_free p = slot_count p
    /\ free_reachable p = Some (slot_count p)
    /\ wrap64 (release_count p)
       = wrap64 (release_count (pool q) + Z.of_nat (List.length rest) + 1).
Proof.
  intros Hinv.
  destruct (drain_full rest q F d items fuel Hinv)
    as (q' & F' & d' & Hd & Hinv' & Hgeo & Hcap & Hpc & _ & Hrc).
  exists q', (released (pool q') d').
  pose proof Hinv' as (Hpinv & Hall & Hnd & Hlen & Hcount & _ & _ & Hhead & _ & _ & _ & Hl').
  pose proof Hpinv as ((Hl & _) & _).
  apply Forall_cons in Hall as [Hd' _].
  destruct (live_handle_facts (pool q') d' Hl Hd') as (_ & Hnn & _).
  cbn [app] in Hnd, Hlen. apply NoDup_cons in Hnd as [Hnotin _].
  pose proof (pool_inv_release (pool q') d' F' Hpinv Hd' Hnotin) as Hpinv2.
  pose proof (free_reachable_inv _ _ Hpinv2) as Hreach.
  pose proof Hpinv2 as (_ & _ & _ & _ & Hfree).
  split; [exact Hd|].
  split; [exact (queue_contents_spec _ _ _ _ _ Hinv')|].
  split; [exact Hl'|]. split; [exact Hpc|].
  split.
  { unfold anam_queue_destroy. rewrite Hd, Hhead, Hnn, (release_live (pool q') d' Hl Hd').
    reflexivity. }
  split.
  { destruct Hgeo as (G1 & G2 & G3 & G4 & G5 & G6). repeat split; assumption. }
  split; [rewrite released_slot_count, Hcount, Hcap; reflexivity|].
  split; [rewrite Hfree, released_slot_count; exact Hlen|].
  split; [rewrite Hreach, released_slot_count; f_equal; exact Hlen|].
  change (release_count (released (pool q') d'))
    with (wrap64 (release_count (pool q') + 1)).
  rewrite wrap64_idem. rewrite (wrap64_congr_succ _ _ Hrc). reflexivity.
Qed.

(* ================================================================== *)
(** ** Queue: the claims *)

(** C7: a queue created with capacity [C], starting empty, accepts [C]
    consecutive pushes, each returning a non-null handle; the next push
    returns the null handle and adds exactly one to [push_fails], and it
    leaves the contents, the length and [push_count] of the queue as they
    were. *)
Theorem push_until_full env cfg q0 ds extra fuel :
  queue_fits env cfg ->
  anam_queue_create true env (Some cfg) = Some q0 ->
  Z.of_nat (List.length ds) = cfg_capacity cfg ->
  Forall (is_item q0) ds ->
  queue_contents q0 = [] /\ anam_queue_length q0 = 0
  /\ exists hs q1 q2,
      push_all (S fuel) q0 ds = Some (hs, q1)
      /\ List.length hs = List.length ds
      /\ Forall (fun h => anam_is_null h = false) hs
      /\ queue_contents q1 = ds
      /\ anam_queue_length q1 = cfg_capacity cfg
      /\ anam_queue_push (S fuel) q1 (Some extra) = Some (ANAM_NULL, q2)
      /\ push_fails q2 = push_fails q1 + 1
      /\ queue_contents q2 = queue_contents q1
      /\ anam_queue_length q2 = anam_queue_length q1
      /\ push_count q2 = push_count q1.
Proof.
  intros Hfits Hcreate Hlen Hds.
  destruct (queue_create_inv env cfg q0 Hfits Hcreate)
    as (d & F & Hinv & HF & Hcap & Hisz & Hpc & Hpoc & Hpf & Hpof).
  split; [exact (queue_contents_spec _ _ _ _ _ Hinv)|].
  split; [pose proof Hinv as (_ & _ & _ & _ & _ & _ & _ & _ & _ & _ & _ & Hl); exact Hl|].
  destruct (push_all_ok ds q0 F d [] [] fuel Hinv Hds ltac:(lia))
    as (hs & q1 & Hall & Hl & Hnn & Hinv1 & _ & _ & Hpf1 & _).
  assert (Hdrop : drop (List.length ds) F = []) by (apply drop_ge; lia).
  rewrite Hdrop in Hinv1. cbn [app] in Hinv1.
  exists hs, q1, (set_push_fails q1 (wrap64 (push_fails q1 + 1))).
  split; [exact Hall|]. split; [exact Hl|]. split; [exact Hnn|].
  split; [exact (queue_contents_spec _ _ _ _ _ Hinv1)|].
  split.
  { pose proof Hinv1 as (_ & _ & _ & _ & _ & _ & _ & _ & _ & _ & _ & Hl1).
    pose proof (queue_inv_lengths _ _ _ _ _ Hinv1) as Hl2.
    unfold anam_queue_length. rewrite Hl1, Hl2. exact Hlen. }
  split; [exact (push_full q1 d _ _ extra (S fuel) Hinv1)|].
  split; [queue_simpl; rewrite Hpf1, Hpf; reflexivity|].
  split; [|split; reflexivity].
  rewrite (queue_contents_spec _ _ _ _ _ Hinv1).
  apply (queue_contents_spec _ [] d (take (List.length ds) F)).
  apply queue_inv_push_fails, Hinv1.
Qed.

Lemma push_until_full_witness :
  queue_contents pair_queue = [] /\ anam_queue_length pair_queue = 0
  /\ exists hs q1 q2,
      push_all 1 pair_queue [int_bytes 7; int_bytes 8] = Some (hs, q1)
      /\ List.length hs = 2%nat
      /\ Forall (fun h => anam_is_null h = false) hs
      /\ queue_contents q1 = [int_bytes 7; int_bytes 8]
      /\ anam_queue_length q1 = 2
      /\ anam_queue_push 1 q1 (Some (int_bytes 9)) = Some (ANAM_NULL, q2)
      /\ push_fails q2 = push_fails q1 + 1
      /\ queue_contents q2 = queue_contents q1
      /\ anam_queue_length q2 = anam_queue_length q1
      /\ push_count q2 = push_count q1.
Proof.
  apply (push_until_full demo_env pair_config pair_queue
           [int_bytes 7; int_bytes 8] (int_bytes 9) 0).
  - apply demo_queue_fits; lia.
  - exact pair_queue_created.
  - reflexivity.
  - repeat (apply Forall_cons_2; [apply int_bytes_item; vm_compute; reflexivity|]).
    apply Forall_nil_2.
Defined.

(** C6: on a queue created with capacity 100, pushing the integers
    0..99 in order succeeds each time; the next 100 pops each return true
    and hand back 0..99 in the order pushed; afterwards the queue is
    empty. *)
Theorem fifo_order env q0 fuel :
  queue_fits env fifo_config ->
  anam_queue_create true env (Some fifo_config) = Some q0 ->
  exists hs q1 q2,
    push_all (S fuel) q0 (map int_bytes (ints 100)) = Some (hs, q1)
    /\ List.length hs = 100%nat
    /\ Forall (fun h => anam_is_null h = false) hs
    /\ pop_n (S fuel) 100 q1
       = Some (map (fun v => (true, Some (int_bytes v))) (ints 100), q2)
    /\ map le_value (map int_bytes (ints 100)) = ints 100
    /\ fst (anam_queue_empty q2) = true.
Proof.
  intros Hfits Hcreate.
  destruct (queue_create_inv env fifo_config q0 Hfits Hcreate)
    as (d & F & Hinv & HF & Hcap & Hisz & _).
  cbn [fifo_config cfg_capacity cfg_item_size] in HF, Hcap, Hisz.
  assert (Hn : List.length (map int_bytes (ints 100)) = 100%nat) by reflexivity.
  assert (Hds : Forall (is_item q0) (map int_bytes (ints 100))).
  { apply List.Forall_forall. intros x Hx. apply in_map_iff in Hx as (v & <- & _).
    apply int_bytes_item, Hisz. }
  destruct (push_all_ok _ q0 F d [] [] fuel Hinv Hds ltac:(lia))
    as (hs & q1 & Hall & Hl & Hnn & Hinv1 & _).
  destruct (pop_n_ok _ q1 _ d _ fuel Hinv1) as (q2 & F2 & d2 & Hpop & Hinv2 & _).
  cbn [app] in Hpop. rewrite Hn, map_map in Hpop.
  exists hs, q1, q2.
  split; [exact Hall|]. split; [lia|]. split; [exact Hnn|]. split; [exact Hpop|].
  split; [vm_compute; reflexivity|].
  rewrite (queue_empty_spec q2 F2 d2 [] [] Hinv2). reflexivity.
Qed.

Lemma fifo_order_witness :
  exists hs q1 q2,
    push_all 1 fifo_queue (map int_bytes (ints 100)) = Some (hs, q1)
    /\ List.length hs = 100%nat
    /\ Forall (fun h => anam_is_null h = false) hs
    /\ pop_n 1 100 q1
       = Some (map (fun v => (true, Some (int_bytes v))) (ints 100), q2)
    /\ map le_value (map int_bytes (ints 100)) = ints 100
    /\ fst (anam_queue_empty q2) = true.
Proof.
  apply (fifo_order demo_env fifo_queue 0).
  - apply demo_queue_fits; lia.
  - exact fifo_queue_created.
Defined.

(** C10: on every non-empty queue reached from a created one (its
    contents are not the empty list; [anam_queue_empty] then returns
    false and the length is positive), [anam_queue_pop] with a null
    output pointer returns true and leaves the very queue that a pop into
    a buffer leaves: the front item is removed, the length is one less
    and [pop_count] is one more; only the copy of the payload is skipped.
    [anam_queue_destroy] relies on it: its drain loop, which pops with a
    null pointer until a pop fails, leaves the queue empty after as many
    successful pops as there were items; the dummy is then released, and
    the pool handed back is the queue's own pool (same geometry,
    [capacity + 1] slots) with every slot free and reachable on the free
    list, after one release per item and one for the dummy. *)
Theorem pop_without_buffer env cfg q0 ops q fuel :
  queue_fits env cfg ->
  anam_queue_create true env (Some cfg) = Some q0 ->
  Forall (qop_ok (cfg_item_size cfg)) ops ->
  qrun (S fuel) q0 ops = Some q ->
  queue_contents q <> [] ->
  fst (anam_queue_empty q) = false
  /\ 0 < anam_queue_length q
  /\ exists it q',
    anam_queue_pop (S fuel) q false = Some (true, None, q')
    /\ anam_queue_pop (S fuel) q true = Some (true, Some it, q')
    /\ queue_contents q = it :: queue_contents q'
    /\ anam_queue_length q' = anam_queue_length q - 1
    /\ pop_count q' = wrap64 (pop_count q + 1)
    /\ exists qd p,
        drain (S (Z.to_nat (anam_queue_length q))) (S fuel) q = Some qd
        /\ queue_contents qd = [] /\ anam_queue_length qd = 0
        /\ wrap64 (pop_count qd) = wrap64 (pop_count q + anam_queue_length q)
        /\ anam_queue_destroy (S (Z.to_nat (anam_queue_length q))) (S fuel) q = Some p
        /\ same_geometry (pool q) p
        /\ slot_count p = cfg_capacity cfg + 1
        /\ slots_free p = slot_count p
        /\ free_reachable p = Some (slot_count p)
        /\ wrap64 (release_count p)
           = wrap64 (release_count (pool q) + anam_queue_length q + 1).
Proof.
  intros Hfits Hcreate Hops Hrun Hne.
  destruct (queue_create_inv env cfg q0 Hfits Hcreate)
    as (d0 & F0 & Hinv0 & _ & Hcap0 & Hisz & _).
  rewrite <- Hisz in Hops.
  destruct (qrun_inv ops q0 F0 d0 [] [] fuel Hinv0 Hops)
    as (q1 & F & d & rest & items & Hrun1 & Hinv & _ & Hcap).
  rewrite Hrun in Hrun1. injection Hrun1 as <-.
  pose proof (queue_inv_lengths _ _ _ _ _ Hinv) as Hlen.
  rewrite (queue_contents_spec _ _ _ _ _ Hinv) in Hne.
  destruct items as [|it items]; [contradiction|].
  destruct rest as [|b rest]; [discriminate Hlen|].
  destruct (pop_ok q F d b rest it items fuel false Hinv) as [Hpop0 Hinv1].
  destruct (pop_ok q F d b rest it items fuel true Hinv) as [Hpop1 _].
  pose proof Hinv as (_ & _ & _ & _ & _ & _ & _ & _ & _ & _ & _ & Hl).
  pose proof Hinv1 as (_ & _ & _ & _ & _ & _ & _ & _ & _ & _ & _ & Hl1).
  split; [rewrite (queue_empty_spec q F d _ _ Hinv); reflexivity|].
  split; [unfold anam_queue_length; rewrite Hl; cbn [List.length]; lia|].
  exists it, (popped q d b).
  split; [exact Hpop0|]. split; [exact Hpop1|].
  split.
  { rewrite (queue_contents_spec _ _ _ _ _ Hinv), (queue_contents_spec _ _ _ _ _ Hinv1).
    reflexivity. }
  split; [unfold anam_queue_length; rewrite Hl, Hl1; cbn [List.length]; lia|].
  split; [reflexivity|].
  unfold anam_queue_length. rewrite Hl, Nat2Z.id, <- Hcap0, <- Hcap.
  exact (destroy_full q F d (b :: rest) (it :: items) fuel Hinv).
Qed.

Lemma pop_without_buffer_witness :
  let q := default pair_queue
             (qrun 1 pair_queue [QPush (int_bytes 7); QPush (int_bytes 8); QPop true]) in
  fst (anam_queue_empty q) = false
  /\ 0 < anam_queue_length q
  /\ exists it q',
    anam_queue_pop 1 q false = Some (true, None, q')
    /\ anam_queue_pop 1 q true = Some (true, Some it, q')
    /\ queue_contents q = it :: queue_contents q'
    /\ anam_queue_length q' = anam_queue_length q - 1
    /\ pop_count q' = wrap64 (pop_count q + 1)
    /\ exists qd p,
        drain (S (Z.to_nat (anam_queue_length q))) 1 q = Some qd
        /\ queue_contents qd = [] /\ anam_queue_length qd = 0
        /\ wrap64 (pop_count qd) = wrap64 (pop_count q + anam_queue_length q)
        /\ anam_queue_destroy (S (Z.to_nat (anam_queue_length q))) 1 q = Some p
        /\ same_geometry (pool q) p
        /\ slot_count p = cfg_capacity pair_config + 1
        /\ slots_free p = slot_count p
        /\ free_reachable p = Some (slot_count p)
        /\ wrap64 (release_count p)
           = wrap64 (release_count (pool q) + anam_queue_length q + 1).
Proof.
  apply (pop_without_buffer demo_env pair_config pair_queue
           [QPush (int_bytes 7); QPush (int_bytes 8); QPop true]).
  - apply demo_queue_fits; lia.
  - exact pair_queue_created.
  - repeat (apply Forall_cons_2; [first [exact I | split; [reflexivity | apply le_bytes_range]]|]).
    apply Forall_nil_2.
  - vm_compute. reflexivity.
  - vm_compute. discriminate.
Defined.

(** Every run of pushes and pops on a created queue ends: one round of
    each retry loop is enough when no other thread interferes. *)
Lemma qrun_total env cfg q0 ops fuel :
  queue_fits env cfg ->
  anam_queue_create true env (Some cfg) = Some q0 ->
  Forall (qop_ok (cfg_item_size cfg)) ops ->
  exists q, qrun (S fuel) q0 ops = Some q.
Proof.
  intros Hfits Hcreate Hops.
  destruct (queue_create_inv env cfg q0 Hfits Hcreate)
    as (d0 & F0 & Hinv0 & _ & _ & Hisz & _).
  rewrite <- Hisz in Hops.
  destruct (qrun_inv ops q0 F0 d0 [] [] fuel Hinv0 Hops) as (q & _ & _ & _ & _ & Hrun & _).
  exists q. exact Hrun.
Qed.

(* ================================================================== *)
(** ** Handles: from the fields back to the handle *)

(** X1: a 64-bit handle is determined by its three fields: encoding the
    generation, the address and the state read from a handle gives the
    handle back, so two handles with the same fields are equal. *)
Theorem handle_fields_determine (h : Z) :
  0 <= h < 2 ^ 64 ->
  encode_handle (decode_gen h) (decode_addr h) (anam_state h) = h
  /\ forall h', 0 <= h' < 2 ^ 64 ->
       decode_gen h' = decode_gen h -> decode_addr h' = decode_addr h ->
       anam_state h' = anam_state h -> h' = h.
Proof.
  assert (Hre : forall x, 0 <= x < 2 ^ 64 ->
            encode_handle (decode_gen x) (decode_addr x) (anam_state x) = x).
  { intros x Hx.
    assert (Hg : 0 <= Z.shiftr x 48 < 2 ^ 16).
    { rewrite Z.shiftr_div_pow2 by lia. split.
      - apply Z.div_pos; lia.
      - apply Z.div_lt_upper_bound; lia. }
    assert (Hs : 0 <= Z.land x 7 < 8).
    { change 7 with (Z.ones 3). rewrite Z.land_ones by lia.
      apply Z.mod_pos_bound. lia. }
    unfold decode_gen, anam_state.
    rewrite (wrap16_small (Z.shiftr x 48)) by exact Hg.
    rewrite (wrap8_small (Z.land x 7)) by lia.
    apply Z.bits_inj'. intros i Hi.
    rewrite testbit_encode;
      [| exact Hg | apply decode_addr_range; lia | apply decode_addr_mod8 | exact Hs | exact Hi].
    destruct (Z.ltb_spec i 3) as [H3|H3].
    - rewrite Z.land_spec. change 7 with ANAM_STATE_MASK. rewrite testbit_STATE_MASK.
      destruct (Z.leb_spec 0 i), (Z.ltb_spec i 3); try lia. apply andb_true_r.
    - destruct (Z.ltb_spec i 48) as [H48|H48].
      + rewrite testbit_decode_addr.
        destruct (Z.leb_spec 3 i), (Z.ltb_spec i 48); try lia. apply andb_true_r.
      + rewrite Z.shiftr_spec by lia. f_equal. lia. }
  intros Hh. split; [apply Hre; exact Hh|].
  intros h' Hh' Eg Ea Es.
  rewrite <- (Hre h' Hh'), <- (Hre h Hh), Eg, Ea, Es. reflexivity.
Qed.

Lemma handle_fields_determine_witness :
  encode_handle (decode_gen 281474976714769) (decode_addr 281474976714769)
                (anam_state 281474976714769) = 281474976714769
  /\ forall h', 0 <= h' < 2 ^ 64 ->
       decode_gen h' = decode_gen 281474976714769 ->
       decode_addr h' = decode_addr 281474976714769 ->
       anam_state h' = anam_state 281474976714769 -> h' = 281474976714769.
Proof. apply (handle_fields_determine 281474976714769). lia. Defined.

(* ================================================================== *)
(** ** Rounding up to an alignment *)

(** X2: for a power-of-two alignment and a value that does not overflow,
    [align_up] returns the least multiple of the alignment that is not
    below the value; a value that is already aligned is returned
    unchanged. *)
Theorem align_up_least (v al : Z) :
  is_pow2 al -> al < 2 ^ 64 -> 0 <= v -> v + al <= 2 ^ 64 ->
  align_up v al mod al = 0
  /\ v <= align_up v al < v + al
  /\ (forall m, v <= m -> m mod al = 0 -> align_up v al <= m)
  /\ (v mod al = 0 -> align_up v al = v).
Proof.
  intros [k [Hk ->]] Hal Hv Hb.
  assert (Hp : 0 < 2 ^ k) by (apply Z.pow_pos_nonneg; lia).
  assert (Hk64 : k < 64).
  { destruct (Z.lt_ge_cases k 64) as [H|H]; [exact H|].
    assert (2 ^ 64 <= 2 ^ k) by (apply Z.pow_le_mono_r; lia). lia. }
  assert (Hr : align_up v (2 ^ k) = (v + 2 ^ k - 1) / 2 ^ k * 2 ^ k).
  { unfold align_up. rewrite (wrap64_small (v + 2 ^ k - 1)) by lia.
    apply land_high_mask; lia. }
  assert (Hmod : align_up v (2 ^ k) mod 2 ^ k = 0) by (rewrite Hr; apply Z.mod_mul; lia).
  assert (Hrange : v <= align_up v (2 ^ k) < v + 2 ^ k).
  { rewrite Hr.
    pose proof (Z.div_mod (v + 2 ^ k - 1) (2 ^ k) ltac:(lia)) as Hdm.
    pose proof (Z.mod_pos_bound (v + 2 ^ k - 1) (2 ^ k) Hp) as Hmb.
    remember (2 ^ k) as P. remember ((v + P - 1) / P) as d.
    remember ((v + P - 1) mod P) as r. lia. }
  assert (Hleast : forall m, v <= m -> m mod 2 ^ k = 0 -> align_up v (2 ^ k) <= m).
  { intros m Hm Hmm.
    apply Z.mod_divide in Hmm; [|lia]. destruct Hmm as [c ->].
    apply Z.mod_divide in Hmod; [|lia]. destruct Hmod as [d Hd].
    rewrite Hd in *. remember (2 ^ k) as P.
    assert (d <= c); [|nia].
    destruct (Z.le_gt_cases d c) as [H|H]; [exact H|].
    assert (c + 1 <= d) by lia. nia. }
  split; [exact Hmod|]. split; [exact Hrange|]. split; [exact Hleast|].
  intros Hvm. pose proof (Hleast v ltac:(lia) Hvm). lia.
Qed.

Lemma align_up_least_witness :
  align_up 70 16 mod 16 = 0
  /\ 70 <= align_up 70 16 < 70 + 16
  /\ (forall m, 70 <= m -> m mod 16 = 0 -> align_up 70 16 <= m)
  /\ (70 mod 16 = 0 -> align_up 70 16 = 70).
Proof.
  apply (align_up_least 70 16).
  - exists 4. split; [lia | reflexivity].
  - lia.
  - lia.
  - lia.
Defined.

(* ================================================================== *)
(** ** Geometry of a created pool *)

Lemma init_slots_header n : forall p,
  memory (init_slots n p) = memory p
  /\ alignment (init_slots n p) = alignment p
  /\ slot_stride_mask (init_slots n p) = slot_stride_mask p.
Proof.
  induction n as [|n IH]; intros p; cbn [init_slots]; [repeat split|].
  destruct (IH (init_slot p (Z.of_nat n))) as (E1 & E2 & E3).
  rewrite E1, E2, E3. repeat split.
Qed.

Lemma fits_alignment env cfg :
  create_fits env cfg -> 0 <= cfg_alignment cfg < 2 ^ 64.
Proof.
  intros (Hsz & Hcnt & Hal0 & Hmem & Hbound). split; [exact Hal0|].
  destruct (Z.eq_dec (cfg_alignment cfg) 0) as [E|NE]; [lia|].
  pose proof (create_alignment_nonzero cfg NE) as Eal.
  assert (16 + cfg_slot_size cfg + 2 * create_alignment cfg + 8
          <= (16 + cfg_slot_size cfg + 2 * create_alignment cfg + 8) * cfg_slot_count cfg)
    by nia.
  lia.
Qed.

Lemma create_geometry env cfg :
  create_fits env cfg -> is_pow2 (create_alignment cfg) -> 8 <= create_alignment cfg ->
  let al := create_alignment cfg in
  let mem := aligned_alloc env al (create_total cfg) in
  mem + 16 <= create_base cfg mem < mem + 16 + al
  /\ create_base cfg mem mod al = 0
  /\ create_stride cfg mod al = 0
  /\ 16 + cfg_slot_size cfg <= create_stride cfg
  /\ create_stride cfg * cfg_slot_count cfg + al <= create_total cfg
  /\ create_stride cfg * cfg_slot_count cfg <= 2 ^ 48.
Proof.
  intros (Hsz & Hcnt & Hal0 & Hmem & Hfit) Hpow H8. cbv zeta.
  set (al := create_alignment cfg) in *.
  set (mem := aligned_alloc env al (create_total cfg)) in *.
  assert (Hprod2 : 16 + cfg_slot_size cfg + 2 * al + 8
                   <= (16 + cfg_slot_size cfg + 2 * al + 8) * cfg_slot_count cfg) by nia.
  assert (Hh : 16 <= align_up sizeof_SlotHeader al < 16 + al
               /\ align_up sizeof_SlotHeader al mod al = 0).
  { apply align_up_spec; [exact Hpow | unfold sizeof_SlotHeader; lia |
                          unfold sizeof_SlotHeader; lia]. }
  assert (Hu : cfg_slot_size cfg <= align_up (cfg_slot_size cfg) al < cfg_slot_size cfg + al
               /\ align_up (cfg_slot_size cfg) al mod al = 0).
  { apply align_up_spec; [exact Hpow | lia | lia]. }
  assert (Hal : 0 < al) by lia.
  assert (Hsum : (align_up sizeof_SlotHeader al + align_up (cfg_slot_size cfg) al) mod al = 0).
  { destruct Hh as [_ Hh], Hu as [_ Hu].
    apply Z.mod_divide in Hh; [|lia]. apply Z.mod_divide in Hu; [|lia].
    apply Z.mod_divide; [lia|]. apply Z.divide_add_r; assumption. }
  assert (Hs : create_stride cfg
               = align_up sizeof_SlotHeader al + align_up (cfg_slot_size cfg) al).
  { unfold create_stride. fold al. rewrite wrap64_small by lia.
    pose proof (align_up_spec
                  (align_up sizeof_SlotHeader al + align_up (cfg_slot_size cfg) al) 8
                  is_pow2_8 ltac:(lia) ltac:(lia)) as [Hr Hm].
    pose proof (pow2_ge8_mod8 al _ Hpow H8 Hsum) as Hm8.
    apply Z.mod_divide in Hm; [|lia]. apply Z.mod_divide in Hm8; [|lia].
    destruct Hm as [c Hc], Hm8 as [d Hd]. lia. }
  assert (Hb : mem + 16 <= create_base cfg mem < mem + 16 + al
               /\ create_base cfg mem mod al = 0).
  { unfold create_base, sizeof_SlotHeader. fold al. rewrite wrap64_small by lia.
    apply align_up_spec; [exact Hpow | lia | lia]. }
  assert (Hsc : 0 <= create_stride cfg * cfg_slot_count cfg
                <= (16 + cfg_slot_size cfg + 2 * al + 8) * cfg_slot_count cfg) by nia.
  split; [apply Hb|]. split; [apply Hb|]. split; [rewrite Hs; exact Hsum|].
  split; [lia|]. split; [|lia].
  unfold create_total. fold al.
  rewrite (wrap64_small (create_stride cfg * cfg_slot_count cfg)) by lia.
  rewrite wrap64_small by lia.
  apply align_up_spec; [exact Hpow | lia | lia].
Qed.



(* ================================================================== *)
(** ** The strict build of [in_pool] *)

Lemma created_mask env cfg p0 :
  create_fits env cfg ->
  anam_pool_create env (Some cfg) = Some p0 ->
  forall off, 0 <= off ->
    (if negb (slot_stride_mask p0 =? 0)
     then Z.land off (slot_stride_mask p0) =? 0
     else off mod slot_stride p0 =? 0)
    = (off mod slot_stride p0 =? 0).
Proof.
  intros Hfit Hcreate off Hoff.
  pose proof (fits_alignment env cfg Hfit) as Hal.
  destruct (create_success env cfg p0 Hal Hcreate) as (Hpow & H8 & Hp0).
  destruct (create_geometry env cfg Hfit Hpow H8) as (_ & _ & _ & Hst & _ & Hlim).
  pose proof Hfit as (Hsz0 & Hcnt0 & _).
  destruct (init_slots_header (Z.to_nat (cfg_slot_count cfg))
              (create_struct env cfg
                 (aligned_alloc env (create_alignment cfg) (create_total cfg))))
    as (_ & _ & Emask).
  destruct (init_slots_fields (Z.to_nat (cfg_slot_count cfg))
              (create_struct env cfg
                 (aligned_alloc env (create_alignment cfg) (create_total cfg))))
    as (_ & Es & _).
  rewrite <- Hp0 in Emask, Es.
  cbn [slot_stride_mask slot_stride create_struct] in Emask, Es.
  rewrite Emask, Es. remember (create_stride cfg) as st eqn:Est.
  assert (Hst64 : 0 < st < 2 ^ 64) by nia.
  rewrite (wrap64_small (st - 1)) by lia.
  destruct (Z.eqb_spec (Z.land st (st - 1)) 0) as [Hland|Hland].
  - assert (Hp : is_pow2 st).
    { apply land_pred_pow2; [exact Hst64|]. rewrite wrap64_small by lia. exact Hland. }
    destruct Hp as (k & Hk & Hk2).
    destruct (Z.eqb_spec (st - 1) 0) as [E|_]; [lia|]. cbn [negb].
    replace (st - 1) with (Z.ones k) by (rewrite Z.ones_equiv; lia).
    rewrite Z.land_ones by lia. rewrite <- Hk2. reflexivity.
  - reflexivity.
Qed.

Lemma strict_test env cfg p0 :
  create_fits env cfg ->
  anam_pool_create env (Some cfg) = Some p0 ->
  forall x, 0 <= x < 2 ^ 64 ->
    in_pool_strict p0 x
    = if (x <? slots_base p0) || (pool_end p0 <=? x) then false
      else (x - slots_base p0) mod slot_stride p0 =? 0.
Proof.
  intros Hfit Hcreate x Hx.
  pose proof (created_mask env cfg p0 Hfit Hcreate) as Hmask.
  destruct (create_inv env cfg p0 Hfit Hcreate) as (Hinv & _).
  pose proof Hinv as ((Hl & _) & _).
  pose proof Hl as (Hc & Hbs & Hb8 & Hsz & Hst & Hst8 & Hend).
  unfold in_pool_strict, on_slot_boundary.
  destruct (Z.ltb_spec x (slots_base p0)) as [H1|H1]; [reflexivity|].
  destruct (Z.leb_spec (pool_end p0) x) as [H2|H2]; [reflexivity|].
  cbn [orb]. rewrite wrap64_small by lia. apply Hmask. lia.
Qed.

Lemma mid_slot_tests env cfg p0 a :
  create_fits env cfg ->
  anam_pool_create env (Some cfg) = Some p0 ->
  is_slot p0 a ->
  in_pool p0 (a + 8) = true /\ in_pool_strict p0 (a + 8) = false.
Proof.
  intros Hfit Hcreate Ha.
  destruct (create_inv env cfg p0 Hfit Hcreate) as (Hinv & _).
  pose proof Hinv as ((Hl & _) & _).
  pose proof Hl as (Hc & Hbs & Hb8 & Hsz & Hst & Hst8 & Hend).
  pose proof (pool_end_plain p0 Hl) as Hpe.
  destruct (slot_bounds p0 a Hl Ha) as (B1 & B2 & B3 & B4 & _).
  assert (Hin : (a + 8 <? slots_base p0) || (pool_end p0 <=? a + 8) = false).
  { rewrite Hpe.
    destruct (Z.ltb_spec (a + 8) (slots_base p0)); [lia|].
    destruct (Z.leb_spec (slots_base p0 + slot_count p0 * slot_stride p0) (a + 8)); [lia|].
    reflexivity. }
  split; [unfold in_pool; rewrite Hin; reflexivity|].
  rewrite (strict_test env cfg p0 Hfit Hcreate) by lia. rewrite Hin.
  destruct Ha as (i & Hi & ->). unfold slot_addr.
  replace (slots_base p0 + i * slot_stride p0 + 8 - slots_base p0)
    with (8 + i * slot_stride p0) by lia.
  rewrite Z.mod_add by lia. rewrite Z.mod_small by lia. reflexivity.
Qed.

(** X4: in a created pool, the test of [in_pool] in the build with
    [ANAM_STRICT_VALIDATION] accepts exactly the payload addresses of the
    slots, whether it takes the masking path or the modulo path; the
    default build also accepts an address in the middle of a slot, which
    the strict build refuses. *)
Theorem strict_in_pool_slots env cfg p0 ptr :
  create_fits env cfg ->
  anam_pool_create env (Some cfg) = Some p0 ->
  0 <= ptr < 2 ^ 64 ->
  (in_pool_strict p0 ptr = true <-> is_slot p0 ptr)
  /\ forall a, is_slot p0 a ->
       in_pool p0 (a + 8) = true /\ in_pool_strict p0 (a + 8) = false.
Proof.
  intros Hfit Hcreate Hptr.
  destruct (create_inv env cfg p0 Hfit Hcreate) as (Hinv & _).
  pose proof Hinv as ((Hl & _) & _).
  pose proof Hl as (Hc & Hbs & Hb8 & Hsz & Hst & Hst8 & Hend).
  pose proof (pool_end_plain p0 Hl) as Hpe.
  split; [|intros a Ha; exact (mid_slot_tests env cfg p0 a Hfit Hcreate Ha)].
  rewrite (strict_test env cfg p0 Hfit Hcreate ptr Hptr), Hpe. split.
  - destruct (Z.ltb_spec ptr (slots_base p0)) as [H1|H1]; [discriminate|].
    destruct (Z.leb_spec (slots_base p0 + slot_count p0 * slot_stride p0) ptr) as [H2|H2];
      [discriminate|].
    cbn [orb]. intros Hm. apply Z.eqb_eq in Hm.
    apply Z.mod_divide in Hm; [|lia]. destruct Hm as [i Hi].
    exists i. unfold slot_addr. split; [nia | lia].
  - intros Ha. destruct (slot_bounds p0 ptr Hl Ha) as (B1 & B2 & _).
    destruct Ha as (i & Hi & ->). unfold slot_addr in *.
    destruct (Z.ltb_spec (slots_base p0 + i * slot_stride p0) (slots_base p0)); [lia|].
    destruct (Z.leb_spec (slots_base p0 + slot_count p0 * slot_stride p0)
                         (slots_base p0 + i * slot_stride p0)); [lia|].
    cbn [orb]. apply Z.eqb_eq.
    replace (slots_base p0 + i * slot_stride p0 - slots_base p0) with (i * slot_stride p0)
      by lia.
    apply Z.mod_mul. lia.
Qed.

Lemma strict_in_pool_slots_witness :
  (in_pool_strict demo_pool 4208 = true <-> is_slot demo_pool 4208)
  /\ forall a, is_slot demo_pool a ->
       in_pool demo_pool (a + 8) = true /\ in_pool_strict demo_pool (a + 8) = false.
Proof.
  apply (strict_in_pool_slots demo_env (mk_config 64 10 0) demo_pool 4208).
  - apply demo_env_fits; lia.
  - exact demo_pool_created.
  - lia.
Defined.

(* ================================================================== *)
(** ** A handle forged into the middle of a slot *)

(** X5: in the default build the address test of [in_pool] is a range
    test only, so a handle that points 8 bytes into the payload of a slot
    and claims as generation the first two payload bytes of that slot is
    accepted by [anam_get], which returns the address inside the slot,
    and by [anam_release], although that address is not a slot. *)
Theorem forged_mid_slot_handle env cfg p0 a :
  create_fits env cfg ->
  anam_pool_create env (Some cfg) = Some p0 ->
  is_slot p0 a ->
  let h := encode_handle (load16 (heap p0) a) (a + 8) ANAM_STATE_LIVE in
  ~ is_slot p0 (a + 8)
  /\ anam_get p0 h = (a + 8, p0)
  /\ fst (anam_release p0 h) = true
  /\ in_pool_strict p0 (decode_addr h) = false.
Proof.
  intros Hfit Hcreate Ha. cbv zeta.
  destruct (create_inv env cfg p0 Hfit Hcreate) as (Hinv & _).
  pose proof Hinv as ((Hl & _) & _).
  pose proof Hl as (Hc & Hbs & Hb8 & Hsz & Hst & Hst8 & Hend).
  destruct (slot_bounds p0 a Hl Ha) as (B1 & B2 & B3 & B4 & B5).
  pose proof (load16_range (heap p0) a) as Hg.
  assert (Hmod : (a + 8) mod 8 = 0).
  { apply Z.mod_divide in B5; [|lia]. apply Z.mod_divide; [lia|].
    apply Z.divide_add_r; [exact B5 | exists 1; lia]. }
  assert (Hr : 0 <= a + 8 < 2 ^ 48) by lia.
  assert (Hs : 0 <= ANAM_STATE_LIVE < 8) by (unfold ANAM_STATE_LIVE; lia).
  pose proof (decode_addr_encode _ _ _ Hg Hr Hmod Hs) as Hd.
  pose proof (decode_gen_encode _ _ _ Hg Hr Hmod Hs) as Hdg.
  pose proof (anam_state_encode _ _ _ Hg Hr Hmod Hs) as Hds.
  pose proof (encode_handle_nonnull _ _ _ Hg Hr Hmod Hs ltac:(left; lia)) as Hnn.
  assert (Hnot : ~ is_slot p0 (a + 8)).
  { intros Hb. destruct (slot_apart p0 a (a + 8) Hl Ha Hb ltac:(lia)); lia. }
  assert (Hauth : authenticates p0
                    (encode_handle (load16 (heap p0) a) (a + 8) ANAM_STATE_LIVE)).
  { split; [intros E; rewrite E in Hnn; discriminate|].
    split; [exact Hds|]. rewrite Hd. split.
    - unfold in_pool. rewrite (pool_end_plain p0 Hl).
      destruct (Z.ltb_spec (a + 8) (slots_base p0)); [lia|].
      destruct (Z.leb_spec (slots_base p0 + slot_count p0 * slot_stride p0) (a + 8)); [lia|].
      reflexivity.
    - unfold header_generation.
      destruct (header_addresses (a + 8) ltac:(lia)) as (_ & _ & Eg). rewrite Eg.
      change (anam_generation ?x) with (decode_gen x). rewrite Hdg. f_equal. lia. }
  split; [exact Hnot|].
  split; [rewrite (anam_get_authentic _ _ Hauth), Hd; reflexivity|].
  split; [rewrite (anam_release_authentic _ _ Hauth); reflexivity|].
  rewrite Hd. apply (mid_slot_tests env cfg p0 a Hfit Hcreate Ha).
Qed.

Lemma forged_mid_slot_handle_witness :
  let h := encode_handle (load16 (heap demo_pool) 4112) (4112 + 8) ANAM_STATE_LIVE in
  ~ is_slot demo_pool (4112 + 8)
  /\ anam_get demo_pool h = (4112 + 8, demo_pool)
  /\ fst (anam_release demo_pool h) = true
  /\ in_pool_strict demo_pool (decode_addr h) = false.
Proof.
  apply (forged_mid_slot_handle demo_env (mk_config 64 10 0) demo_pool 4112).
  - apply demo_env_fits; lia.
  - exact demo_pool_created.
  - exists 0. split; [vm_compute; split; [discriminate | reflexivity] | vm_compute; reflexivity].
Defined.

(* ================================================================== *)
(** ** States reached from a created pool *)

Lemma created_tracked env cfg p0 :
  create_fits env cfg ->
  anam_pool_create env (Some cfg) = Some p0 ->
  tracked p0 (all_slots p0) [].
Proof.
  intros Hfit Hcreate.
  destruct (create_inv env cfg p0 Hfit Hcreate)
    as (Hinv0 & _ & _ & _ & _ & _ & Hac & Hrc & _ & _).
  split; [exact Hinv0|]. split.
  - pose proof (pool_inv_length p0 _ Hinv0) as [Hlen Hcnt].
    destruct Hinv0 as ((Hl & _) & _ & _ & _ & Hfree).
    rewrite all_slots_length in Hfree.
    unfold counters_inv. rewrite Hac, Hrc, Hfree.
    destruct Hl as (Hc & _).
    split; [lia|]. split; [lia|].
    replace (0 - 0 + Z.of_nat (Z.to_nat (slot_count p0)) - slot_count p0) with 0 by lia.
    reflexivity.
  - split; [apply NoDup_nil_2 | apply Forall_nil_2].
Qed.

Lemma reached_tracked env cfg p0 ops :
  create_fits env cfg ->
  anam_pool_create env (Some cfg) = Some p0 ->
  disciplined p0 [] ops = true ->
  exists F, tracked (run p0 ops) F (held_after p0 [] ops).
Proof.
  intros Hfit Hcreate Hdis.
  exact (tracked_run ops p0 _ _ (created_tracked env cfg p0 Hfit Hcreate) Hdis).
Qed.

(** No operation changes the geometry or the flags of a pool. *)
Lemma alloc_geometry p : same_geometry p (snd (anam_alloc p)).
Proof.
  unfold anam_alloc. destruct (anam_is_null (free_head p)); [repeat split|].
  cbv zeta. pool_simpl.
  destruct (generation_max p <? _); pool_simpl;
    destruct (zero_on_alloc p); repeat split.
Qed.

Lemma release_geometry p h : same_geometry p (snd (anam_release p h)).
Proof.
  destruct (release_cases p h) as [E|[E|[_ E]]]; rewrite E; repeat split.
Qed.

Lemma get_geometry p h : same_geometry p (snd (anam_get p h)).
Proof.
  destruct (get_cases p h) as [E|[E|E]]; rewrite E; repeat split.
Qed.

Lemma step_geometry p o : same_geometry p (step p o).
Proof.
  destruct o; cbn [step];
    [apply alloc_geometry | apply release_geometry | apply get_geometry].
Qed.

Lemma run_geometry ops : forall p, same_geometry p (run p ops).
Proof.
  induction ops as [|o ops IH]; intros p; [repeat split|].
  rewrite run_cons.
  destruct (step_geometry p o) as (A1 & A2 & A3 & A4 & A5 & A6).
  destruct (IH (step p o)) as (B1 & B2 & B3 & B4 & B5 & B6).
  repeat split; congruence.
Qed.

(* ================================================================== *)
(** ** A pool right after its creation *)

(** X6: the statistics of a pool right after [anam_pool_create] show
    every slot free and none live, no allocation, release or exposed
    counterfeit, generation 0 throughout; the free list reaches every
    slot; and a null configuration stands for the default one. *)
Theorem created_pool_stats env cfg p0 :
  create_fits env cfg ->
  anam_pool_create env (Some cfg) = Some p0 ->
  anam_pool_stats p0
  = {| st_slot_count := cfg_slot_count cfg; st_slots_free := cfg_slot_count cfg;
       st_slots_live := 0; st_alloc_count := 0; st_release_count := 0;
       st_anamnesis_count := 0; st_generation_max := 0 |}
  /\ free_reachable p0 = Some (cfg_slot_count cfg)
  /\ (forall a, is_slot p0 a -> header_generation p0 a = 0)
  /\ anam_pool_create env None = anam_pool_create env (Some ANAM_POOL_DEFAULT).
Proof.
  intros Hfit Hcreate.
  destruct (create_inv env cfg p0 Hfit Hcreate)
    as (Hinv & Hgen & Hcnt & _ & _ & _ & Hac & Hrc & Han & Hgm).
  pose proof (free_reachable_inv p0 _ Hinv) as Hreach.
  pose proof Hinv as ((Hl & _) & _ & _ & _ & Hfree).
  rewrite all_slots_length in Hfree, Hreach.
  destruct Hl as (Hc & _).
  rewrite Z2Nat.id in Hfree, Hreach by lia.
  split; [|split; [rewrite Hreach, Hcnt; reflexivity | split; [exact Hgen | reflexivity]]].
  unfold anam_pool_stats. rewrite Hfree, Hcnt, Hac, Hrc, Han, Hgm.
  rewrite Z.sub_diag. reflexivity.
Qed.

Lemma created_pool_stats_witness :
  anam_pool_stats demo_pool
  = {| st_slot_count := cfg_slot_count (mk_config 64 10 0);
       st_slots_free := cfg_slot_count (mk_config 64 10 0);
       st_slots_live := 0; st_alloc_count := 0; st_release_count := 0;
       st_anamnesis_count := 0; st_generation_max := 0 |}
  /\ free_reachable demo_pool = Some (cfg_slot_count (mk_config 64 10 0))
  /\ (forall a, is_slot demo_pool a -> header_generation demo_pool a = 0)
  /\ anam_pool_create demo_env None = anam_pool_create demo_env (Some ANAM_POOL_DEFAULT).
Proof.
  apply (created_pool_stats demo_env (mk_config 64 10 0) demo_pool).
  - apply demo_env_fits; lia.
  - exact demo_pool_created.
Defined.

(* ================================================================== *)
(** ** Exhausting a pool *)

Lemma alloc_n_tracked n : forall p F L,
  tracked p F L ->
  (n <= List.length F)%nat ->
  (forall a, a ∈ F -> header_generation p a = 0) ->
  alloc_n n p = (map (fun a => encode_handle 0 a ANAM_STATE_LIVE) (take n F),
                 snd (alloc_n n p))
  /\ tracked (snd (alloc_n n p)) (drop n F)
       (rev (map (fun a => encode_handle 0 a ANAM_STATE_LIVE) (take n F)) ++ L)
  /\ same_geometry p (snd (alloc_n n p)).
Proof.
  induction n as [|n IH]; intros p F L Ht Hn Hgen.
  - cbn [alloc_n take drop map snd rev app].
    split; [reflexivity|]. split; [exact Ht | repeat split].
  - destruct F as [|a F]; [cbn [List.length] in Hn; lia|].
    destruct (tracked_alloc p a F L Ht) as (Ealloc & Hnn & Ht1).
    pose proof Ht as (Hinv & _).
    pose proof Hinv as ((Hl & _) & HndF & HallF & _).
    apply NoDup_cons in HndF as [HaF HndF].
    apply Forall_cons in HallF as [Ha HallF].
    rewrite (Hgen a) in Ealloc, Ht1 by apply list_elem_of_here.
    assert (Hgen1 : forall b, b ∈ F -> header_generation (allocated p a) b = 0).
    { intros b Hb. rewrite Forall_forall in HallF.
      destruct (other_slot_headers p (allocated p a) a b Hl Ha (HallF b Hb)) as [E _].
      - intros E. apply HaF. rewrite E. exact Hb.
      - apply allocated_frame; assumption.
      - rewrite E. apply Hgen. apply list_elem_of_further. exact Hb. }
    destruct (IH (allocated p a) F (encode_handle 0 a ANAM_STATE_LIVE :: L) Ht1
                 ltac:(cbn [List.length] in Hn; lia) Hgen1)
      as (Ealln & Ht' & Hgeo).
    assert (Esnd : snd (alloc_n (S n) p) = snd (alloc_n n (allocated p a))).
    { cbn [alloc_n]. rewrite Ealloc. destruct (alloc_n n (allocated p a)). reflexivity. }
    rewrite Esnd. cbn [take drop map rev].
    split.
    { cbn [alloc_n]. rewrite Ealloc, Ealln. reflexivity. }
    split; [rewrite <- app_assoc; exact Ht'|].
    destruct (alloc_geometry p) as (A1 & A2 & A3 & A4 & A5 & A6).
    rewrite Ealloc in A1, A2, A3, A4, A5, A6. cbn [snd] in A1, A2, A3, A4, A5, A6.
    destruct Hgeo as (B1 & B2 & B3 & B4 & B5 & B6).
    repeat split; congruence.
Qed.

(** X7: from a pool right after its creation, [slot_count] calls of
    [anam_alloc] return pairwise different handles, one per slot in index
    order, each non-null, LIVE, of generation 0 and accepted by
    [anam_get]; the next call returns the null handle and leaves the pool
    as it is, with no slot free. *)
Theorem pool_exhaustion env cfg p0 :
  create_fits env cfg ->
  anam_pool_create env (Some cfg) = Some p0 ->
  let hs := fst (alloc_n (Z.to_nat (cfg_slot_count cfg)) p0) in
  let p := snd (alloc_n (Z.to_nat (cfg_slot_count cfg)) p0) in
  map decode_addr hs = all_slots p0
  /\ NoDup hs
  /\ Forall (fun h => anam_is_null h = false
                      /\ anam_generation h = 0
                      /\ anam_state h = ANAM_STATE_LIVE
                      /\ anam_get p h = (decode_addr h, p)) hs
  /\ anam_alloc p = (ANAM_NULL, p)
  /\ st_slots_free (anam_pool_stats p) = 0
  /\ st_slots_live (anam_pool_stats p) = cfg_slot_count cfg.
Proof.
  intros Hfit Hcreate. cbv zeta.
  destruct (create_inv env cfg p0 Hfit Hcreate) as (Hinv0 & Hgen0 & Hcnt & _).
  pose proof (created_tracked env cfg p0 Hfit Hcreate) as Ht0.
  pose proof (all_slots_length p0) as Hlen. rewrite Hcnt in Hlen.
  destruct (alloc_n_tracked (Z.to_nat (cfg_slot_count cfg)) p0 (all_slots p0) [] Ht0)
    as (Ealln & Ht & Hgeo); [lia | |].
  { intros a Ha. apply Hgen0. apply all_slots_is_slot. exact Ha. }
  rewrite <- Hlen in Ealln, Ht. rewrite firstn_all in Ealln, Ht.
  rewrite drop_all, app_nil_r in Ht.
  rewrite Hlen in Ealln, Ht. rewrite Ealln. cbn [fst snd].
  set (p := snd (alloc_n (Z.to_nat (cfg_slot_count cfg)) p0)) in *.
  pose proof Hinv0 as ((Hl0 & _) & Hnd0 & Hall0 & _).
  destruct Ht as (Hinv & _ & HndL & HallL).
  pose proof Hinv as ((Hl & _) & _ & _ & _ & Hfree).
  destruct Hgeo as (G1 & G2 & G3 & G4 & _).
  assert (Hslot : forall a, is_slot p a <-> is_slot p0 a).
  { intros a. unfold is_slot, slot_addr. rewrite G2, G3, G4. reflexivity. }
  assert (Hdec : forall a, a ∈ all_slots p0 ->
            decode_addr (encode_handle 0 a ANAM_STATE_LIVE) = a
            /\ anam_is_null (encode_handle 0 a ANAM_STATE_LIVE) = false
            /\ anam_generation (encode_handle 0 a ANAM_STATE_LIVE) = 0
            /\ anam_state (encode_handle 0 a ANAM_STATE_LIVE) = ANAM_STATE_LIVE).
  { intros a Ha. apply all_slots_is_slot in Ha.
    destruct (slot_handle p0 a 0 ANAM_STATE_LIVE Hl0 Ha) as (_ & Hnn & Hd & Hg & Hs);
      [lia | unfold ANAM_STATE_LIVE; lia|].
    repeat split; assumption. }
  split.
  { rewrite map_map. rewrite <- (map_id (all_slots p0)) at 2.
    apply map_ext_in. intros a Ha. apply Hdec. apply list_elem_of_In. exact Ha. }
  split.
  { apply NoDup_ListNoDup. apply Finite.Injective_map_NoDup_in.
    - intros a b Ha Hb E.
      destruct (Hdec a (proj2 (list_elem_of_In _ _) Ha)) as (Da & _).
      destruct (Hdec b (proj2 (list_elem_of_In _ _) Hb)) as (Db & _).
      rewrite <- Da, <- Db, E. reflexivity.
    - apply NoDup_ListNoDup. exact Hnd0. }
  split.
  { apply List.Forall_forall. intros h Hh. apply in_map_iff in Hh as (a & <- & Ha).
    destruct (Hdec a (proj2 (list_elem_of_In _ _) Ha)) as (Da & Hnn & Hg & Hs).
    split; [exact Hnn|]. split; [exact Hg|]. split; [exact Hs|].
    apply anam_get_authentic.
    rewrite Forall_forall in HallL.
    apply (HallL (encode_handle 0 a ANAM_STATE_LIVE)).
    apply list_elem_of_In. apply -> in_rev.
    apply (in_map (fun a => encode_handle 0 a ANAM_STATE_LIVE)). exact Ha. }
  split; [apply pool_inv_alloc_empty; exact Hinv|].
  cbn [anam_pool_stats st_slots_free st_slots_live]. rewrite Hfree. cbn [List.length].
  split; [reflexivity|].
  rewrite G3, Hcnt. rewrite Z.sub_0_r. apply wrap64_small.
  destruct Hl0 as (Hc0 & _). pose proof (pool_inv_length p0 _ Hinv0) as [_ Hb].
  rewrite Hcnt in Hb. lia.
Qed.

Lemma pool_exhaustion_witness :
  let hs := fst (alloc_n (Z.to_nat (cfg_slot_count (mk_config 64 10 0))) demo_pool) in
  let p := snd (alloc_n (Z.to_nat (cfg_slot_count (mk_config 64 10 0))) demo_pool) in
  map decode_addr hs = all_slots demo_pool
  /\ NoDup hs
  /\ Forall (fun h => anam_is_null h = false
                      /\ anam_generation h = 0
                      /\ anam_state h = ANAM_STATE_LIVE
                      /\ anam_get p h = (decode_addr h, p)) hs
  /\ anam_alloc p = (ANAM_NULL, p)
  /\ st_slots_free (anam_pool_stats p) = 0
  /\ st_slots_live (anam_pool_stats p) = cfg_slot_count (mk_config 64 10 0).
Proof.
  apply (pool_exhaustion demo_env (mk_config 64 10 0) demo_pool).
  - apply demo_env_fits; lia.
  - exact demo_pool_created.
Defined.

(* ================================================================== *)
(** ** Allocation in a reached state *)

(** X8: in every state reached by a disciplined run, [anam_alloc]
    returns the null handle exactly when no slot is free, and then
    changes nothing; otherwise it returns a handle that [anam_get]
    accepts, for a slot that no held handle refers to, the held handles
    stay valid and [slots_free] goes down by one. *)
Theorem alloc_fresh_slot env cfg p0 ops :
  create_fits env cfg ->
  anam_pool_create env (Some cfg) = Some p0 ->
  disciplined p0 [] ops = true ->
  let p := run p0 ops in
  let held := held_after p0 [] ops in
  let h := fst (anam_alloc p) in
  let p' := snd (anam_alloc p) in
  (slots_free p = 0 -> h = ANAM_NULL /\ p' = p)
  /\ (slots_free p <> 0 ->
      h <> ANAM_NULL
      /\ anam_get p' h = (decode_addr h, p')
      /\ ~ In (decode_addr h) (map decode_addr held)
      /\ Forall (fun l => anam_get p' l = (decode_addr l, p')) held
      /\ slots_free p' = slots_free p - 1).
Proof.
  intros Hfit Hcreate Hdis. cbv zeta.
  destruct (reached_tracked env cfg p0 ops Hfit Hcreate Hdis) as (F & Ht).
  remember (run p0 ops) as p eqn:Ep. remember (held_after p0 [] ops) as L eqn:EL.
  clear Ep EL Hdis Hcreate Hfit.
  pose proof Ht as (Hinv & _ & _ & _).
  pose proof Hinv as (_ & _ & _ & _ & Hfree).
  destruct F as [|a F].
  - rewrite (pool_inv_alloc_empty p Hinv). cbn [fst snd].
    split; [intros _; split; reflexivity|]. intros Hne. rewrite Hfree in Hne.
    cbn [List.length] in Hne. lia.
  - destruct (tracked_alloc p a F L Ht) as (Ealloc & Hnn & Ht').
    rewrite Ealloc. cbn [fst snd].
    split; [intros H0; rewrite Hfree in H0; cbn [List.length] in H0; lia|].
    intros _. destruct Ht' as (Hinv' & _ & Hnd' & Hall').
    apply Forall_cons in Hall' as [(_ & _ & Hauth) Hall'].
    cbn [map] in Hnd'. apply NoDup_cons in Hnd' as [Hnotin _].
    split; [intros E; rewrite E in Hnn; discriminate|].
    split; [apply anam_get_authentic; exact Hauth|].
    split; [intros Hin; apply Hnotin; apply list_elem_of_In; exact Hin|].
    split.
    + apply Forall_forall. intros l Hl. rewrite Forall_forall in Hall'.
      apply anam_get_authentic. apply (Hall' l Hl).
    + destruct Hinv' as (_ & _ & _ & _ & Hfree'). rewrite Hfree', Hfree.
      cbn [List.length]. lia.
Qed.

Lemma alloc_fresh_slot_witness :
  let p := run demo_pool [OpAlloc; OpAlloc; OpRelease 4113] in
  let held := held_after demo_pool [] [OpAlloc; OpAlloc; OpRelease 4113] in
  let h := fst (anam_alloc p) in
  let p' := snd (anam_alloc p) in
  (slots_free p = 0 -> h = ANAM_NULL /\ p' = p)
  /\ (slots_free p <> 0 ->
      h <> ANAM_NULL
      /\ anam_get p' h = (decode_addr h, p')
      /\ ~ In (decode_addr h) (map decode_addr held)
      /\ Forall (fun l => anam_get p' l = (decode_addr l, p')) held
      /\ slots_free p' = slots_free p - 1).
Proof.
  apply (alloc_fresh_slot demo_env (mk_config 64 10 0) demo_pool
           [OpAlloc; OpAlloc; OpRelease 4113]).
  - apply demo_env_fits; lia.
  - exact demo_pool_created.
  - vm_compute. reflexivity.
Defined.

(* ================================================================== *)
(** ** A released handle is exposed *)

(** X9: once [anam_release] has accepted a handle, the same handle is a
    counterfeit: [anam_get] returns null for it and [anam_validate]
    false, each adding one to [anamnesis_count].  This holds for every
    pool whose slots start at address 16 or above. *)
Theorem released_handle_exposed (pool : AnamPool) (h : Z) :
  16 <= slots_base pool -> 0 <= h < 2 ^ 64 ->
  fst (anam_release pool h) = true ->
  let p' := snd (anam_release pool h) in
  anam_get p' h = (0, set_anamnesis_count p' (wrap64 (anamnesis_count p' + 1)))
  /\ anam_validate p' h
     = (false, set_anamnesis_count p' (wrap64 (anamnesis_count p' + 1))).
Proof.
  intros Hbase Hh Hrel. cbv zeta.
  destruct (release_cases pool h) as [E|[E|[Hauth E]]]; rewrite E in Hrel;
    try discriminate Hrel.
  rewrite E. cbn [snd].
  pose proof Hauth as (Hnn & Hst & Hin & Hgen).
  pose proof (in_pool_lower _ _ Hin) as Hlo.
  pose proof (decode_addr_range h ltac:(lia)) as Hr.
  assert (Ha : 16 <= decode_addr h < 2 ^ 64) by lia.
  assert (Hstale : ~ authenticates (released pool (decode_addr h)) h).
  { intros (_ & _ & _ & Hg').
    rewrite released_header_generation in Hg' by exact Ha.
    rewrite Hgen in Hg'.
    pose proof (header_generation_range pool (decode_addr h)) as Hgr.
    rewrite Hgen in Hgr. unfold wrap16 in Hg'.
    destruct (Z.eq_dec (anam_generation h) (2 ^ 16 - 1)) as [Emax|Nmax].
    - rewrite Emax in Hg'. vm_compute in Hg'. discriminate.
    - rewrite Z.mod_small in Hg' by lia. lia. }
  assert (Hget : anam_get (released pool (decode_addr h)) h
                 = (0, bump_anamnesis (released pool (decode_addr h))))
    by (apply anam_get_counterfeit; assumption).
  split; [exact Hget|].
  unfold anam_validate. rewrite Hget. reflexivity.
Qed.

Lemma released_handle_exposed_witness :
  let p' := snd (anam_release (run demo_pool [OpAlloc]) 4113) in
  anam_get p' 4113 = (0, set_anamnesis_count p' (wrap64 (anamnesis_count p' + 1)))
  /\ anam_validate p' 4113
     = (false, set_anamnesis_count p' (wrap64 (anamnesis_count p' + 1))).
Proof.
  apply (released_handle_exposed (run demo_pool [OpAlloc]) 4113).
  - vm_compute. discriminate.
  - lia.
  - vm_compute. reflexivity.
Defined.

(* ================================================================== *)
(** ** The slot released last is the slot allocated next *)

(** X10: releasing a held handle and allocating again hands the same slot
    out: the new handle carries the same address and the next generation
    (modulo 2^16), it differs from the released handle, [anam_get]
    accepts it and refuses the released one. *)
Theorem release_then_alloc_reuses env cfg p0 ops h :
  create_fits env cfg ->
  anam_pool_create env (Some cfg) = Some p0 ->
  disciplined p0 [] ops = true ->
  In h (held_after p0 [] ops) ->
  let p := run p0 ops in
  let p1 := snd (anam_release p h) in
  let h2 := fst (anam_alloc p1) in
  let p2 := snd (anam_alloc p1) in
  fst (anam_release p h) = true
  /\ decode_addr h2 = decode_addr h
  /\ anam_generation h2 = wrap16 (anam_generation h + 1)
  /\ h2 <> h
  /\ anam_get p2 h2 = (decode_addr h, p2)
  /\ fst (anam_get p2 h) = 0.
Proof.
  intros Hfit Hcreate Hdis Hin. cbv zeta.
  destruct (reached_tracked env cfg p0 ops Hfit Hcreate Hdis) as (F & Ht).
  remember (run p0 ops) as p eqn:Ep. remember (held_after p0 [] ops) as L eqn:EL.
  clear Ep EL Hdis Hcreate Hfit.
  destruct (tracked_release p F L h Ht Hin) as [Erel Ht1].
  pose proof Ht as (Hinv & _ & _ & Hall).
  rewrite Forall_forall in Hall.
  destruct (Hall h (proj2 (list_elem_of_In _ _) Hin)) as (Ha & _ & Hauth).
  pose proof Hinv as ((Hl & _) & _).
  pose proof (slot_range64 p _ Hl Ha) as Ha64.
  rewrite Erel. cbn [fst snd].
  set (a := decode_addr h) in *. set (p1 := released p a) in *.
  destruct (tracked_alloc p1 a F _ Ht1) as (Ealloc & Hnn & Ht2).
  rewrite Ealloc. cbn [fst snd].
  assert (Hg1 : header_generation p1 a = wrap16 (anam_generation h + 1)).
  { unfold p1. rewrite released_header_generation by exact Ha64.
    destruct Hauth as (_ & _ & _ & Hg). fold a in Hg. rewrite Hg. reflexivity. }
  pose proof Ht1 as (Hinv1 & _). pose proof Hinv1 as ((Hl1 & _) & _).
  assert (Ha1 : is_slot p1 a) by exact Ha.
  destruct (slot_handle p1 a (header_generation p1 a) ANAM_STATE_LIVE Hl1 Ha1
              (header_generation_range p1 a)) as (_ & _ & Hd & Hdg & _);
    [unfold ANAM_STATE_LIVE; lia|].
  assert (Hgen2 : anam_generation (encode_handle (header_generation p1 a) a ANAM_STATE_LIVE)
                  = wrap16 (anam_generation h + 1)).
  { change (anam_generation ?x) with (decode_gen x). rewrite Hdg. exact Hg1. }
  assert (Hne : wrap16 (anam_generation h + 1) <> anam_generation h).
  { assert (Hr : 0 <= anam_generation h < 2 ^ 16) by (apply wrap16_range).
    unfold wrap16 at 1.
    destruct (Z.eq_dec (anam_generation h) (2 ^ 16 - 1)) as [Emax|Nmax].
    - rewrite Emax. vm_compute. discriminate.
    - rewrite Z.mod_small by lia. lia. }
  destruct Ht2 as (_ & _ & _ & Hall2).
  apply Forall_cons in Hall2 as [(_ & _ & Hauth2) _].
  split; [reflexivity|]. split; [exact Hd|]. split; [exact Hgen2|].
  split; [intros E; apply Hne; rewrite <- E at 2; symmetry; exact Hgen2|].
  split.
  - rewrite (anam_get_authentic _ _ Hauth2), Hd. reflexivity.
  - destruct (get_cases (allocated p1 a) h) as [E|[E|E]]; rewrite E; try reflexivity.
    exfalso.
    destruct (authenticates_dec (allocated p1 a) h) as [Hy|Hn].
    + destruct Hy as (_ & _ & _ & Hg').
      fold a in Hg'. rewrite allocated_header_generation in Hg' by exact Ha64.
      rewrite Hg1 in Hg'. exact (Hne Hg').
    + destruct Hauth as (Hnn' & _).
      rewrite (anam_get_counterfeit _ _ Hnn' Hn) in E.
      injection E as E0 _. fold a in E0. lia.
Qed.

Lemma release_then_alloc_reuses_witness :
  let p := run demo_pool [OpAlloc; OpAlloc] in
  let p1 := snd (anam_release p 4113) in
  let h2 := fst (anam_alloc p1) in
  let p2 := snd (anam_alloc p1) in
  fst (anam_release p 4113) = true
  /\ decode_addr h2 = decode_addr 4113
  /\ anam_generation h2 = wrap16 (anam_generation 4113 + 1)
  /\ h2 <> 4113
  /\ anam_get p2 h2 = (decode_addr 4113, p2)
  /\ fst (anam_get p2 4113) = 0.
Proof.
  apply (release_then_alloc_reuses demo_env (mk_config 64 10 0) demo_pool
           [OpAlloc; OpAlloc] 4113).
  - apply demo_env_fits; lia.
  - exact demo_pool_created.
  - vm_compute. reflexivity.
  - vm_compute. right. left. reflexivity.
Defined.

(* ================================================================== *)
(** ** Zeroing of the payload *)

Lemma map_replicate {A B : Type} (f : A -> B) n x :
  map f (replicate n x) = replicate n (f x).
Proof. induction n as [|n IH]; cbn [replicate map]; [reflexivity | rewrite IH; reflexivity]. Qed.

Lemma load_bytes_memset_same m dst c n :
  load_bytes (memset m dst c n) dst (Z.to_nat n) = replicate (Z.to_nat n) (c mod 256).
Proof.
  unfold memset.
  rewrite <- (length_replicate (Z.to_nat n) c) at 2.
  rewrite load_bytes_store_bytes_same, map_replicate. reflexivity.
Qed.

Lemma scrub_fits : create_fits demo_env scrub_config.
Proof.
  unfold create_fits. vm_compute. repeat split; try reflexivity; intros H; discriminate H.
Qed.

Lemma scrub_pool_created :
  anam_pool_create demo_env (Some scrub_config) = Some scrub_pool.
Proof. vm_compute. reflexivity. Qed.

Lemma allocated_payload p a :
  layout p -> is_slot p a ->
  payload (allocated p a) a
  = if zero_on_alloc p then replicate (Z.to_nat (slot_size p)) 0 else payload p a.
Proof.
  intros Hl Ha. destruct (slot_header_addresses p a Hl Ha) as (_ & En & _).
  unfold payload, allocated. pool_simpl. rewrite En.
  destruct (zero_on_alloc p).
  - rewrite load_bytes_memset_same. reflexivity.
  - apply load_bytes_store64_other. right. lia.
Qed.

Lemma released_payload p a :
  layout p -> is_slot p a ->
  payload (released p a) a
  = if zero_on_release p then replicate (Z.to_nat (slot_size p)) 0 else payload p a.
Proof.
  intros Hl Ha. destruct (slot_header_addresses p a Hl Ha) as (_ & En & Eg).
  unfold payload, released. pool_simpl. rewrite En, Eg.
  rewrite load_bytes_store64_other by (right; lia).
  destruct (zero_on_release p).
  - rewrite load_bytes_memset_same. reflexivity.
  - apply load_bytes_store16_other. right. lia.
Qed.

Lemma reached_flags env cfg p0 ops :
  create_fits env cfg ->
  anam_pool_create env (Some cfg) = Some p0 ->
  slot_size (run p0 ops) = cfg_slot_size cfg
  /\ zero_on_alloc (run p0 ops) = cfg_zero_on_alloc cfg
  /\ zero_on_release (run p0 ops) = cfg_zero_on_release cfg.
Proof.
  intros Hfit Hcreate.
  destruct (create_inv env cfg p0 Hfit Hcreate) as (_ & _ & _ & Hsz & Hza & Hzr & _).
  destruct (run_geometry ops p0) as (G1 & _ & _ & _ & G5 & G6).
  repeat split; congruence.
Qed.

(** X11: in a pool created with [zero_on_alloc], the payload of a slot
    that [anam_alloc] hands out reads as [slot_size] zero bytes; without
    the flag the allocation leaves the payload as the previous owner left
    it. *)
Theorem alloc_zeroing env cfg p0 ops :
  create_fits env cfg ->
  anam_pool_create env (Some cfg) = Some p0 ->
  disciplined p0 [] ops = true ->
  let p := run p0 ops in
  let h := fst (anam_alloc p) in
  let p' := snd (anam_alloc p) in
  h <> ANAM_NULL ->
  payload p' (decode_addr h)
  = if cfg_zero_on_alloc cfg
    then replicate (Z.to_nat (cfg_slot_size cfg)) 0
    else payload p (decode_addr h).
Proof.
  intros Hfit Hcreate Hdis. cbv zeta.
  destruct (reached_tracked env cfg p0 ops Hfit Hcreate Hdis) as (F & Ht).
  destruct (reached_flags env cfg p0 ops Hfit Hcreate) as (Hsz & Hza & _).
  remember (run p0 ops) as p eqn:Ep. remember (held_after p0 [] ops) as L eqn:EL.
  clear Ep EL Hdis Hcreate Hfit.
  pose proof Ht as (Hinv & _).
  destruct F as [|a F].
  - rewrite (pool_inv_alloc_empty p Hinv). cbn [fst]. intros Hne. contradiction.
  - destruct (tracked_alloc p a F L Ht) as (Ealloc & _ & _).
    rewrite Ealloc. cbn [fst snd]. intros _.
    pose proof Hinv as ((Hl & _) & _ & HallF & _).
    apply Forall_cons in HallF as [Ha _].
    destruct (slot_handle p a (header_generation p a) ANAM_STATE_LIVE Hl Ha
                (header_generation_range p a)) as (_ & _ & Hd & _);
      [unfold ANAM_STATE_LIVE; lia|].
    rewrite Hd, allocated_payload, Hza, Hsz by assumption. reflexivity.
Qed.

Lemma alloc_zeroing_witness :
  let p := run scrub_pool [OpAlloc] in
  let h := fst (anam_alloc p) in
  let p' := snd (anam_alloc p) in
  payload p' (decode_addr h)
  = if cfg_zero_on_alloc scrub_config
    then replicate (Z.to_nat (cfg_slot_size scrub_config)) 0
    else payload p (decode_addr h).
Proof.
  apply (alloc_zeroing demo_env scrub_config scrub_pool [OpAlloc]).
  - exact scrub_fits.
  - exact scrub_pool_created.
  - vm_compute. reflexivity.
  - vm_compute. discriminate.
Defined.

(** X12: in a pool created with [zero_on_release], the payload of a slot
    reads as [slot_size] zero bytes once [anam_release] has accepted its
    handle; without the flag the release leaves the payload in place. *)
Theorem release_zeroing env cfg p0 ops h :
  create_fits env cfg ->
  anam_pool_create env (Some cfg) = Some p0 ->
  disciplined p0 [] ops = true ->
  In h (held_after p0 [] ops) ->
  let p := run p0 ops in
  let p' := snd (anam_release p h) in
  fst (anam_release p h) = true
  /\ payload p' (decode_addr h)
     = if cfg_zero_on_release cfg
       then replicate (Z.to_nat (cfg_slot_size cfg)) 0
       else payload p (decode_addr h).
Proof.
  intros Hfit Hcreate Hdis Hin. cbv zeta.
  destruct (reached_tracked env cfg p0 ops Hfit Hcreate Hdis) as (F & Ht).
  destruct (reached_flags env cfg p0 ops Hfit Hcreate) as (Hsz & _ & Hzr).
  remember (run p0 ops) as p eqn:Ep. remember (held_after p0 [] ops) as L eqn:EL.
  clear Ep EL Hdis Hcreate Hfit.
  destruct (tracked_release p F L h Ht Hin) as [Erel _].
  pose proof Ht as (Hinv & _ & _ & Hall).
  rewrite Forall_forall in Hall.
  destruct (Hall h (proj2 (list_elem_of_In _ _) Hin)) as (Ha & _).
  pose proof Hinv as ((Hl & _) & _).
  rewrite Erel. cbn [fst snd]. split; [reflexivity|].
  rewrite released_payload, Hzr, Hsz by assumption. reflexivity.
Qed.

Lemma release_zeroing_witness :
  let p := run scrub_pool [OpAlloc] in
  let p' := snd (anam_release p 4113) in
  fst (anam_release p 4113) = true
  /\ payload p' (decode_addr 4113)
     = if cfg_zero_on_release scrub_config
       then replicate (Z.to_nat (cfg_slot_size scrub_config)) 0
       else payload p (decode_addr 4113).
Proof.
  apply (release_zeroing demo_env scrub_config scrub_pool [OpAlloc] 4113).
  - exact scrub_fits.
  - exact scrub_pool_created.
  - vm_compute. reflexivity.
  - vm_compute. left. reflexivity.
Defined.

(* ================================================================== *)
(** ** A held handle is not disturbed *)

Lemma other_slot_payload p p' a b :
  layout p -> is_slot p a -> is_slot p b -> a <> b ->
  same_outside (heap p) (heap p') (a - 16) (a + slot_size p) ->
  slot_size p' = slot_size p ->
  payload p' b = payload p b.
Proof.
  intros Hl Ha Hb Hab Hsame Hsz.
  pose proof Hl as (_ & _ & _ & Hsz0 & Hst & _).
  unfold payload. rewrite Hsz.
  apply (load_bytes_frame _ _ _ _ _ _ Hsame).
  rewrite Z2Nat.id by lia.
  destruct (slot_apart p a b Hl Ha Hb Hab); [right | left]; lia.
Qed.

Lemma remove_handle_In h x l : In x l -> x <> h -> In x (remove_handle h l).
Proof.
  intros Hin Hne. unfold remove_handle. apply filter_In. split; [exact Hin|].
  apply negb_true_iff, Z.eqb_neq. exact Hne.
Qed.

Lemma step_keeps_held p F L o h :
  tracked p F L -> disciplined p L [o] = true ->
  In h L -> o <> OpRelease h ->
  In h (held_after p L [o])
  /\ payload (step p o) (decode_addr h) = payload p (decode_addr h).
Proof.
  intros Ht Hd Hin Hne.
  pose proof Ht as (Hinv & _ & Hnd & Hall).
  pose proof Hinv as ((Hl & _) & _ & HallF & _).
  rewrite Forall_forall in Hall.
  destruct (Hall h (proj2 (list_elem_of_In _ _) Hin)) as (Hb & HbF & _).
  destruct o as [|h'|h']; cbn [step held_after disciplined] in *.
  - destruct F as [|a F].
    + rewrite (pool_inv_alloc_empty p Hinv). cbn [fst snd]. split; [exact Hin | reflexivity].
    + destruct (tracked_alloc p a F L Ht) as (E & Hnn & _).
      rewrite E. cbn [fst snd]. rewrite Hnn. split; [right; exact Hin|].
      apply Forall_cons in HallF as [Ha _].
      apply (other_slot_payload p (allocated p a) a); try assumption.
      * intros Eab. apply HbF. rewrite <- Eab. apply list_elem_of_here.
      * apply allocated_frame; assumption.
      * reflexivity.
  - destruct (mem_handle h' L) eqn:Hm.
    + apply mem_handle_In in Hm.
      assert (Hhh : h <> h') by (intros E; apply Hne; rewrite E; reflexivity).
      destruct (tracked_release p F L h' Ht Hm) as [E _].
      rewrite E. cbn [snd]. split; [apply remove_handle_In; assumption|].
      destruct (Hall h' (proj2 (list_elem_of_In _ _) Hm)) as (Ha & _).
      apply (other_slot_payload p (released p (decode_addr h')) (decode_addr h'));
        try assumption.
      * intros Eab. apply Hhh. symmetry.
        apply (NoDup_map_inj_in decode_addr L); assumption.
      * apply released_frame; assumption.
      * reflexivity.
    + split; [exact Hin|].
      destruct (release_cases p h') as [E|[E|[_ E]]]; rewrite E in *; cbn [fst snd] in *;
        try reflexivity.
      apply andb_true_iff in Hd as [Hrej _]. discriminate Hrej.
  - split; [exact Hin|].
    destruct (get_cases p h') as [E|[E|E]]; rewrite E; reflexivity.
Qed.

Lemma run_keeps_held ops : forall p F L h,
  tracked p F L -> disciplined p L ops = true ->
  In h L -> Forall (fun o => o <> OpRelease h) ops ->
  In h (held_after p L ops)
  /\ payload (run p ops) (decode_addr h) = payload p (decode_addr h).
Proof.
  induction ops as [|o ops IH]; intros p F L h Ht Hd Hin Hnr.
  - split; [exact Hin | reflexivity].
  - apply Forall_cons in Hnr as [Hno Hnr].
    apply disciplined_cons in Hd as [Ho Hrest].
    destruct (tracked_step p F L o Ht Ho) as (F1 & Ht1).
    destruct (step_keeps_held p F L o h Ht Ho Hin Hno) as [Hin1 Hpay1].
    destruct (IH _ _ _ h Ht1 Hrest Hin1 Hnr) as [Hin' Hpay'].
    rewrite held_after_cons, run_cons. split; [exact Hin'|].
    rewrite Hpay'. exact Hpay1.
Qed.

Lemma disciplined_app ops1 : forall p L ops2,
  disciplined p L (ops1 ++ ops2) = true ->
  disciplined p L ops1 = true
  /\ disciplined (run p ops1) (held_after p L ops1) ops2 = true.
Proof.
  induction ops1 as [|o ops1 IH]; intros p L ops2 H.
  - split; [reflexivity | exact H].
  - change ((o :: ops1) ++ ops2) with (o :: (ops1 ++ ops2)) in H.
    apply disciplined_cons in H as [Ho Hrest].
    destruct (IH _ _ _ Hrest) as [H1 H2].
    rewrite held_after_cons, run_cons. split; [|exact H2].
    destruct o as [|h|h]; cbn [disciplined held_after step] in *.
    + exact H1.
    + destruct (mem_handle h L); [exact H1|].
      apply andb_true_iff in Ho as [Ho _]. rewrite Ho. exact H1.
    + exact H1.
Qed.

(** X13: a handle that is held stays valid, and the payload of its slot
    keeps its bytes, through every later allocation, release and lookup
    of a disciplined run that does not release that handle, whatever the
    zeroing flags are. *)
Theorem held_handle_undisturbed env cfg p0 ops1 ops2 h :
  create_fits env cfg ->
  anam_pool_create env (Some cfg) = Some p0 ->
  disciplined p0 [] (ops1 ++ ops2) = true ->
  In h (held_after p0 [] ops1) ->
  Forall (fun o => o <> OpRelease h) ops2 ->
  let p1 := run p0 ops1 in
  let p2 := run p0 (ops1 ++ ops2) in
  anam_get p2 h = (decode_addr h, p2)
  /\ payload p2 (decode_addr h) = payload p1 (decode_addr h).
Proof.
  intros Hfit Hcreate Hdis Hin Hnr. cbv zeta.
  apply disciplined_app in Hdis as [Hd1 Hd2].
  destruct (reached_tracked env cfg p0 ops1 Hfit Hcreate Hd1) as (F & Ht).
  rewrite run_app.
  destruct (run_keeps_held ops2 _ F _ h Ht Hd2 Hin Hnr) as [Hin2 Hpay].
  destruct (tracked_run ops2 _ F _ Ht Hd2) as (F2 & _ & _ & _ & Hall2).
  rewrite Forall_forall in Hall2.
  destruct (Hall2 h (proj2 (list_elem_of_In _ _) Hin2)) as (_ & _ & Hauth).
  split; [apply anam_get_authentic; exact Hauth | exact Hpay].
Qed.

Lemma held_handle_undisturbed_witness :
  let p1 := run scrub_pool [OpAlloc; OpAlloc] in
  let p2 := run scrub_pool ([OpAlloc; OpAlloc] ++ [OpRelease 4161; OpAlloc; OpGet 4161]) in
  anam_get p2 4113 = (decode_addr 4113, p2)
  /\ payload p2 (decode_addr 4113) = payload p1 (decode_addr 4113).
Proof.
  apply (held_handle_undisturbed demo_env scrub_config scrub_pool
           [OpAlloc; OpAlloc] [OpRelease 4161; OpAlloc; OpGet 4161] 4113).
  - exact scrub_fits.
  - exact scrub_pool_created.
  - vm_compute. reflexivity.
  - vm_compute. right. left. reflexivity.
  - repeat (apply Forall_cons_2; [discriminate|]). apply Forall_nil_2.
Defined.

(* ================================================================== *)
(** ** A clean run sees no failure *)

Lemma clean_run ops : forall p F L,
  tracked p F L -> clean p L ops = true ->
  all_accepted p ops = true
  /\ anamnesis_count (run p ops) = anamnesis_count p.
Proof.
  induction ops as [|o ops IH]; intros p F L Ht Hc.
  - split; reflexivity.
  - rewrite run_cons.
    pose proof Ht as (Hinv & _ & _ & Hall). rewrite Forall_forall in Hall.
    destruct o as [|h|h]; cbn [clean all_accepted step] in *.
    + destruct F as [|a F].
      * rewrite (pool_inv_alloc_empty p Hinv) in *. cbn [fst snd] in *.
        change (anam_is_null ANAM_NULL) with true in Hc. cbv iota in Hc.
        exact (IH p [] L Ht Hc).
      * destruct (tracked_alloc p a F L Ht) as (E & Hnn & Ht').
        rewrite E in *. cbn [fst snd] in *. rewrite Hnn in Hc.
        destruct (IH _ _ _ Ht' Hc) as [Hacc Hcnt]. split; [exact Hacc|].
        rewrite Hcnt. reflexivity.
    + apply andb_true_iff in Hc as [Hm Hc]. apply mem_handle_In in Hm.
      destruct (tracked_release p F L h Ht Hm) as [E Ht'].
      rewrite E in *. cbn [fst snd] in *.
      destruct (IH _ _ _ Ht' Hc) as [Hacc Hcnt]. split; [exact Hacc|].
      rewrite Hcnt. reflexivity.
    + apply andb_true_iff in Hc as [Hm Hc]. apply mem_handle_In in Hm.
      destruct (Hall h (proj2 (list_elem_of_In _ _) Hm)) as (Ha & _ & Hauth).
      rewrite (anam_get_authentic p h Hauth) in *. cbn [fst snd] in *.
      destruct (IH _ _ _ Ht Hc) as [Hacc Hcnt]. split; [|exact Hcnt].
      rewrite Hacc, andb_true_r. apply negb_true_iff, Z.eqb_neq.
      pose proof Hinv as ((Hl & _) & _).
      pose proof (slot_range64 p _ Hl Ha). lia.
Qed.

(** X14: in a clean run on a created pool (every handle passed to
    [anam_release] or [anam_get] is held at that time) every release
    returns true, every lookup returns a pointer, and [anamnesis_count]
    is still zero at the end. *)
Theorem clean_run_sees_no_counterfeit env cfg p0 ops :
  create_fits env cfg ->
  anam_pool_create env (Some cfg) = Some p0 ->
  clean p0 [] ops = true ->
  all_accepted p0 ops = true
  /\ st_anamnesis_count (anam_pool_stats (run p0 ops)) = 0.
Proof.
  intros Hfit Hcreate Hc.
  destruct (create_inv env cfg p0 Hfit Hcreate) as (_ & _ & _ & _ & _ & _ & _ & _ & Han & _).
  destruct (clean_run ops p0 _ _ (created_tracked env cfg p0 Hfit Hcreate) Hc)
    as [Hacc Hcnt].
  split; [exact Hacc|]. cbn [anam_pool_stats st_anamnesis_count]. congruence.
Qed.

Lemma clean_run_sees_no_counterfeit_witness :
  all_accepted demo_pool [OpAlloc; OpAlloc; OpGet 4113; OpRelease 4113; OpAlloc;
                          OpGet 281474976714769] = true
  /\ st_anamnesis_count
       (anam_pool_stats
          (run demo_pool [OpAlloc; OpAlloc; OpGet 4113; OpRelease 4113; OpAlloc;
                          OpGet 281474976714769])) = 0.
Proof.
  apply (clean_run_sees_no_counterfeit demo_env (mk_config 64 10 0) demo_pool).
  - apply demo_env_fits; lia.
  - exact demo_pool_created.
  - vm_compute. reflexivity.
Defined.

(* ================================================================== *)
(** ** The highest generation *)

Lemma fold_max_base b g l :
  fold_right Z.max (Z.max b g) l = Z.max g (fold_right Z.max b l).
Proof. induction l as [|x l IH]; cbn [fold_right]; [lia | rewrite IH; lia]. Qed.

Lemma generation_max_run ops : forall p F L,
  tracked p F L -> disciplined p L ops = true -> 0 <= generation_max p ->
  generation_max (run p ops)
  = fold_right Z.max (generation_max p) (map anam_generation (issued_by p ops)).
Proof.
  induction ops as [|o ops IH]; intros p F L Ht Hd Hgm.
  - reflexivity.
  - rewrite run_cons.
    apply disciplined_cons in Hd as [Ho Hrest].
    destruct (tracked_step p F L o Ht Ho) as (F1 & Ht1).
    destruct o as [|h|h]; cbn [issued_by].
    + cbn [step] in *. cbn [map fold_right].
      pose proof Ht as (Hinv & _).
      destruct F as [|a F].
      * rewrite (pool_inv_alloc_empty p Hinv) in *. cbn [fst snd] in *.
        rewrite (IH p _ _ Ht1 Hrest Hgm).
        change (anam_generation ANAM_NULL) with 0.
        assert (generation_max p
                <= fold_right Z.max (generation_max p)
                     (map anam_generation (issued_by p ops))).
        { generalize (map anam_generation (issued_by p ops)).
          induction l as [|x l IHl]; cbn [fold_right]; lia. }
        lia.
      * destruct (tracked_alloc p a F L Ht) as (E & _ & _).
        rewrite E in *. cbn [fst snd] in *.
        pose proof Hinv as ((Hl & _) & _ & HallF & _).
        apply Forall_cons in HallF as [Ha _].
        destruct (slot_handle p a (header_generation p a) ANAM_STATE_LIVE Hl Ha
                    (header_generation_range p a)) as (_ & _ & _ & Hdg & _);
          [unfold ANAM_STATE_LIVE; lia|].
        change (anam_generation ?x) with (decode_gen x) at 1. rewrite Hdg.
        pose proof (header_generation_range p a) as Hgr.
        assert (Egm : generation_max (allocated p a)
                      = Z.max (generation_max p) (header_generation p a)).
        { unfold allocated. pool_simpl.
          destruct (Z.ltb_spec (generation_max p) (header_generation p a)); lia. }
        rewrite (IH _ _ _ Ht1 Hrest) by (rewrite Egm; lia).
        rewrite Egm. apply fold_max_base.
    + rewrite (IH _ _ _ Ht1 Hrest).
      * f_equal. cbn [step].
        destruct (release_cases p h) as [E|[E|[_ E]]]; rewrite E; reflexivity.
      * cbn [step].
        destruct (release_cases p h) as [E|[E|[_ E]]]; rewrite E; exact Hgm.
    + rewrite (IH _ _ _ Ht1 Hrest).
      * f_equal. cbn [step].
        destruct (get_cases p h) as [E|[E|E]]; rewrite E; reflexivity.
      * cbn [step].
        destruct (get_cases p h) as [E|[E|E]]; rewrite E; exact Hgm.
Qed.

(** X15: after a disciplined run on a created pool, the statistic
    [generation_max] is the highest generation among the handles that
    [anam_alloc] has returned (0 when it has returned none). *)
Theorem generation_max_is_highest env cfg p0 ops :
  create_fits env cfg ->
  anam_pool_create env (Some cfg) = Some p0 ->
  disciplined p0 [] ops = true ->
  st_generation_max (anam_pool_stats (run p0 ops))
  = fold_right Z.max 0 (map anam_generation (issued_by p0 ops)).
Proof.
  intros Hfit Hcreate Hdis.
  destruct (create_inv env cfg p0 Hfit Hcreate) as (_ & _ & _ & _ & _ & _ & _ & _ & _ & Hgm).
  cbn [anam_pool_stats st_generation_max].
  rewrite (generation_max_run ops p0 _ _ (created_tracked env cfg p0 Hfit Hcreate) Hdis)
    by lia.
  rewrite Hgm. reflexivity.
Qed.

Lemma generation_max_is_highest_witness :
  st_generation_max
    (anam_pool_stats
       (run demo_pool [OpAlloc; OpRelease 4113; OpAlloc; OpRelease 281474976714769; OpAlloc]))
  = fold_right Z.max 0
      (map anam_generation
         (issued_by demo_pool
            [OpAlloc; OpRelease 4113; OpAlloc; OpRelease 281474976714769; OpAlloc])).
Proof.
  apply (generation_max_is_highest demo_env (mk_config 64 10 0) demo_pool).
  - apply demo_env_fits; lia.
  - exact demo_pool_created.
  - vm_compute. reflexivity.
Defined.

(* ================================================================== *)
(** ** The iteration over the live slots *)

Lemma accounted_step p F L o :
  accounted p F L -> disciplined p L [o] = true ->
  exists F', accounted (step p o) F' (held_after p L [o]).
Proof.
  intros (Ht & Hcov & Hlive) Hd.
  pose proof Ht as (Hinv & _ & Hnd & Hall).
  pose proof Hinv as ((Hl & _) & HndF & HallF & _).
  rewrite Forall_forall in Hall, Hlive.
  destruct o as [|h|h]; cbn [step held_after disciplined] in *.
  - destruct F as [|a F].
    + rewrite (pool_inv_alloc_empty p Hinv). cbn [fst snd].
      exists []. split; [exact Ht|]. split; [exact Hcov|].
      apply Forall_forall. exact Hlive.
    + destruct (tracked_alloc p a F L Ht) as (E & Hnn & Ht').
      rewrite E. cbn [fst snd]. rewrite Hnn. exists F.
      apply NoDup_cons in HndF as [HaF HndF'].
      apply Forall_cons in HallF as [Ha HallF'].
      pose proof (slot_range64 p a Hl Ha) as Ha64.
      destruct (slot_handle p a (header_generation p a) ANAM_STATE_LIVE Hl Ha
                  (header_generation_range p a)) as (_ & _ & Hd' & _);
        [unfold ANAM_STATE_LIVE; lia|].
      split; [exact Ht'|]. split.
      * intros b Hb. cbn [map]. rewrite Hd'.
        destruct (Hcov b Hb) as [HbF|HbL].
        -- apply elem_of_cons in HbF as [->|HbF]; [right; left; reflexivity | left; exact HbF].
        -- right. right. exact HbL.
      * apply Forall_cons. split.
        -- rewrite Hd'. unfold live_handle.
           rewrite allocated_header_generation by exact Ha64. reflexivity.
        -- apply Forall_forall. intros l Hin.
           destruct (Hall l Hin) as (Hs & Hnot & _).
           rewrite <- (Hlive l Hin) at 2. apply live_handle_same.
           destruct (other_slot_headers p (allocated p a) a (decode_addr l) Hl Ha Hs)
             as [Eg _]; [|apply allocated_frame; assumption | exact Eg].
           intros Eal. apply Hnot. rewrite <- Eal. apply list_elem_of_here.
  - destruct (mem_handle h L) eqn:Hm.
    + apply mem_handle_In in Hm.
      destruct (tracked_release p F L h Ht Hm) as [E Ht'].
      rewrite E. cbn [snd]. exists (decode_addr h :: F).
      destruct (Hall h (proj2 (list_elem_of_In _ _) Hm)) as (Ha & HaF & _).
      split; [exact Ht'|]. split.
      * intros b Hb. destruct (Z.eq_dec b (decode_addr h)) as [->|Hne].
        -- left. apply list_elem_of_here.
        -- destruct (Hcov b Hb) as [HbF|HbL]; [left; apply list_elem_of_further; exact HbF|].
           right. apply in_map_iff in HbL as (l & El & Hl').
           apply in_map_iff. exists l. split; [exact El|].
           apply remove_handle_In; [exact Hl'|]. intros Elh. apply Hne. rewrite <- El, Elh.
           reflexivity.
      * apply Forall_forall. intros l Hin. apply list_elem_of_In in Hin.
        unfold remove_handle in Hin. apply filter_In in Hin as [Hin Hne].
        apply negb_true_iff, Z.eqb_neq in Hne.
        pose proof (proj2 (list_elem_of_In _ _) Hin) as Hin'.
        destruct (Hall l Hin') as (Hs & _ & _).
        rewrite <- (Hlive l Hin') at 2. apply live_handle_same.
        destruct (other_slot_headers p (released p (decode_addr h)) (decode_addr h)
                    (decode_addr l) Hl Ha Hs) as [Eg _];
          [|apply released_frame; assumption | exact Eg].
        intros Eal. apply Hne. apply (NoDup_map_inj_in decode_addr L); try assumption.
        symmetry. exact Eal.
    + apply andb_true_iff in Hd as [Hrej _]. apply negb_true_iff in Hrej.
      destruct (release_cases p h) as [E|[E|[_ E]]]; rewrite E in *; cbn [fst snd] in *.
      * exists F. split; [exact Ht|]. split; [exact Hcov | apply Forall_forall; exact Hlive].
      * exists F. split; [apply tracked_bump; exact Ht|].
        split; [exact Hcov | apply Forall_forall; exact Hlive].
      * discriminate.
  - destruct (get_cases p h) as [E|[E|E]]; rewrite E; cbn [snd]; exists F.
    + split; [exact Ht|]. split; [exact Hcov | apply Forall_forall; exact Hlive].
    + split; [exact Ht|]. split; [exact Hcov | apply Forall_forall; exact Hlive].
    + split; [apply tracked_bump; exact Ht|].
      split; [exact Hcov | apply Forall_forall; exact Hlive].
Qed.

Lemma accounted_run ops : forall p F L,
  accounted p F L -> disciplined p L ops = true ->
  exists F', accounted (run p ops) F' (held_after p L ops).
Proof.
  induction ops as [|o ops IH]; intros p F L Ha Hd.
  - exists F. exact Ha.
  - apply disciplined_cons in Hd as [Ho Hrest].
    destruct (accounted_step p F L o Ha Ho) as (F1 & Ha1).
    destruct (IH _ _ _ Ha1 Hrest) as (F' & Ha').
    exists F'. rewrite held_after_cons. exact Ha'.
Qed.

Lemma reached_accounted env cfg p0 ops :
  create_fits env cfg ->
  anam_pool_create env (Some cfg) = Some p0 ->
  disciplined p0 [] ops = true ->
  exists F, accounted (run p0 ops) F (held_after p0 [] ops).
Proof.
  intros Hfit Hcreate Hdis.
  apply (accounted_run ops p0 (all_slots p0) []); [|exact Hdis].
  split; [exact (created_tracked env cfg p0 Hfit Hcreate)|].
  split; [|apply Forall_nil_2].
  intros a Ha. left. apply all_slots_is_slot. exact Ha.
Qed.

Lemma free_walk_exact p : forall F h bm fuel,
  layout p -> free_chain p h F -> NoDup F -> Forall (is_slot p) F ->
  (forall i, 0 <= i < slot_count p -> slot_addr p i ∈ F -> bm !! Z.to_nat i = Some false) ->
  (List.length F < fuel)%nat ->
  exists bm', free_walk fuel p h bm = Some bm'
    /\ List.length bm' = List.length bm
    /\ forall i, 0 <= i < slot_count p ->
         bm' !! Z.to_nat i
         = if bool_decide (slot_addr p i ∈ F) then Some true else bm !! Z.to_nat i.
Proof.
  induction F as [|a F IH]; intros h bm fuel Hl Hc Hnd Hall Hbm Hfuel.
  - cbn [free_chain] in Hc. subst h. destruct fuel as [|k]; [cbn in Hfuel; lia|].
    exists bm. split; [reflexivity|]. split; [reflexivity|].
    intros i Hi. rewrite bool_decide_eq_false_2; [reflexivity|]. apply not_elem_of_nil.
  - destruct fuel as [|k]; [cbn in Hfuel; lia|].
    cbn [free_chain] in Hc. destruct Hc as [Hh Hc].
    apply NoDup_cons in Hnd as [HaF Hnd].
    apply Forall_cons in Hall as [Ha Hall].
    destruct (slot_handle p a (header_generation p a) ANAM_STATE_FREE Hl Ha
                (header_generation_range p a)) as (_ & Hnn & Hd & _);
      [unfold ANAM_STATE_FREE; lia|].
    rewrite <- Hh in Hnn, Hd.
    pose proof Ha as (i & Hi & Hai).
    cbn [free_walk]. rewrite Hnn, Hd, (in_pool_slot p a Hl Ha). cbn [negb].
    rewrite Hai, (slot_index p i Hl Hi), <- Hai.
    destruct (Z.leb_spec (slot_count p) i); [lia|].
    assert (Hbi : bm !! Z.to_nat i = Some false)
      by (apply Hbm; [exact Hi | rewrite <- Hai; apply list_elem_of_here]).
    rewrite Hbi. fold (header_next p a).
    destruct (IH (header_next p a) (<[Z.to_nat i := true]> bm) k Hl Hc Hnd Hall)
      as (bm' & Hw & Hlen & Hex).
    + intros j Hj Hin.
      rewrite list_lookup_insert_ne.
      * apply Hbm; [exact Hj | apply list_elem_of_further; exact Hin].
      * intros E. assert (i = j) by lia. subst j. apply HaF. rewrite Hai. exact Hin.
    + cbn [List.length] in Hfuel. lia.
    + exists bm'. split; [exact Hw|].
      split; [rewrite Hlen; apply length_insert|].
      intros j Hj. rewrite (Hex j Hj).
      destruct (Z.eq_dec j i) as [->|Hji].
      * rewrite <- Hai.
        rewrite (bool_decide_eq_true_2 (a ∈ a :: F)) by apply list_elem_of_here.
        destruct (bool_decide (a ∈ F)); [reflexivity|].
        apply list_lookup_insert_eq. apply lookup_lt_Some in Hbi. exact Hbi.
      * assert (Hne : slot_addr p j <> a).
        { rewrite Hai. intros E. apply Hji. exact (slot_addr_inj p _ _ Hl E). }
        rewrite list_lookup_insert_ne by lia.
        destruct (bool_decide_reflect (slot_addr p j ∈ F)) as [Hin|Hnin].
        -- rewrite bool_decide_eq_true_2 by (apply list_elem_of_further; exact Hin).
           reflexivity.
        -- rewrite bool_decide_eq_false_2; [reflexivity|].
           intros Hin. apply elem_of_cons in Hin as [E|Hin]; contradiction.
Qed.

Lemma free_snapshot_exact p F :
  pool_inv p F ->
  exists bm, free_snapshot p = Some bm
    /\ List.length bm = Z.to_nat (slot_count p)
    /\ count_true bm = Z.of_nat (List.length F)
    /\ forall k, (k < Z.to_nat (slot_count p))%nat ->
         bm !! k = Some (bool_decide (slot_addr p (Z.of_nat k) ∈ F)).
Proof.
  intros Hinv. pose proof (pool_inv_length p F Hinv) as [Hlen _].
  pose proof (free_reachable_inv p F Hinv) as Hreach.
  destruct Hinv as ((Hl & _) & Hnd & Hall & Hc & _).
  unfold free_reachable in Hreach. unfold free_snapshot in *.
  destruct (free_walk_exact p F (free_head p)
              (replicate (Z.to_nat (slot_count p)) false)
              (S (Z.to_nat (slot_count p))) Hl Hc Hnd Hall) as (bm' & Hw & Hlen' & Hex).
  - intros i Hi _. apply lookup_replicate_2. lia.
  - lia.
  - rewrite Hw in Hreach. injection Hreach as Hcount.
    exists bm'. split; [exact Hw|].
    split; [rewrite Hlen', length_replicate; reflexivity|].
    split; [exact Hcount|].
    intros k Hk. specialize (Hex (Z.of_nat k) ltac:(lia)).
    rewrite Nat2Z.id in Hex. rewrite Hex.
    destruct (bool_decide (slot_addr p (Z.of_nat k) ∈ F)); [reflexivity|].
    apply lookup_replicate_2. exact Hk.
Qed.

Lemma foreach_visit_spec p fn (F : list Z) :
  layout p ->
  forall bm n,
    Z.of_nat n + Z.of_nat (List.length bm) <= slot_count p ->
    (forall k, (k < List.length bm)%nat ->
       bm !! k = Some (bool_decide (slot_addr p (Z.of_nat (n + k)) ∈ F))) ->
    foreach_visit p fn bm (Z.of_nat n)
    = visit_until fn
        (map (fun a => (live_handle p a, a))
           (List.filter (fun a => negb (bool_decide (a ∈ F)))
              (map (fun k => slot_addr p (Z.of_nat k)) (seq n (List.length bm))))).
Proof.
  intros Hl. induction bm as [|b bm IH]; intros n Hn Hbm; [reflexivity|].
  cbn [List.length] in Hn.
  pose proof (Hbm 0%nat ltac:(cbn [List.length]; lia)) as Hb0.
  change ((b :: bm) !! 0%nat) with (Some b) in Hb0.
  injection Hb0 as Hb0. rewrite Nat.add_0_r in Hb0.
  assert (IH' : foreach_visit p fn bm (Z.of_nat n + 1)
                = visit_until fn
                    (map (fun a => (live_handle p a, a))
                       (List.filter (fun a => negb (bool_decide (a ∈ F)))
                          (map (fun k => slot_addr p (Z.of_nat k))
                             (seq (S n) (List.length bm)))))).
  { replace (Z.of_nat n + 1) with (Z.of_nat (S n)) by lia.
    apply IH; [lia|]. intros k Hk.
    specialize (Hbm (S k) ltac:(cbn [List.length]; lia)).
    change ((b :: bm) !! S k) with (bm !! k) in Hbm.
    rewrite Hbm. replace (n + S k)%nat with (S n + k)%nat by lia. reflexivity. }
  cbn [foreach_visit List.length seq map List.filter]. rewrite <- Hb0.
  destruct b; cbn [negb].
  - exact IH'.
  - rewrite (slot_from_index_plain p (Z.of_nat n) Hl) by lia.
    cbn [map visit_until]. fold (header_generation p (slot_addr p (Z.of_nat n))).
    fold (live_handle p (slot_addr p (Z.of_nat n))).
    rewrite IH'. reflexivity.
Qed.

Lemma foreach_visit_all_length p bm : forall i,
  Z.of_nat (List.length (foreach_visit p (fun _ _ => true) bm i))
  = Z.of_nat (List.length bm) - count_true bm.
Proof.
  induction bm as [|b bm IH]; intros i; [reflexivity|].
  cbn [foreach_visit count_true]. destruct b.
  - rewrite IH. cbn [List.length]. lia.
  - cbn [List.length]. rewrite Nat2Z.inj_succ, IH. cbn [List.length]. lia.
Qed.

Lemma visit_until_all l : visit_until (fun _ _ => true) l = l.
Proof.
  induction l as [|[h u] l IH]; [reflexivity|]. cbn [visit_until]. rewrite IH. reflexivity.
Qed.

(** X16: after a disciplined run on a created pool, [anam_foreach]
    visits the slots that a held handle refers to and no other, in index
    order, each with its payload address and the very handle that is
    held; it stops after the first visit that the visitor rejects; the
    number of slots it can visit is the statistic [slots_live]; and it
    visits nothing when the allocation of its snapshot fails. *)
Theorem foreach_visits_held env cfg p0 ops :
  create_fits env cfg ->
  anam_pool_create env (Some cfg) = Some p0 ->
  disciplined p0 [] ops = true ->
  let p := run p0 ops in
  let held := held_after p0 [] ops in
  let live := held_slots p held in
  (forall fn, anam_foreach true p fn
              = Some (visit_until fn (map (fun a => (live_handle p a, a)) live)))
  /\ (forall fn, anam_foreach false p fn = Some [])
  /\ Forall (fun h => In (h, decode_addr h) (map (fun a => (live_handle p a, a)) live)) held
  /\ Forall (fun a => In (live_handle p a) held) live
  /\ Z.of_nat (List.length live) = st_slots_live (anam_pool_stats p).
Proof.
  intros Hfit Hcreate Hdis. cbv zeta.
  destruct (reached_accounted env cfg p0 ops Hfit Hcreate Hdis) as (F & Ht & Hcov & Hlive).
  remember (run p0 ops) as p eqn:Ep. remember (held_after p0 [] ops) as L eqn:EL.
  clear Ep EL Hdis Hcreate Hfit.
  pose proof Ht as (Hinv & _ & Hnd & Hall).
  pose proof Hinv as ((Hl & _) & _ & _ & _ & Hfree).
  pose proof (pool_inv_length p F Hinv) as [HlenF Hcnt48].
  pose proof Hl as (Hc & _).
  rewrite Forall_forall in Hall, Hlive.
  destruct (free_snapshot_exact p F Hinv) as (bm & Hsnap & Hlen & Hcount & Hbm).
  assert (Hfilter : held_slots p L
                    = List.filter (fun a => negb (bool_decide (a ∈ F))) (all_slots p)).
  { unfold held_slots. apply filter_ext_in. intros a Ha.
    apply list_elem_of_In, all_slots_is_slot in Ha.
    destruct (bool_decide_reflect (a ∈ F)) as [HaF|HaF]; cbn [negb].
    - apply not_true_is_false. intros Hm. apply mem_handle_In in Hm.
      apply in_map_iff in Hm as (l & El & Hin).
      destruct (Hall l (proj2 (list_elem_of_In _ _) Hin)) as (_ & Hnot & _).
      apply Hnot. rewrite El. exact HaF.
    - apply mem_handle_In. destruct (Hcov a Ha) as [H|H]; [contradiction | exact H]. }
  assert (Hvisit : forall fn, foreach_visit p fn bm 0
            = visit_until fn (map (fun a => (live_handle p a, a)) (held_slots p L))).
  { intros fn. rewrite Hfilter. unfold all_slots. rewrite <- Hlen.
    apply (foreach_visit_spec p fn F Hl bm 0%nat); [lia|].
    intros k Hk. apply Hbm. lia. }
  split; [intros fn; unfold anam_foreach; cbn [negb]; rewrite Hsnap, Hvisit; reflexivity|].
  split; [intros fn; reflexivity|].
  split.
  { apply Forall_forall. intros h Hh.
    destruct (Hall h Hh) as (Hs & Hnot & _).
    apply in_map_iff. exists (decode_addr h). split; [rewrite (Hlive h Hh); reflexivity|].
    unfold held_slots. apply filter_In. split; [apply is_slot_all_slots; exact Hs|].
    apply mem_handle_In. apply in_map. apply list_elem_of_In. exact Hh. }
  split.
  { apply List.Forall_forall. intros a Ha. unfold held_slots in Ha.
    apply filter_In in Ha as [_ Hm]. apply mem_handle_In in Hm.
    apply in_map_iff in Hm as (l & El & Hin).
    rewrite <- El, (Hlive l (proj2 (list_elem_of_In _ _) Hin)). exact Hin. }
  pose proof (foreach_visit_all_length p bm 0) as Hcountl.
  rewrite Hvisit, visit_until_all, length_map in Hcountl.
  rewrite Hcountl, Hlen, Hcount.
  cbn [anam_pool_stats st_slots_live]. rewrite Hfree.
  rewrite wrap64_small by lia. lia.
Qed.

Lemma foreach_visits_held_witness :
  let p := run demo_pool [OpAlloc; OpAlloc; OpAlloc; OpRelease 4193] in
  let held := held_after demo_pool [] [OpAlloc; OpAlloc; OpAlloc; OpRelease 4193] in
  let live := held_slots p held in
  (forall fn, anam_foreach true p fn
              = Some (visit_until fn (map (fun a => (live_handle p a, a)) live)))
  /\ (forall fn, anam_foreach false p fn = Some [])
  /\ Forall (fun h => In (h, decode_addr h) (map (fun a => (live_handle p a, a)) live)) held
  /\ Forall (fun a => In (live_handle p a) held) live
  /\ Z.of_nat (List.length live) = st_slots_live (anam_pool_stats p).
Proof.
  apply (foreach_visits_held demo_env (mk_config 64 10 0) demo_pool
           [OpAlloc; OpAlloc; OpAlloc; OpRelease 4193]).
  - apply demo_env_fits; lia.
  - exact demo_pool_created.
  - vm_compute. reflexivity.
Defined.

(* ================================================================== *)
(** ** Queue: creation succeeds or fails *)

Lemma set_pool_same q : set_pool q (pool q) = q.
Proof. destruct q; reflexivity. Qed.

Lemma queue_pool_create env cfg :
  0 <= cfg_item_size cfg < 2 ^ 48 -> 0 <= cfg_capacity cfg < 2 ^ 48 ->
  create_fits env (queue_pool_config cfg) -> calloc_ok env = true ->
  exists p0, anam_pool_create env (Some (queue_pool_config cfg)) = Some p0.
Proof.
  intros Hisz Hcap Hfit Hok. pose proof Hfit as (Hsz & Hcnt & _ & Hmem & _).
  cbn [queue_pool_config cfg_slot_size cfg_slot_count] in Hsz, Hcnt.
  change (create_alignment (queue_pool_config cfg)) with 8 in Hmem.
  unfold anam_pool_create.
  cbn [queue_pool_config cfg_slot_size cfg_slot_count].
  destruct (Z.eqb_spec (queue_node_size cfg) 0) as [E|_]; [lia|].
  destruct (Z.eqb_spec (wrap64 (cfg_capacity cfg + 1)) 0) as [E|_]; [lia|].
  cbn [orb]. change (create_alignment (queue_pool_config cfg)) with 8.
  change (Z.land 8 (wrap64 (8 - 1)) =? 0) with true.
  change (8 <? 8) with false. rewrite Hok. cbn [negb].
  destruct (Z.eqb_spec (aligned_alloc env 8 (create_total (queue_pool_config cfg))) 0)
    as [E|_]; [lia|].
  eexists. reflexivity.
Qed.

(** X17: with item size and capacity below 2^48 and a backing buffer
    that, when the allocator returns one, lies inside the 48-bit address
    range, [anam_queue_create] returns null exactly when the item size is
    zero, the capacity is zero, the [calloc] of the queue structure
    fails, the [calloc] of the pool structure fails, or the aligned
    allocation of the pool's buffer fails; the allocation of the dummy
    node cannot fail. *)
Theorem queue_create_null_iff (queue_calloc_ok : bool) env cfg :
  let mem := aligned_alloc env 8 (create_total (queue_pool_config cfg)) in
  0 <= cfg_item_size cfg < 2 ^ 48 -> 0 <= cfg_capacity cfg < 2 ^ 48 ->
  0 <= mem ->
  mem + 16 + 8 + (16 + queue_node_size cfg + 2 * 8 + 8) * (cfg_capacity cfg + 1) <= 2 ^ 48 ->
  anam_queue_create queue_calloc_ok env (Some cfg) = None
  <-> (cfg_item_size cfg = 0 \/ cfg_capacity cfg = 0
       \/ queue_calloc_ok = false \/ calloc_ok env = false \/ mem = 0).
Proof.
  intros mem Hisz Hcap Hmem Hbound. unfold anam_queue_create.
  destruct (Z.eqb_spec (cfg_item_size cfg) 0) as [Ei|Ni];
    [split; [intros _; left; exact Ei | reflexivity]|].
  destruct (Z.eqb_spec (cfg_capacity cfg) 0) as [Ec|Nc];
    [split; [intros _; right; left; exact Ec | reflexivity]|].
  cbn [orb].
  destruct queue_calloc_ok; cbn [negb];
    [|split; [intros _; right; right; left; reflexivity | reflexivity]].
  pose proof (queue_node_size_bounds cfg ltac:(lia)) as Hns.
  assert (Hw : wrap64 (cfg_capacity cfg + 1) = cfg_capacity cfg + 1)
    by (apply wrap64_small; lia).
  destruct (calloc_ok env) eqn:Hok;
    [destruct (Z.eq_dec mem 0) as [Em|Nm]|].
  - split; [intros _; right; right; right; right; exact Em|]. intros _.
    unfold anam_pool_create.
    cbn [queue_pool_config cfg_slot_size cfg_slot_count]. rewrite Hw.
    destruct (Z.eqb_spec (queue_node_size cfg) 0) as [E|_]; [lia|].
    destruct (Z.eqb_spec (cfg_capacity cfg + 1) 0) as [E|_]; [lia|].
    cbn [orb]. change (create_alignment (queue_pool_config cfg)) with 8.
    change (Z.land 8 (wrap64 (8 - 1)) =? 0) with true.
    change (8 <? 8) with false. rewrite Hok. cbn [negb].
    fold mem. rewrite Em. reflexivity.
  - assert (Hfit : create_fits env (queue_pool_config cfg)).
    { unfold create_fits. change (create_alignment (queue_pool_config cfg)) with 8.
      fold mem. cbn [queue_pool_config cfg_slot_size cfg_slot_count cfg_alignment].
      rewrite Hw. split_conj; lia. }
    destruct (queue_pool_create env cfg Hisz Hcap Hfit Hok) as (p0 & Hp0).
    rewrite Hp0.
    destruct (create_inv env _ p0 Hfit Hp0) as (Hinv & _ & Hcnt & _).
    cbn [queue_pool_config cfg_slot_count] in Hcnt.
    rewrite Hw in Hcnt.
    pose proof (all_slots_length p0) as Hlen. rewrite Hcnt in Hlen.
    destruct (all_slots p0) as [|d F] eqn:Hslots; [cbn in Hlen; lia|].
    pose proof Hinv as ((Hl & _) & _ & Hall & _).
    apply Forall_cons in Hall as [Hd _].
    rewrite (alloc_node_ok (queue_struct cfg p0) d F None Hinv). queue_simpl.
    destruct (live_handle_facts p0 d Hl Hd) as (_ & Hnn & _). rewrite Hnn.
    split; [discriminate|]. intros [H|[H|[H|[H|H]]]]; try contradiction; discriminate.
  - split; [intros _; right; right; right; left; reflexivity|]. intros _.
    unfold anam_pool_create.
    destruct ((cfg_slot_size (queue_pool_config cfg) =? 0)
              || (cfg_slot_count (queue_pool_config cfg) =? 0)); [reflexivity|].
    destruct (negb (Z.land (create_alignment (queue_pool_config cfg))
                      (wrap64 (create_alignment (queue_pool_config cfg) - 1)) =? 0));
      [reflexivity|].
    destruct (create_alignment (queue_pool_config cfg) <? 8); [reflexivity|].
    rewrite Hok. reflexivity.
Qed.

Lemma queue_create_null_iff_witness :
  let mem := aligned_alloc demo_env 8 (create_total (queue_pool_config pair_config)) in
  anam_queue_create true demo_env (Some pair_config) = None
  <-> (cfg_item_size pair_config = 0 \/ cfg_capacity pair_config = 0
       \/ true = false \/ calloc_ok demo_env = false \/ mem = 0).
Proof.
  apply (queue_create_null_iff true demo_env pair_config).
  - vm_compute. split; [discriminate | reflexivity].
  - vm_compute. split; [discriminate | reflexivity].
  - vm_compute. discriminate.
  - vm_compute. discriminate.
Defined.

(* ================================================================== *)
(** ** Queue: one call in a quiescent state *)

Lemma queue_inv_room q F d rest items :
  queue_inv q F d rest items ->
  Z.of_nat (List.length items) + Z.of_nat (List.length F) = capacity q
  /\ anam_queue_length q = Z.of_nat (List.length items).
Proof.
  intros Hinv. pose proof (queue_inv_lengths _ _ _ _ _ Hinv) as Hlen.
  destruct Hinv as (_ & _ & _ & Hcount & Hcap & _ & _ & _ & _ & _ & _ & Hl).
  cbn [List.length] in Hcount. rewrite length_app in Hcount.
  unfold anam_queue_length. split; lia.
Qed.

Lemma push_step q F d rest items data fuel :
  queue_inv q F d rest items -> is_item q data ->
  let room := (List.length items <? Z.to_nat (capacity q))%nat in
  exists h q1 F1 rest1,
    anam_queue_push (S fuel) q (Some data) = Some (h, q1)
    /\ queue_inv q1 F1 d rest1 (if room then items ++ [data] else items)
    /\ anam_is_null h = negb room
    /\ item_size q1 = item_size q /\ capacity q1 = capacity q
    /\ push_count q1 = (if room then wrap64 (push_count q + 1) else push_count q)
    /\ push_fails q1 = (if room then push_fails q else wrap64 (push_fails q + 1))
    /\ pop_count q1 = pop_count q /\ pop_fails q1 = pop_fails q
    /\ aba_prevented q1 = aba_prevented q
    /\ anamnesis_count (pool q1) = anamnesis_count (pool q).
Proof.
  intros Hinv Hdata. cbv zeta.
  destruct (queue_inv_room q F d rest items Hinv) as [Hroom _].
  destruct F as [|c F].
  - cbn [List.length] in Hroom.
    destruct (Nat.ltb_spec (List.length items) (Z.to_nat (capacity q))) as [H|H]; [lia|].
    exists ANAM_NULL, (set_push_fails q (wrap64 (push_fails q + 1))), [], rest.
    split; [apply (push_full q d rest items); exact Hinv|].
    split; [apply queue_inv_push_fails; exact Hinv|].
    split_conj; reflexivity.
  - cbn [List.length] in Hroom.
    destruct (Nat.ltb_spec (List.length items) (Z.to_nat (capacity q))) as [H|H]; [|lia].
    destruct (push_ok q F c d rest items data fuel Hinv Hdata) as (Hpush & Hnn & Hinv1).
    exists (live_handle (pool q) c), (pushed q c data (List.last rest d)), F, (rest ++ [c]).
    split; [exact Hpush|]. split; [exact Hinv1|]. split; [exact Hnn|].
    split_conj; reflexivity.
Qed.

Lemma pop_step q F d rest items data_out fuel :
  queue_inv q F d rest items ->
  exists q1 F1 d1 rest1,
    anam_queue_pop (S fuel) q data_out
    = Some (match items with [] => false | _ => true end,
            match items with
            | [] => None
            | it :: _ => if data_out then Some it else None
            end, q1)
    /\ queue_inv q1 F1 d1 rest1 (List.tl items)
    /\ item_size q1 = item_size q /\ capacity q1 = capacity q
    /\ pop_count q1 = (match items with [] => pop_count q | _ => wrap64 (pop_count q + 1) end)
    /\ pop_fails q1 = (match items with [] => wrap64 (pop_fails q + 1) | _ => pop_fails q end)
    /\ push_count q1 = push_count q /\ push_fails q1 = push_fails q
    /\ aba_prevented q1 = aba_prevented q
    /\ anamnesis_count (pool q1) = anamnesis_count (pool q).
Proof.
  intros Hinv. pose proof (queue_inv_lengths _ _ _ _ _ Hinv) as Hlen.
  destruct rest as [|b rest]; destruct items as [|it items]; try discriminate Hlen.
  - exists (set_pop_fails q (wrap64 (pop_fails q + 1))), F, d, [].
    split; [apply (pop_empty q F d); exact Hinv|].
    split; [apply queue_inv_pop_fails; exact Hinv|].
    split_conj; reflexivity.
  - destruct (pop_ok q F d b rest it items fuel data_out Hinv) as [Hpop Hinv1].
    exists (popped q d b), (d :: F), b, rest.
    split; [exact Hpop|]. split; [exact Hinv1|].
    split_conj; reflexivity.
Qed.

(* ================================================================== *)
(** ** Queue: a bounded first-in first-out list *)

Lemma qtrace_refines ops : forall q F d rest items fuel,
  queue_inv q F d rest items ->
  Forall (qop_ok (item_size q)) ops ->
  exists q' F' d' rest',
    qtrace (S fuel) q ops
    = Some (fifo_model (Z.to_nat (capacity q)) items ops, q')
    /\ queue_inv q' F' d' rest' (fifo_state (Z.to_nat (capacity q)) items ops).
Proof.
  induction ops as [|o ops IH]; intros q F d rest items fuel Hinv Hops.
  - exists q, F, d, rest. split; [reflexivity | exact Hinv].
  - apply Forall_cons in Hops as [Ho Hops].
    destruct o as [data|data_out]; cbn [qtrace fifo_model fifo_state].
    + destruct (push_step q F d rest items data fuel Hinv Ho)
        as (h & q1 & F1 & rest1 & Hpush & Hinv1 & Hnull & Hi & Hc & _).
      rewrite <- Hi in Hops.
      destruct (IH q1 F1 d rest1 _ fuel Hinv1 Hops) as (q' & F' & d' & rest' & Htr & Hinv').
      rewrite Hc in Htr, Hinv'. rewrite Hpush, Htr, Hnull, negb_involutive.
      exists q', F', d', rest'.
      destruct (List.length items <? Z.to_nat (capacity q))%nat;
        (split; [reflexivity | exact Hinv']).
    + destruct (pop_step q F d rest items data_out fuel Hinv)
        as (q1 & F1 & d1 & rest1 & Hpop & Hinv1 & Hi & Hc & _).
      rewrite <- Hi in Hops.
      destruct (IH q1 F1 d1 rest1 _ fuel Hinv1 Hops) as (q' & F' & d' & rest' & Htr & Hinv').
      rewrite Hc in Htr, Hinv'. rewrite Hpop, Htr.
      exists q', F', d', rest'.
      destruct items as [|it items]; (split; [reflexivity | exact Hinv']).
Qed.

(** X18: single-threaded, a created queue behaves as a first-in
    first-out list bounded by its capacity: whatever sequence of pushes
    and pops is called, every call returns what the list model returns
    (a push fails exactly when the list is full, a pop exactly when it
    is empty, and a pop delivers the oldest item), and at the end the
    queue holds the items of the model, in order, and reports their
    number as its length. *)
Theorem queue_refines_fifo env cfg q0 ops fuel :
  queue_fits env cfg ->
  anam_queue_create true env (Some cfg) = Some q0 ->
  Forall (qop_ok (cfg_item_size cfg)) ops ->
  let cap := Z.to_nat (cfg_capacity cfg) in
  exists q,
    qtrace (S fuel) q0 ops = Some (fifo_model cap [] ops, q)
    /\ queue_contents q = fifo_state cap [] ops
    /\ anam_queue_length q = Z.of_nat (List.length (fifo_state cap [] ops))
    /\ fst (anam_queue_empty q)
       = match fifo_state cap [] ops with [] => true | _ => false end.
Proof.
  intros Hfits Hcreate Hops. cbv zeta.
  destruct (queue_create_inv env cfg q0 Hfits Hcreate)
    as (d0 & F0 & Hinv0 & _ & Hcap & Hisz & _).
  rewrite <- Hisz in Hops. rewrite <- Hcap.
  destruct (qtrace_refines ops q0 F0 d0 [] [] fuel Hinv0 Hops)
    as (q & F & d & rest & Htr & Hinv).
  exists q. split; [exact Htr|].
  split; [exact (queue_contents_spec _ _ _ _ _ Hinv)|].
  split; [apply (queue_inv_room q F d rest); exact Hinv|].
  rewrite (queue_empty_spec q F d rest _ Hinv). cbn [fst].
  pose proof (queue_inv_lengths _ _ _ _ _ Hinv) as Hlen.
  destruct rest, (fifo_state (Z.to_nat (capacity q0)) [] ops); try discriminate Hlen;
    reflexivity.
Qed.

Lemma queue_refines_fifo_witness :
  let ops := [QPush (int_bytes 7); QPush (int_bytes 8); QPush (int_bytes 9);
              QPop true; QPop false; QPop true; QPush (int_bytes 10)] in
  let cap := Z.to_nat (cfg_capacity pair_config) in
  exists q,
    qtrace 1 pair_queue ops = Some (fifo_model cap [] ops, q)
    /\ queue_contents q = fifo_state cap [] ops
    /\ anam_queue_length q = Z.of_nat (List.length (fifo_state cap [] ops))
    /\ fst (anam_queue_empty q)
       = match fifo_state cap [] ops with [] => true | _ => false end.
Proof.
  apply (queue_refines_fifo demo_env pair_config pair_queue
           [QPush (int_bytes 7); QPush (int_bytes 8); QPush (int_bytes 9);
            QPop true; QPop false; QPop true; QPush (int_bytes 10)] 0).
  - apply (demo_queue_fits 4 2); lia.
  - exact pair_queue_created.
  - repeat (apply Forall_cons_2;
            [first [exact I | split; [reflexivity | apply le_bytes_range]]|]).
    apply Forall_nil_2.
Defined.

(* ================================================================== *)
(** ** Queue: the statistics *)

Lemma pushes_cons o ops :
  pushes (o :: ops) = (if is_push o then 1 else 0) + pushes ops.
Proof.
  unfold pushes. cbn [List.filter]. destruct (is_push o); cbn [List.length]; lia.
Qed.

Lemma pops_cons o ops :
  pops (o :: ops) = (if is_push o then 0 else 1) + pops ops.
Proof.
  unfold pops. cbn [List.filter]. destruct (is_push o); cbn [negb List.length]; lia.
Qed.

Lemma pushes_pops_bound ops : 0 <= pushes ops /\ 0 <= pops ops.
Proof. unfold pushes, pops. lia. Qed.

Lemma qrun_counters ops : forall q F d rest items fuel n m,
  queue_inv q F d rest items ->
  Forall (qop_ok (item_size q)) ops ->
  0 <= push_count q -> 0 <= push_fails q -> 0 <= pop_count q -> 0 <= pop_fails q ->
  push_count q + push_fails q = n ->
  pop_count q + pop_fails q = m ->
  push_count q - pop_count q = anam_queue_length q ->
  aba_prevented q = 0 ->
  n + m + Z.of_nat (List.length ops) < 2 ^ 64 ->
  exists q',
    qrun (S fuel) q ops = Some q'
    /\ anamnesis_count (pool q') = anamnesis_count (pool q)
    /\ 0 <= push_count q' /\ 0 <= push_fails q' /\ 0 <= pop_count q' /\ 0 <= pop_fails q'
    /\ push_count q' + push_fails q' = n + pushes ops
    /\ pop_count q' + pop_fails q' = m + pops ops
    /\ push_count q' - pop_count q' = anam_queue_length q'
    /\ aba_prevented q' = 0
    /\ capacity q' = capacity q
    /\ 0 <= anam_queue_length q' <= capacity q'.
Proof.
  induction ops as [|o ops IH];
    intros q F d rest items fuel n m Hinv Hops H1 H2 H3 H4 Hn Hm Hlen Haba Hbound.
  - exists q. destruct (queue_inv_room q F d rest items Hinv) as [Hroom Hl].
    cbn [qrun]. unfold pushes, pops. cbn [List.filter List.length].
    split_conj; try reflexivity; try assumption; lia.
  - apply Forall_cons in Hops as [Ho Hops]. cbn [List.length] in Hbound.
    rewrite pushes_cons, pops_cons.
    destruct (queue_inv_room q F d rest items Hinv) as [Hroom Hl].
    destruct o as [data|data_out]; cbn [qrun qstep is_push].
    + destruct (push_step q F d rest items data fuel Hinv Ho)
        as (h & q1 & F1 & rest1 & Hpush & Hinv1 & _ & Hi & Hc & Hpc & Hpf & Hoc & Hof & Hab
            & Han).
      rewrite <- Hi in Hops. rewrite Hpush.
      destruct (queue_inv_room q1 _ _ _ _ Hinv1) as [_ Hl1].
      destruct (IH q1 F1 d rest1 _ fuel (n + 1) m Hinv1 Hops) as (q' & Hrun & Hrest);
        try (rewrite ?Hpc, ?Hpf, ?Hoc, ?Hof, ?Hab, ?Hl1;
             destruct (List.length items <? Z.to_nat (capacity q))%nat eqn:Hroomb;
             rewrite ?length_app; cbn [List.length];
             try (apply Nat.ltb_lt in Hroomb);
             rewrite ?wrap64_small by lia; lia).
      exists q'. split; [exact Hrun|].
      destruct Hrest as (A0 & A1 & A2 & A3 & A4 & A5 & A6 & A7 & A8 & A9 & A10).
      split_conj; try assumption; lia.
    + destruct (pop_step q F d rest items data_out fuel Hinv)
        as (q1 & F1 & d1 & rest1 & Hpop & Hinv1 & Hi & Hc & Hoc & Hof & Hpc & Hpf & Hab
            & Han).
      rewrite <- Hi in Hops. rewrite Hpop.
      destruct (queue_inv_room q1 _ _ _ _ Hinv1) as [_ Hl1].
      destruct (IH q1 F1 d1 rest1 _ fuel n (m + 1) Hinv1 Hops) as (q' & Hrun & Hrest);
        try (rewrite ?Hpc, ?Hpf, ?Hoc, ?Hof, ?Hab, ?Hl1;
             destruct items as [|it items]; cbn [List.tl List.length] in *;
             rewrite ?wrap64_small by lia; lia).
      exists q'. split; [exact Hrun|].
      destruct Hrest as (A0 & A1 & A2 & A3 & A4 & A5 & A6 & A7 & A8 & A9 & A10).
      split_conj; try assumption; lia.
Qed.

(** X19: after any single-threaded run of fewer than 2^64 calls on a
    created queue, the statistics add up: the successful and the failed
    pushes are the pushes called, likewise for the pops; [push_count]
    minus [pop_count] is the length, which lies between 0 and the
    capacity; and no retry was ever counted in [aba_prevented]. *)
Theorem queue_stats_add_up env cfg q0 ops q fuel :
  queue_fits env cfg ->
  anam_queue_create true env (Some cfg) = Some q0 ->
  Forall (qop_ok (cfg_item_size cfg)) ops ->
  Z.of_nat (List.length ops) < 2 ^ 64 ->
  qrun (S fuel) q0 ops = Some q ->
  let st := anam_queue_stats q in
  qs_push_count st + qs_push_fails st = pushes ops
  /\ qs_pop_count st + qs_pop_fails st = pops ops
  /\ qs_push_count st - qs_pop_count st = anam_queue_length q
  /\ 0 <= anam_queue_length q <= qs_capacity st
  /\ qs_capacity st = cfg_capacity cfg
  /\ qs_aba_prevented st = 0.
Proof.
  intros Hfits Hcreate Hops Hlen Hrun. cbv zeta.
  destruct (queue_create_inv env cfg q0 Hfits Hcreate)
    as (d0 & F0 & Hinv0 & _ & Hcap & Hisz & Hpc & Hoc & Hpf & Hof).
  rewrite <- Hisz in Hops.
  destruct (queue_inv_room q0 _ _ _ _ Hinv0) as [_ Hl0]. cbn [List.length] in Hl0.
  assert (Haba : aba_prevented q0 = 0).
  { unfold anam_queue_create in Hcreate.
    destruct ((cfg_item_size cfg =? 0) || (cfg_capacity cfg =? 0)); [discriminate|].
    cbn [negb] in Hcreate.
    destruct (anam_pool_create env (Some (queue_pool_config cfg))) as [p0|]; [|discriminate].
    destruct (alloc_node (queue_struct cfg p0) None) as [dummy q1] eqn:Ealloc.
    destruct (anam_is_null dummy); [discriminate|]. injection Hcreate as <-.
    queue_simpl. unfold alloc_node in Ealloc.
    destruct (anam_alloc (pool (queue_struct cfg p0))) as [h p].
    destruct (anam_is_null h); [injection Ealloc as _ <-; reflexivity|].
    destruct (anam_get p h) as [node p']. injection Ealloc as _ <-. reflexivity. }
  destruct (qrun_counters ops q0 F0 d0 [] [] fuel 0 0 Hinv0 Hops)
    as (q' & Hrun' & _ & _ & _ & _ & _ & A5 & A6 & A7 & A8 & A9 & A10); try lia.
  rewrite Hrun in Hrun'. injection Hrun' as <-.
  cbn [anam_queue_stats qs_push_count qs_push_fails qs_pop_count qs_pop_fails
       qs_capacity qs_aba_prevented].
  split_conj; try assumption; lia.
Qed.

Lemma queue_stats_add_up_witness :
  let ops := [QPush (int_bytes 7); QPush (int_bytes 8); QPush (int_bytes 9);
              QPop true; QPop false; QPop true; QPush (int_bytes 10)] in
  let q := default pair_queue (qrun 1 pair_queue ops) in
  let st := anam_queue_stats q in
  qs_push_count st + qs_push_fails st = pushes ops
  /\ qs_pop_count st + qs_pop_fails st = pops ops
  /\ qs_push_count st - qs_pop_count st = anam_queue_length q
  /\ 0 <= anam_queue_length q <= qs_capacity st
  /\ qs_capacity st = cfg_capacity pair_config
  /\ qs_aba_prevented st = 0.
Proof.
  apply (queue_stats_add_up demo_env pair_config pair_queue
           [QPush (int_bytes 7); QPush (int_bytes 8); QPush (int_bytes 9);
            QPop true; QPop false; QPop true; QPush (int_bytes 10)] _ 0).
  - apply (demo_queue_fits 4 2); lia.
  - exact pair_queue_created.
  - repeat (apply Forall_cons_2;
            [first [exact I | split; [reflexivity | apply le_bytes_range]]|]).
    apply Forall_nil_2.
  - vm_compute. reflexivity.
  - vm_compute. reflexivity.
Defined.

(* ================================================================== *)
(** ** Queue: the private pool *)

Lemma created_queue_pool env cfg q0 :
  queue_fits env cfg ->
  anam_queue_create true env (Some cfg) = Some q0 ->
  anamnesis_count (pool q0) = 0 /\ aba_prevented q0 = 0.
Proof.
  intros (Hisz & Hcap & Hfit) Hcreate.
  pose proof (queue_node_size_bounds cfg Hisz) as Hns.
  unfold anam_queue_create in Hcreate.
  destruct ((cfg_item_size cfg =? 0) || (cfg_capacity cfg =? 0)); [discriminate|].
  cbn [negb] in Hcreate.
  destruct (anam_pool_create env (Some (queue_pool_config cfg))) as [p0|] eqn:Hpool;
    [|discriminate].
  destruct (create_inv env _ p0 Hfit Hpool)
    as (Hinv & _ & Hcnt & _ & _ & _ & _ & _ & Han & _).
  cbn [queue_pool_config cfg_slot_count] in Hcnt.
  rewrite wrap64_small in Hcnt by lia.
  pose proof (all_slots_length p0) as Hlen. rewrite Hcnt in Hlen.
  destruct (all_slots p0) as [|d F] eqn:Hslots; [cbn in Hlen; lia|].
  rewrite (alloc_node_ok (queue_struct cfg p0) d F None Hinv) in Hcreate.
  queue_simpl.
  destruct (anam_is_null (live_handle p0 d)); [discriminate|].
  injection Hcreate as <-. queue_simpl. split; [exact Han | reflexivity].
Qed.

(** X20: in every state of a single-threaded run on a created queue,
    the private pool has [capacity + 1] slots, of which one more than the
    length of the queue are live (the dummy and one node per item), the
    others being reachable on its free list; and the pool has never been
    shown a counterfeit handle. *)
Theorem queue_pool_accounting env cfg q0 ops q fuel :
  queue_fits env cfg ->
  anam_queue_create true env (Some cfg) = Some q0 ->
  Forall (qop_ok (cfg_item_size cfg)) ops ->
  Z.of_nat (List.length ops) < 2 ^ 64 ->
  qrun (S fuel) q0 ops = Some q ->
  let st := anam_pool_stats (pool q) in
  st_slot_count st = cfg_capacity cfg + 1
  /\ st_slots_live st = anam_queue_length q + 1
  /\ st_slots_free st = cfg_capacity cfg - anam_queue_length q
  /\ free_reachable (pool q) = Some (st_slots_free st)
  /\ st_anamnesis_count st = 0.
Proof.
  intros Hfits Hcreate Hops Hlen Hrun. cbv zeta.
  pose proof Hfits as (_ & Hcapb & _).
  destruct (queue_create_inv env cfg q0 Hfits Hcreate)
    as (d0 & F0 & Hinv0 & _ & Hcap & Hisz & Hpc & Hoc & Hpf & Hof).
  destruct (created_queue_pool env cfg q0 Hfits Hcreate) as [Han0 Haba0].
  rewrite <- Hisz in Hops.
  destruct (queue_inv_room q0 _ _ _ _ Hinv0) as [_ Hl0]. cbn [List.length] in Hl0.
  destruct (qrun_counters ops q0 F0 d0 [] [] fuel 0 0 Hinv0 Hops)
    as (q' & Hrun' & Han & _ & _ & _ & _ & _ & _ & _ & _ & Hc & _); try lia.
  rewrite Hrun in Hrun'. injection Hrun' as <-.
  destruct (qrun_inv ops q0 F0 d0 [] [] fuel Hinv0 Hops)
    as (q' & F & d & rest & items & Hrun' & Hinv & _).
  rewrite Hrun in Hrun'. injection Hrun' as <-.
  destruct (queue_inv_room q F d rest items Hinv) as [Hroom Hl].
  pose proof Hinv as (Hpinv & _ & _ & _ & Hcount & _).
  pose proof (free_reachable_inv _ _ Hpinv) as Hreach.
  pose proof Hpinv as (_ & _ & _ & _ & Hfree).
  cbn [anam_pool_stats st_slot_count st_slots_live st_slots_free st_anamnesis_count].
  rewrite Hreach, Hfree, Hcount, Hl, Hc, Hcap.
  split; [reflexivity|].
  split; [rewrite wrap64_small by lia; lia|].
  split; [lia|]. split; [reflexivity|]. congruence.
Qed.

Lemma queue_pool_accounting_witness :
  let ops := [QPush (int_bytes 7); QPush (int_bytes 8); QPush (int_bytes 9);
              QPop true; QPop false; QPop true; QPush (int_bytes 10)] in
  let q := default pair_queue (qrun 1 pair_queue ops) in
  let st := anam_pool_stats (pool q) in
  st_slot_count st = cfg_capacity pair_config + 1
  /\ st_slots_live st = anam_queue_length q + 1
  /\ st_slots_free st = cfg_capacity pair_config - anam_queue_length q
  /\ free_reachable (pool q) = Some (st_slots_free st)
  /\ st_anamnesis_count st = 0.
Proof.
  apply (queue_pool_accounting demo_env pair_config pair_queue
           [QPush (int_bytes 7); QPush (int_bytes 8); QPush (int_bytes 9);
            QPop true; QPop false; QPop true; QPush (int_bytes 10)] _ 0).
  - apply (demo_queue_fits 4 2); lia.
  - exact pair_queue_created.
  - repeat (apply Forall_cons_2;
            [first [exact I | split; [reflexivity | apply le_bytes_range]]|]).
    apply Forall_nil_2.
  - vm_compute. reflexivity.
  - vm_compute. reflexivity.
Defined.

(* ================================================================== *)
(** ** Queue: looking at the front *)

Lemma peek_spec q F d rest items :
  queue_inv q F d rest items ->
  anam_queue_peek q false = (false, None, q)
  /\ anam_queue_peek q true
     = (match items with [] => false | _ => true end,
        match items with [] => None | it :: _ => Some it end, q).
Proof.
  intros Hinv. split; [reflexivity|].
  pose proof (queue_inv_lengths _ _ _ _ _ Hinv) as Hlen.
  destruct (queue_inv_nodes q _ d _ _ Hinv) as (Hl & _ & Hnodes & _).
  destruct Hinv as (_ & _ & _ & _ & _ & _ & _ & Hhead & _ & Hchain & H2 & _).
  destruct (Hnodes d (or_introl eq_refl)) as [Hd _].
  pose proof (slot_range64 _ d Hl Hd) as Hd64.
  unfold anam_queue_peek. cbn [negb]. rewrite Hhead, (get_live _ d Hl Hd). queue_simpl.
  destruct (Z.eqb_spec d 0) as [E|_]; [lia|].
  destruct rest as [|b rest]; destruct items as [|it items]; try discriminate Hlen;
    cbn [node_chain] in Hchain; unfold node_next in Hchain.
  - rewrite Hchain. change (anam_is_null ANAM_NULL) with true. cbv iota.
    rewrite set_pool_same. reflexivity.
  - destruct Hchain as [Hn _]. rewrite Hn.
    destruct (Hnodes b (or_intror (or_introl eq_refl))) as [Hb _].
    pose proof (slot_range64 _ b Hl Hb) as Hb64.
    destruct (live_handle_facts _ b Hl Hb) as (_ & Hnn & _). rewrite Hnn.
    rewrite (get_live _ b Hl Hb). queue_simpl.
    destruct (Z.eqb_spec b 0) as [E|_]; [lia|].
    inversion H2 as [|? ? ? ? Hit _]; subst. unfold node_item.
    rewrite !set_pool_same. reflexivity.
Qed.

(** X21: in every state of a single-threaded run on a created queue,
    [anam_queue_peek] leaves the queue as it is; with a buffer it returns
    true and the oldest item, the one the next pop delivers, when the
    queue is not empty, and false when it is empty; without a buffer it
    returns false even when the queue holds items, unlike
    [anam_queue_pop]. *)
Theorem peek_shows_front env cfg q0 ops q fuel :
  queue_fits env cfg ->
  anam_queue_create true env (Some cfg) = Some q0 ->
  Forall (qop_ok (cfg_item_size cfg)) ops ->
  qrun (S fuel) q0 ops = Some q ->
  anam_queue_peek q false = (false, None, q)
  /\ (fst (anam_queue_empty q) = true -> anam_queue_peek q true = (false, None, q))
  /\ (fst (anam_queue_empty q) = false ->
      exists it q',
        anam_queue_peek q true = (true, Some it, q)
        /\ anam_queue_pop (S fuel) q true = Some (true, Some it, q')
        /\ queue_contents q = it :: queue_contents q').
Proof.
  intros Hfits Hcreate Hops Hrun.
  destruct (queue_create_inv env cfg q0 Hfits Hcreate)
    as (d0 & F0 & Hinv0 & _ & _ & Hisz & _).
  rewrite <- Hisz in Hops.
  destruct (qrun_inv ops q0 F0 d0 [] [] fuel Hinv0 Hops)
    as (q1 & F & d & rest & items & Hrun1 & Hinv & _).
  rewrite Hrun in Hrun1. injection Hrun1 as <-.
  pose proof (queue_inv_lengths _ _ _ _ _ Hinv) as Hlen.
  destruct (peek_spec q F d rest items Hinv) as [Hp0 Hp1].
  rewrite (queue_empty_spec q F d rest items Hinv). cbn [fst].
  split; [exact Hp0|].
  destruct rest as [|b rest]; destruct items as [|it items]; try discriminate Hlen.
  - split; [intros _; exact Hp1 | discriminate].
  - split; [discriminate|]. intros _.
    destruct (pop_ok q F d b rest it items fuel true Hinv) as [Hpop Hinv1].
    exists it, (popped q d b). split; [exact Hp1|]. split; [exact Hpop|].
    rewrite (queue_contents_spec _ _ _ _ _ Hinv), (queue_contents_spec _ _ _ _ _ Hinv1).
    reflexivity.
Qed.

Lemma peek_shows_front_witness :
  let q := default pair_queue
             (qrun 1 pair_queue [QPush (int_bytes 7); QPush (int_bytes 8); QPop true]) in
  anam_queue_peek q false = (false, None, q)
  /\ (fst (anam_queue_empty q) = true -> anam_queue_peek q true = (false, None, q))
  /\ (fst (anam_queue_empty q) = false ->
      exists it q',
        anam_queue_peek q true = (true, Some it, q)
        /\ anam_queue_pop 1 q true = Some (true, Some it, q')
        /\ queue_contents q = it :: queue_contents q').
Proof.
  apply (peek_shows_front demo_env pair_config pair_queue
           [QPush (int_bytes 7); QPush (int_bytes 8); QPop true] _ 0).
  - apply (demo_queue_fits 4 2); lia.
  - exact pair_queue_created.
  - repeat (apply Forall_cons_2;
            [first [exact I | split; [reflexivity | apply le_bytes_range]]|]).
    apply Forall_nil_2.
  - vm_compute. reflexivity.
Defined.
